(** * coredns-redis: resolution engine over a key-value backend

    Shallow embedding of [redis.go] (aggregated hash layout) and of the
    per-type text-row backend, with the properties of the location
    resolver, the TTL policy, TXT chunking, zone enumeration, zone
    transfer, error propagation and row decoding. *)

From Stdlib Require Import ZArith String Ascii List Bool Lia DecimalString.
From stdpp Require Import gmap strings list.

Local Open Scope string_scope.
Local Open Scope Z_scope.

(** ** Go strings: byte sequences, with the [strings] functions used *)

Module Strings.

(** [s[n:]] for [n <= len(s)]. *)
Fixpoint drop (n : nat) (s : string) : string :=
  match n, s with
  | O, _ => s
  | S n', String _ s' => drop n' s'
  | S _, EmptyString => EmptyString
  end.

(** [s[:n]] for [n <= len(s)]. *)
Fixpoint take (n : nat) (s : string) : string :=
  match n, s with
  | O, _ => EmptyString
  | S n', String a s' => String a (take n' s')
  | S _, EmptyString => EmptyString
  end.

(** [strings.HasPrefix(s, prefix)]. *)
Fixpoint HasPrefix (s p : string) : bool :=
  match p, s with
  | EmptyString, _ => true
  | String a p', String b s' => Ascii.eqb a b && HasPrefix s' p'
  | String _ _, EmptyString => false
  end.

(** [strings.HasSuffix(s, suffix)]:
    [len(s) >= len(suffix) && s[len(s)-len(suffix):] == suffix]. *)
Definition HasSuffix (s suf : string) : bool :=
  (String.length suf <=? String.length s)%nat
  && String.eqb (drop (String.length s - String.length suf) s) suf.

(** [strings.TrimPrefix(s, prefix)]. *)
Definition TrimPrefix (s p : string) : string :=
  if HasPrefix s p then drop (String.length p) s else s.

(** [strings.TrimSuffix(s, suffix)]. *)
Definition TrimSuffix (s suf : string) : string :=
  if HasSuffix s suf then take (String.length s - String.length suf) s else s.

(** [strings.SplitAfterN(s, sep, 2)] for a one-byte separator and a
    non-empty [s]: the text up to and including the first separator and
    the rest, or [s] alone when there is no separator. *)
Fixpoint SplitAfterN2 (s : string) (sep : ascii) : list string :=
  match s with
  | EmptyString => [EmptyString]
  | String a s' =>
      if Ascii.eqb a sep then [String a EmptyString; s']
      else match SplitAfterN2 s' sep with
           | [h; t] => [String a h; t]
           | _ => [s]
           end
  end.

(** Width in bytes of the white-space rune at the head of [s], [0] when
    [s] does not start with one: [unicode.IsSpace] on the UTF-8 text, that
    is tab, LF, VT, FF, CR, space, U+0085, U+00A0, U+1680, U+2000 to
    U+200A, U+2028, U+2029, U+202F, U+205F and U+3000. *)
Definition spaceWidth (s : string) : nat :=
  let b (a : ascii) := Z.of_nat (nat_of_ascii a) in
  match s with
  | EmptyString => 0%nat
  | String a0 r0 =>
      let c0 := b a0 in
      if ((9 <=? c0) && (c0 <=? 13)) || (c0 =? 32) then 1%nat
      else match r0 with
           | EmptyString => 0%nat
           | String a1 r1 =>
               let c1 := b a1 in
               if (c0 =? 194) && ((c1 =? 133) || (c1 =? 160)) then 2%nat
               else match r1 with
                    | EmptyString => 0%nat
                    | String a2 _ =>
                        let c2 := b a2 in
                        if (c0 =? 225) && (c1 =? 154) && (c2 =? 128) then 3%nat
                        else if (c0 =? 226) && (c1 =? 128)
                                && (((128 <=? c2) && (c2 <=? 138))
                                    || (c2 =? 168) || (c2 =? 169) || (c2 =? 175))
                             then 3%nat
                        else if (c0 =? 226) && (c1 =? 129) && (c2 =? 159) then 3%nat
                        else if (c0 =? 227) && (c1 =? 128) && (c2 =? 128) then 3%nat
                        else 0%nat
                    end
           end
  end.

(** The scan of [strings.Fields]: [cur] is the field being read (bytes
    in reverse), [skip] the number of bytes of a white-space rune still
    to pass over. *)
Fixpoint Fields_scan (s : string) (skip : nat) (cur : list ascii) : list string :=
  let flush (rest : list string) :=
    match cur with
    | [] => rest
    | _ => string_of_list_ascii (rev cur) :: rest
    end in
  match s with
  | EmptyString => flush []
  | String a s' =>
      match skip with
      | S k => Fields_scan s' k cur
      | O =>
          match spaceWidth s with
          | O => Fields_scan s' 0 (a :: cur)
          | S k => flush (Fields_scan s' k [])
          end
      end
  end.

(** [strings.Fields(s)]: the maximal runs of non-white-space bytes. *)
Definition Fields (s : string) : list string := Fields_scan s 0 [].

End Strings.

(** ** [strconv] and the Go integer conversions *)

Module Strconv.

Definition digit (a : ascii) : option Z :=
  let n := Z.of_nat (nat_of_ascii a) in
  if (48 <=? n) && (n <=? 57) then Some (n - 48) else None.

Fixpoint digits (s : string) (acc : Z) : option Z :=
  match s with
  | EmptyString => Some acc
  | String a s' =>
      match digit a with
      | Some d => digits s' (10 * acc + d)
      | None => None
      end
  end.

(** [strconv.Atoi(s)] on a 64-bit platform: an optional sign and one or
    more decimal digits; [None] for a syntax or a range error. *)
Definition Atoi (s : string) : option Z :=
  let unsigned (t : string) :=
    match t with
    | EmptyString => None
    | _ => digits t 0
    end in
  let v :=
    match s with
    | String "+" t => unsigned t
    | String "-" t => option_map Z.opp (unsigned t)
    | _ => unsigned s
    end in
  match v with
  | Some n => if (- 2 ^ 63 <=? n) && (n <? 2 ^ 63) then Some n else None
  | None => None
  end.

(** The conversion [uint32(x)] of an [int]. *)
Definition uint32 (x : Z) : Z := x mod 2 ^ 32.

End Strconv.

(** ** The resource records of [github.com/miekg/dns] that the code builds *)

Module dns.

Definition TypeA : Z := 1.
Definition TypeNS : Z := 2.
Definition TypeCNAME : Z := 5.
Definition TypeSOA : Z := 6.
Definition TypeMX : Z := 15.
Definition TypeTXT : Z := 16.
Definition TypeAAAA : Z := 28.
Definition TypeSRV : Z := 33.
Definition TypeCAA : Z := 257.
Definition ClassINET : Z := 1.

(** [net.IP]: the bytes of an address, [None] for the nil slice. *)
Definition IP := option (list Z).

Record RR_Header := mkHeader
  { Name : string; Rrtype : Z; Class : Z; Ttl : Z }.

Inductive RData :=
| A (a : IP)
| AAAA (aaaa : IP)
| CNAME (target : string)
| TXT (txt : list string)
| NS (ns : string)
| MX (preference : Z) (mx : string)
| SRV (priority weight port : Z) (target : string)
| SOA (ns mbox : string) (serial refresh retry expire minttl : Z)
| CAA (flag : Z) (tag value : string).

Record RR := mkRR { Hdr : RR_Header; Data : RData }.

(** [rr.Header().Ttl = ttl]. *)
Definition setTtl (ttl : Z) (rr : RR) : RR :=
  mkRR (mkHeader (Name (Hdr rr)) (Rrtype (Hdr rr)) (Class (Hdr rr)) ttl) (Data rr).

(** Number of backslashes at the head of a reversed name. *)
Fixpoint escapes (l : list ascii) : nat :=
  match l with
  | "\"%char :: l' => S (escapes l')
  | _ => O
  end.

(** [dns.IsFqdn(s)]: [s] ends in a dot that is not escaped. *)
Definition IsFqdn (s : string) : bool :=
  match rev (list_ascii_of_string s) with
  | "."%char :: l => Nat.even (escapes l)
  | _ => false
  end.

(** [dns.Fqdn(s)]. *)
Definition Fqdn (s : string) : string :=
  if IsFqdn s then s else (s ++ ".")%string.

End dns.

(** ** Aggregated layout: [redis.go] *)

Module Hash.

Import Strings.

(** [Zone]: the zone name and the hash fields (labels) it has. The
    source's [map[string]struct{}] is a set of strings. *)
Record Zone := mkZone { Name : string; Locations : gset string }.

Definition keyExists (key : string) (z : Zone) : bool :=
  bool_decide (key ∈ Locations z).

Definition keyMatches (key : string) (z : Zone) : bool :=
  existsb (fun value => HasSuffix value key) (elements (Locations z)).

Definition splitQuery (query : string) : string * string * bool :=
  if String.eqb query "" then ("", "", false)
  else match SplitAfterN2 query "." with
       | [_; closestEncloser] =>
           (closestEncloser, "*." ++ closestEncloser, true)
       | _ => ("", "*", true)
       end.

(** The [for ok] loop of [findLocation]; [None] when the fuel runs out. *)
Fixpoint findLocation_loop (fuel : nat) (z : Zone)
    (closestEncloser sourceOfSynthesis : string) (ok : bool) : option string :=
  if ok then
    match fuel with
    | O => None
    | S fuel' =>
        let ceExists := keyMatches closestEncloser z || keyExists closestEncloser z in
        let ssExists := keyExists sourceOfSynthesis z in
        if ceExists then
          if ssExists then Some sourceOfSynthesis else Some ""
        else
          let '(ce, ss, ok') := splitQuery closestEncloser in
          findLocation_loop fuel' z ce ss ok'
    end
  else Some "".

Definition findLocation_fuel (fuel : nat) (query : string) (z : Zone) : option string :=
  if String.eqb query (Name z) then Some query
  else
    let query := TrimSuffix query ("." ++ Name z) in
    if bool_decide (query ∈ Locations z) then Some query
    else
      let '(ce, ss, ok) := splitQuery query in
      findLocation_loop fuel z ce ss ok.

(** Each turn of the loop removes at least one byte, so the length of
    the query bounds the number of turns. *)
Definition findLocation_opt (query : string) (z : Zone) : option string :=
  findLocation_fuel (S (String.length query)) query z.

Definition findLocation (query : string) (z : Zone) : string :=
  match findLocation_opt query z with
  | Some location => location
  | None => ""
  end.

(** *** Stored records *)

(** Modelled from the spec: the struct declarations of the aggregated
    record ([Record] and its sub-records) are not among the sources; the
    fields are those the synthesizers read, as the data model lists them:
    A and AAAA with ip and ttl, CNAME and NS with host and ttl, TXT with
    text and ttl, MX with host, preference and ttl, SRV with target,
    weight, port, priority and ttl, CAA with flag, tag and value, and one
    SOA with ns, mbox, refresh, retry, expire, minttl and ttl. *)
Module A_Record.
Record t := mk { Ip : dns.IP; Ttl : Z }.
End A_Record.
Module AAAA_Record.
Record t := mk { Ip : dns.IP; Ttl : Z }.
End AAAA_Record.
Module CNAME_Record.
Record t := mk { Host : string; Ttl : Z }.
End CNAME_Record.
Module TXT_Record.
Record t := mk { Text : string; Ttl : Z }.
End TXT_Record.
Module NS_Record.
Record t := mk { Host : string; Ttl : Z }.
End NS_Record.
Module MX_Record.
Record t := mk { Host : string; Preference : Z; Ttl : Z }.
End MX_Record.
Module SRV_Record.
Record t := mk { Target : string; Weight : Z; Port : Z; Priority : Z; Ttl : Z }.
End SRV_Record.
Module CAA_Record.
Record t := mk { Flag : Z; Tag : string; Value : string }.
End CAA_Record.
Module SOA_Record.
Record t := mk
  { Ns : string; MBox : string; Refresh : Z; Retry : Z; Expire : Z;
    MinTtl : Z; Ttl : Z }.
End SOA_Record.
Module Rec.
Record t := mk
  { A : list A_Record.t; AAAA : list AAAA_Record.t;
    CNAME : list CNAME_Record.t; TXT : list TXT_Record.t;
    NS : list NS_Record.t; MX : list MX_Record.t;
    SRV : list SRV_Record.t; CAA : list CAA_Record.t;
    SOA : SOA_Record.t }.
Definition empty : t :=
  mk [] [] [] [] [] [] [] [] (SOA_Record.mk "" "" 0 0 0 0 0).
End Rec.

(** *** The backend link *)

(** What a key of the backend holds. *)
Inductive Value :=
| VString (s : string)
| VHash (h : gmap string string).

(** The payload of a SCAN reply: the cursor as bytes, then the arrays of
    keys. *)
Record ScanRaw := mkScanRaw
  { cursorBytes : string; keyArrays : list (list string) }.

(** A connection handed out by the pool: [failure] is the error every
    command on a dead link returns, [db] the keys of the backend, [scan]
    the backend's answer to SCAN at a cursor. *)
Record Conn := mkConn
  { failure : option string;
    db : gmap string Value;
    scan : Z -> ScanRaw }.

Inductive Reply :=
| ReplyNil
| ReplyBulk (b : string)
| ReplyInt (n : Z).

Definition WRONGTYPE : string :=
  "WRONGTYPE Operation against a key holding the wrong kind of value".

(** [conn.Do("HGET", key, field)]: the reply, or the error. *)
Definition Do_HGET (conn : Conn) (key field : string) : Reply + string :=
  match failure conn with
  | Some e => inr e
  | None =>
      match db conn !! key with
      | None => inl ReplyNil
      | Some (VString _) => inr WRONGTYPE
      | Some (VHash h) =>
          match h !! field with
          | Some v => inl (ReplyBulk v)
          | None => inl ReplyNil
          end
      end
  end.

(** [conn.Do("HSET", key, field, value)]: the reply or the error, and
    the connection afterwards. *)
Definition Do_HSET (conn : Conn) (key field value : string)
    : (Reply + string) * Conn :=
  match failure conn with
  | Some e => (inr e, conn)
  | None =>
      match db conn !! key with
      | Some (VString _) => (inr WRONGTYPE, conn)
      | Some (VHash h) =>
          (inl (ReplyInt (match h !! field with Some _ => 0 | None => 1 end)),
           mkConn None (<[key := VHash (<[field := value]> h)]> (db conn)) (scan conn))
      | None =>
          (inl (ReplyInt 1),
           mkConn None (<[key := VHash {[field := value]}]> (db conn)) (scan conn))
      end
  end.

(** [conn.Do("SCAN", cursor, "MATCH", pattern, "COUNT", n)]. *)
Definition Do_SCAN (conn : Conn) (cursor : Z) : ScanRaw + string :=
  match failure conn with
  | Some e => inr e
  | None => inl (scan conn cursor)
  end.

(** [conn.Do("DBSIZE")]. *)
Definition Do_DBSIZE (conn : Conn) : Reply + string :=
  match failure conn with
  | Some e => inr e
  | None => inl (ReplyInt (Z.of_nat (size (db conn))))
  end.

(** [redisCon.String(reply, nil)]; [None] is an error (also for the nil
    reply, [ErrNil]). *)
Definition redisCon_String (reply : Reply) : option string :=
  match reply with
  | ReplyBulk b => Some b
  | _ => None
  end.

(** [redisCon.Int(reply, nil)]. *)
Definition redisCon_Int (reply : Reply) : option Z :=
  match reply with
  | ReplyInt n => Some n
  | ReplyBulk b => Strconv.Atoi b
  | _ => None
  end.

(** The [Redis] struct; [Pool] is what [Pool.Get()] hands out, [None]
    for the nil connection the code tests for; [LastZoneUpdate] is a
    Unix time. *)
Record Redis := mkRedis
  { Pool : option Conn;
    keyPrefix : string;
    keySuffix : string;
    Ttl : Z;
    Zones : list string;
    LastZoneUpdate : Z;
    lastKeyCount : Z }.

Definition defaultTtl : Z := 360.

Definition minTtl (redis : Redis) (ttl : Z) : Z :=
  if (Ttl redis =? 0) && (ttl =? 0) then defaultTtl
  else if Ttl redis =? 0 then ttl
  else if ttl =? 0 then Ttl redis
  else if Ttl redis <? ttl then Ttl redis
  else ttl.

Fixpoint split255_loop (fuel : nat) (s : string) (p i : nat)
    (sx : list string) : option (list string) :=
  match fuel with
  | O => None
  | S fuel' =>
      if (i <=? String.length s)%nat
      then split255_loop fuel' s (p + 255) (i + 255)
             (sx ++ [take (i - p) (drop p s)])%list
      else Some (sx ++ [drop p s])%list
  end.

(** The loop ends at the first [i] above [len(s)], after at most
    [len(s) + 1] turns. *)
Definition split255_opt (s : string) : option (list string) :=
  if (String.length s <? 255)%nat then Some [s]
  else split255_loop (S (String.length s)) s 0 255 [].

Definition split255 (s : string) : list string :=
  match split255_opt s with
  | Some sx => sx
  | None => []
  end.

Definition KeyCount (redis : Redis) : Z :=
  match Pool redis with
  | None => -1
  | Some conn =>
      match Do_DBSIZE conn with
      | inr _ => -1
      | inl reply =>
          match redisCon_Int reply with
          | None => -1
          | Some dbsize => dbsize
          end
      end
  end.

(** *** Zone enumeration *)

Record RedisScanReply := mkScanReply { cursor : Z; keys : list string }.

(** [decodeScanReply]: [None] when the cursor is not a number. *)
Definition decodeScanReply (reply : ScanRaw) : option RedisScanReply :=
  match Strconv.Atoi (cursorBytes reply) with
  | None => None
  | Some cursor => Some (mkScanReply cursor (concat (keyArrays reply)))
  end.

(** The [for _, zone := range scanReply.keys] loop of [LoadZones]. *)
Fixpoint LoadZones_range (redis : Redis) (ks : list string)
    (zones : list string) (keysSeen : gset string) : list string * gset string :=
  match ks with
  | [] => (zones, keysSeen)
  | zone :: ks' =>
      if bool_decide (zone ∈ keysSeen) then LoadZones_range redis ks' zones keysSeen
      else
        let zone := TrimPrefix zone (keyPrefix redis) in
        let zone := TrimPrefix zone (keySuffix redis) in
        LoadZones_range redis ks' (zones ++ [zone])%list ({[zone]} ∪ keysSeen)
  end.

(** How the scan loop of [LoadZones] ends. *)
Inductive ScanEnd :=
| ScanDone (zones : list string)
| ScanAborted
| ScanOutOfFuel.

(** The [for { ... }] loop of [LoadZones]: one SCAN per turn. *)
Fixpoint LoadZones_loop (fuel : nat) (redis : Redis) (conn : Conn) (cur : Z)
    (zones : list string) (keysSeen : gset string) : ScanEnd :=
  match fuel with
  | O => ScanOutOfFuel
  | S fuel' =>
      match Do_SCAN conn cur with
      | inr _ => ScanAborted
      | inl reply =>
          match decodeScanReply reply with
          | None => ScanAborted
          | Some scanReply =>
              let cur := cursor scanReply in
              let '(zones, keysSeen) :=
                LoadZones_range redis (keys scanReply) zones keysSeen in
              if cur =? 0 then ScanDone zones
              else LoadZones_loop fuel' redis conn cur zones keysSeen
          end
      end
  end.

(** [LoadZones] at time [now]: the [Redis] value afterwards, [None] when
    [fuel] scans did not reach cursor [0]. *)
Definition LoadZones (fuel : nat) (now : Z) (redis : Redis) : option Redis :=
  match Pool redis with
  | None => Some redis
  | Some conn =>
      match LoadZones_loop fuel redis conn 0 [] ∅ with
      | ScanOutOfFuel => None
      | ScanAborted => Some redis
      | ScanDone zones =>
          Some (mkRedis (Pool redis) (keyPrefix redis) (keySuffix redis)
                  (Ttl redis) zones now (KeyCount redis))
      end
  end.

(** *** Reading and writing a label *)

Section WithJSON.

(** [json.Unmarshal] into a fresh [Record]; [None] is a decoding
    error. *)
Variable Unmarshal : string -> option Rec.t.

(** The hash field [get] reads for [key]. *)
Definition label (key : string) (z : Zone) : string :=
  if String.eqb key (Name z) then "@" else key.

(** [get]: [None] is the nil [*Record]. *)
Definition get (redis : Redis) (key : string) (z : Zone) : option Rec.t :=
  match Pool redis with
  | None => None
  | Some conn =>
      let redisKey := keyPrefix redis ++ Name z ++ keySuffix redis in
      match Do_HGET conn redisKey (label key z) with
      | inr _ => None
      | inl reply =>
          match redisCon_String reply with
          | None => None
          | Some val =>
              match Unmarshal val with
              | None => None
              | Some r => Some r
              end
          end
      end
  end.

(** [save]: the returned error ([None] is nil) and the [Redis] value
    afterwards. *)
Definition save (redis : Redis) (zone subdomain value : string)
    : option string * Redis :=
  match Pool redis with
  | None => (None, redis)
  | Some conn =>
      let '(r, conn') :=
        Do_HSET conn (keyPrefix redis ++ zone ++ keySuffix redis) subdomain value in
      (match r with inr err => Some err | inl _ => None end,
       mkRedis (Some conn') (keyPrefix redis) (keySuffix redis) (Ttl redis)
         (Zones redis) (LastZoneUpdate redis) (lastKeyCount redis))
  end.

(** *** Record synthesis *)

Definition RRs : Type := list dns.RR * list dns.RR.

Definition hdr (name : string) (rrtype ttl : Z) : dns.RR_Header :=
  dns.mkHeader (dns.Fqdn name) rrtype dns.ClassINET ttl.

Definition A (redis : Redis) (name : string) (z : Zone)
    (record : option Rec.t) : RRs :=
  match record with
  | None => ([], [])
  | Some record =>
      fold_left (fun '(answers, extras) a =>
          match A_Record.Ip a with
          | None => (answers, extras)
          | Some _ =>
              let r := dns.mkRR (hdr name dns.TypeA (minTtl redis (A_Record.Ttl a)))
                         (dns.A (A_Record.Ip a)) in
              ((answers ++ [r])%list, extras)
          end)
        (Rec.A record) ([], [])
  end.

Definition AAAA (redis : Redis) (name : string) (z : Zone)
    (record : option Rec.t) : RRs :=
  match record with
  | None => ([], [])
  | Some record =>
      fold_left (fun '(answers, extras) aaaa =>
          match AAAA_Record.Ip aaaa with
          | None => (answers, extras)
          | Some _ =>
              let r := dns.mkRR
                         (hdr name dns.TypeAAAA (minTtl redis (AAAA_Record.Ttl aaaa)))
                         (dns.AAAA (AAAA_Record.Ip aaaa)) in
              ((answers ++ [r])%list, extras)
          end)
        (Rec.AAAA record) ([], [])
  end.

Definition CNAME (redis : Redis) (name : string) (z : Zone)
    (record : option Rec.t) : RRs :=
  match record with
  | None => ([], [])
  | Some record =>
      fold_left (fun '(answers, extras) cname =>
          if (String.length (CNAME_Record.Host cname) =? 0)%nat
          then (answers, extras)
          else
            let r := dns.mkRR
                       (hdr name dns.TypeCNAME (minTtl redis (CNAME_Record.Ttl cname)))
                       (dns.CNAME (dns.Fqdn (CNAME_Record.Host cname))) in
            ((answers ++ [r])%list, extras))
        (Rec.CNAME record) ([], [])
  end.

Definition TXT (redis : Redis) (name : string) (z : Zone)
    (record : option Rec.t) : RRs :=
  match record with
  | None => ([], [])
  | Some record =>
      fold_left (fun '(answers, extras) txt =>
          if (String.length (TXT_Record.Text txt) =? 0)%nat
          then (answers, extras)
          else
            let r := dns.mkRR
                       (hdr name dns.TypeTXT (minTtl redis (TXT_Record.Ttl txt)))
                       (dns.TXT (split255 (TXT_Record.Text txt))) in
            ((answers ++ [r])%list, extras))
        (Rec.TXT record) ([], [])
  end.

Definition hosts (redis : Redis) (name : string) (z : Zone) : list dns.RR :=
  let location := findLocation name z in
  if String.eqb location "" then []
  else
    let record := get redis location z in
    let answers := [] in
    let answers := (answers ++ fst (A redis name z record))%list in
    let answers := (answers ++ fst (AAAA redis name z record))%list in
    let answers := (answers ++ fst (CNAME redis name z record))%list in
    answers.

Definition NS (redis : Redis) (name : string) (z : Zone)
    (record : option Rec.t) : RRs :=
  match record with
  | None => ([], [])
  | Some record =>
      fold_left (fun '(answers, extras) ns =>
          if (String.length (NS_Record.Host ns) =? 0)%nat
          then (answers, extras)
          else
            let r := dns.mkRR
                       (hdr name dns.TypeNS (minTtl redis (NS_Record.Ttl ns)))
                       (dns.NS (NS_Record.Host ns)) in
            ((answers ++ [r])%list,
             (extras ++ hosts redis (NS_Record.Host ns) z)%list))
        (Rec.NS record) ([], [])
  end.

Definition MX (redis : Redis) (name : string) (z : Zone)
    (record : option Rec.t) : RRs :=
  match record with
  | None => ([], [])
  | Some record =>
      fold_left (fun '(answers, extras) mx =>
          if (String.length (MX_Record.Host mx) =? 0)%nat
          then (answers, extras)
          else
            let r := dns.mkRR
                       (hdr name dns.TypeMX (minTtl redis (MX_Record.Ttl mx)))
                       (dns.MX (MX_Record.Preference mx) (MX_Record.Host mx)) in
            ((answers ++ [r])%list,
             (extras ++ hosts redis (MX_Record.Host mx) z)%list))
        (Rec.MX record) ([], [])
  end.

Definition SRV (redis : Redis) (name : string) (z : Zone)
    (record : option Rec.t) : RRs :=
  match record with
  | None => ([], [])
  | Some record =>
      fold_left (fun '(answers, extras) srv =>
          if (String.length (SRV_Record.Target srv) =? 0)%nat
          then (answers, extras)
          else
            let r := dns.mkRR
                       (hdr name dns.TypeSRV (minTtl redis (SRV_Record.Ttl srv)))
                       (dns.SRV (SRV_Record.Priority srv) (SRV_Record.Weight srv)
                          (SRV_Record.Port srv) (SRV_Record.Target srv)) in
            ((answers ++ [r])%list,
             (extras ++ hosts redis (SRV_Record.Target srv) z)%list))
        (Rec.SRV record) ([], [])
  end.

(** [serial] at Unix time [now]. *)
Definition serial (now : Z) : Z := Strconv.uint32 now.

(** [SOA] at Unix time [now]. *)
Definition SOA (redis : Redis) (now : Z) (name : string) (z : Zone)
    (record : option Rec.t) : RRs :=
  match record with
  | None => ([], [])
  | Some record =>
      let soa := Rec.SOA record in
      let r :=
        if String.eqb (SOA_Record.Ns soa) "" then
          dns.mkRR (hdr name dns.TypeSOA (Ttl redis))
            (dns.SOA ("ns1." ++ name) ("hostmaster." ++ name) (serial now)
               86400 7200 3600 (Ttl redis))
        else
          dns.mkRR (hdr (Name z) dns.TypeSOA (minTtl redis (SOA_Record.Ttl soa)))
            (dns.SOA (SOA_Record.Ns soa) (SOA_Record.MBox soa) (serial now)
               (SOA_Record.Refresh soa) (SOA_Record.Retry soa)
               (SOA_Record.Expire soa) (SOA_Record.MinTtl soa)) in
      ([r], [])
  end.

Definition CAA (redis : Redis) (name : string) (z : Zone)
    (record : option Rec.t) : RRs :=
  match record with
  | None => ([], [])
  | Some record =>
      fold_left (fun '(answers, extras) caa =>
          if String.eqb (CAA_Record.Value caa) "" || String.eqb (CAA_Record.Tag caa) ""
          then (answers, extras)
          else
            let r := dns.mkRR (hdr name dns.TypeCAA 0)
                       (dns.CAA (CAA_Record.Flag caa) (CAA_Record.Tag caa)
                          (CAA_Record.Value caa)) in
            ((answers ++ [r])%list, extras))
        (Rec.CAA record) ([], [])
  end.

(** *** Zone transfer *)

(** The state of the loop of [AXFR]. *)
Record AXFRState := mkAXFR
  { soa : list dns.RR; answers : list dns.RR; extras : list dns.RR }.

(** [as, xs = f(...); answers = append(answers, as...);
    extras = append(extras, xs...)]. *)
Definition collect (st : AXFRState) (rrs : RRs) : AXFRState :=
  mkAXFR (soa st) (answers st ++ fst rrs)%list (extras st ++ snd rrs)%list.

(** One turn of [for key := range z.Locations]. *)
Definition AXFR_step (redis : Redis) (now : Z) (z : Zone)
    (st : AXFRState) (key : string) : AXFRState :=
  if String.eqb key "@" then
    let location := findLocation (Name z) z in
    let record := get redis location z in
    mkAXFR (fst (SOA redis now (Name z) z record)) (answers st) (extras st)
  else
    let fqdnKey := dns.Fqdn key ++ Name z in
    let location := findLocation fqdnKey z in
    let record := get redis location z in
    let st := collect st (A redis fqdnKey z record) in
    let st := collect st (AAAA redis fqdnKey z record) in
    let st := collect st (CNAME redis fqdnKey z record) in
    let st := collect st (MX redis fqdnKey z record) in
    let st := collect st (SRV redis fqdnKey z record) in
    let st := collect st (TXT redis fqdnKey z record) in
    st.

(** [AXFR] when the map [z.Locations] is ranged over in the order
    [order]. *)
Definition AXFR_in (order : list string) (redis : Redis) (now : Z) (z : Zone)
    : list dns.RR :=
  let st := fold_left (AXFR_step redis now z) order (mkAXFR [] [] []) in
  let records := soa st in
  let records := (records ++ answers st)%list in
  let records := (records ++ extras st)%list in
  let records := (records ++ soa st)%list in
  records.

(** [AXFR]; Go leaves the order of a map range open, [elements] fixes
    one. *)
Definition AXFR (redis : Redis) (now : Z) (z : Zone) : list dns.RR :=
  AXFR_in (elements (Locations z)) redis now z.

End WithJSON.

(** *** Loading a zone *)

(** [redisCon.Strings(conn.Do("HKEYS", key))]: the fields of the hash, in
    no particular order; none for a key that is not there. *)
Definition Do_HKEYS (conn : Conn) (key : string) : list string + string :=
  match failure conn with
  | Some e => inr e
  | None =>
      match db conn !! key with
      | None => inl []
      | Some (VString _) => inr WRONGTYPE
      | Some (VHash h) => inl (elements (dom h))
      end
  end.

(** [load]: [None] is the nil [*Zone]. *)
Definition load (redis : Redis) (zone : string) : option Zone :=
  match Pool redis with
  | None => None
  | Some conn =>
      match Do_HKEYS conn (keyPrefix redis ++ zone ++ keySuffix redis) with
      | inr _ => None
      | inl vals =>
          Some (mkZone zone (fold_left (fun locations val => {[val]} ∪ locations) vals ∅))
      end
  end.

End Hash.


(** ** Per-type text rows with a decaying TTL key *)

(** The source file holds two revisions of this code; the embedding is of
    the first, whose [LoadZoneRecords] takes the record type, the record name
    and the connection. *)

Module Rows.

Import Strings.

(** Go [error] values: what [strconv.Atoi] returns for [num], an error
    of the link or of the backend, [fmt.Errorf(format, args...)] with
    string arguments, and the same with an error as the last argument. *)
Inductive error :=
| NumError (num : string)
| BackendError (msg : string)
| Errorf (format : string) (args : list string)
| Wrapf (format : string) (args : list string) (cause : error).

(** What a key of the backend holds. *)
Inductive Value :=
| VString (s : string)
| VOther.

(** A key: its value and, when it expires, the seconds left. *)
Record Entry := mkEntry { value : Value; expire : option Z }.

Inductive Command :=
| MULTI
| GET (key : string)
| TTL (key : string)
| EXEC
| SET_EX (key : string) (value : Z) (seconds : Z).

Inductive Reply :=
| ReplyNil
| ReplyBulk (b : string)
| ReplyInt (n : Z)
| ReplyError (msg : string).

(** A connection: [failure] is the error every command on a dead link
    returns, [db] the keys of the backend, [queue] the commands of the
    open transaction, [sent] every command handed to the connection. *)
Record Conn := mkConn
  { failure : option string;
    db : gmap string Entry;
    queue : list Command;
    sent : list Command }.

(** A Go call: it returns [a] and leaves the connection [conn], or it
    panics; [OutOfFuel] belongs to the model only. *)
Inductive Outcome (A : Type) :=
| Return (a : A) (conn : Conn)
| Panic (msg : string)
| OutOfFuel.
Arguments Return {A} a conn.
Arguments Panic {A} msg.
Arguments OutOfFuel {A}.

Definition indexOutOfRange : string := "runtime error: index out of range".

(** The decimal text of an unsigned number. *)
Definition decimal (n : Z) : string :=
  NilZero.string_of_uint (N.to_uint (Z.to_N n)).

(** The backend's reply to a read. *)
Definition reply (db : gmap string Entry) (cmd : Command) : Reply :=
  match cmd with
  | GET key =>
      match db !! key with
      | None => ReplyNil
      | Some (mkEntry (VString s) _) => ReplyBulk s
      | Some (mkEntry VOther _) =>
          ReplyError "WRONGTYPE Operation against a key holding the wrong kind of value"
      end
  | TTL key =>
      match db !! key with
      | None => ReplyInt (-2)
      | Some (mkEntry _ None) => ReplyInt (-1)
      | Some (mkEntry _ (Some seconds)) => ReplyInt seconds
      end
  | _ => ReplyNil
  end.

(** [conn.Send(cmd)] inside a transaction. *)
Definition Send (conn : Conn) (cmd : Command) : option error * Conn :=
  match failure conn with
  | Some e => (Some (BackendError e), conn)
  | None =>
      (None,
       mkConn None (db conn)
         (match cmd with MULTI => [] | _ => queue conn ++ [cmd] end)%list
         (sent conn ++ [cmd])%list)
  end.

(** [redisCon.Values(conn.Do("EXEC"))]. *)
Definition Do_EXEC (conn : Conn) : (list Reply + error) * Conn :=
  match failure conn with
  | Some e => (inr (BackendError e), conn)
  | None =>
      (inl (map (reply (db conn)) (queue conn)),
       mkConn None (db conn) [] (sent conn ++ [EXEC])%list)
  end.

(** [conn.Do("SET", key, value, "EX", seconds)]; the backend refuses an
    expiry that is not positive. *)
Definition Do_SET_EX (conn : Conn) (key : string) (val seconds : Z)
    : option error * Conn :=
  match failure conn with
  | Some e => (Some (BackendError e), conn)
  | None =>
      let sent' := (sent conn ++ [SET_EX key val seconds])%list in
      if seconds <=? 0 then
        (Some (BackendError "ERR invalid expire time in 'set' command"),
         mkConn None (db conn) (queue conn) sent')
      else
        (None,
         mkConn None
           (<[key := mkEntry (VString (decimal val)) (Some seconds)]> (db conn))
           (queue conn) sent')
  end.

(** [redisCon.Scan(values, &rData, &remainingTtl)] with [rData == ""]
    and [remainingTtl == 0] before the call. *)
Definition Scan (values : list Reply) : (string * Z) + error :=
  match values with
  | v0 :: v1 :: _ =>
      let rData :=
        match v0 with
        | ReplyNil => inl ""
        | ReplyBulk b => inl b
        | ReplyInt n => inl (if n <? 0 then "-" ++ decimal (- n) else decimal n)
        | ReplyError msg => inr (BackendError msg)
        end in
      match rData with
      | inr e => inr e
      | inl rData =>
          match v1 with
          | ReplyNil => inl (rData, 0)
          | ReplyInt n => inl (rData, n)
          | ReplyBulk b =>
              match Strconv.Atoi b with
              | Some n => inl (rData, n)
              | None => inr (NumError b)
              end
          | ReplyError msg => inr (BackendError msg)
          end
      end
  | _ => inr (BackendError "redigo.Scan: array short")
  end.

(** The [Redis] struct, without the settings of the link. *)
Record Redis := mkRedis
  { Zone : string; keyPrefix : string; keySuffix : string }.

(** [Key]: the given key with the prefix. *)
Definition Key (redis : Redis) (zoneName : string) : string :=
  keyPrefix redis ++ zoneName.

(** The three results [(answers, extras, err)] of the parsers. *)
Definition Results : Type := list dns.RR * list dns.RR * option error.

Section Body.

(** [net.ParseIP]. *)
Variable ParseIP : string -> dns.IP.

Variable redis : Redis.

(** The call of [LoadZoneRecords] from [getAdditionalRecords]. *)
Variable LoadZoneRecords_rec : string -> string -> Conn -> Outcome Results.

Definition parseA (ips : list string) (recordName : string)
    (header : dns.RR_Header) : list dns.RR :=
  fold_left (fun answers ip =>
      let header := dns.mkHeader recordName dns.TypeA
                      (dns.Class header) (dns.Ttl header) in
      (answers ++ [dns.mkRR header (dns.A (ParseIP ip))])%list)
    ips [].

Definition getAdditionalRecords (recordName : string) (conn : Conn)
    : Outcome (list dns.RR * option error) :=
  match LoadZoneRecords_rec "A" recordName conn with
  | Return (answers, extras, err) conn' =>
      match err with
      | None =>
          if (0 <? length extras)%nat then
            Return (answers,
                    Some (Errorf "unexpected additional resources for A/%s"
                            [recordName])) conn'
          else Return (answers, None) conn'
      | Some _ => Return (answers, err) conn'
      end
  | Panic msg => Panic msg
  | OutOfFuel => OutOfFuel
  end.

(** The [for _, host := range hosts] loop of [parseNS]. *)
Fixpoint parseNS_range (hosts : list string) (zoneName : string)
    (header : dns.RR_Header) (answers extras : list dns.RR) (conn : Conn)
    : Outcome Results :=
  match hosts with
  | [] => Return (answers, extras, None) conn
  | host :: hosts' =>
      let header := dns.mkHeader zoneName dns.TypeNS
                      (dns.Class header) (dns.Ttl header) in
      if negb (dns.IsFqdn host) then
        Return (answers, extras,
                Some (Errorf "host %s musr be fully qualified" [host])) conn
      else
        let answers := (answers ++ [dns.mkRR header (dns.NS host)])%list in
        match getAdditionalRecords host conn with
        | Return (additional, Some err) conn' =>
            Return (answers, extras, Some err) conn'
        | Return (additional, None) conn' =>
            parseNS_range hosts' zoneName header answers
              (extras ++ additional)%list conn'
        | Panic msg => Panic msg
        | OutOfFuel => OutOfFuel
        end
  end.

Definition parseNS (hosts : list string) (zoneName : string)
    (header : dns.RR_Header) (conn : Conn) : Outcome Results :=
  parseNS_range hosts zoneName header [] [] conn.

(** [fields[i]], which panics out of range. *)
Definition index (fields : list string) (i : nat)
    (k : string -> Outcome Results) : Outcome Results :=
  match nth_error fields i with
  | Some f => k f
  | None => Panic indexOutOfRange
  end.

(** [if x, err = strconv.Atoi(fields[i]); err != nil { return }]. *)
Definition atoiField (fields : list string) (i : nat) (conn : Conn)
    (k : Z -> Outcome Results) : Outcome Results :=
  index fields i (fun f =>
    match Strconv.Atoi f with
    | None => Return ([], [], Some (NumError f)) conn
    | Some x => k x
    end).

Definition parseSOA (fields : list string) (zoneName : string)
    (header : dns.RR_Header) (conn : Conn) : Outcome Results :=
  let header := dns.mkHeader zoneName dns.TypeSOA
                  (dns.Class header) (dns.Ttl header) in
  index fields 0 (fun Ns =>
  index fields 1 (fun Mbox =>
  let Mbox := if negb (dns.IsFqdn Mbox) then Mbox ++ "." ++ zoneName else Mbox in
  atoiField fields 2 conn (fun x =>
  let Serial := Strconv.uint32 x in
  atoiField fields 3 conn (fun x =>
  let Refresh := Strconv.uint32 x in
  atoiField fields 4 conn (fun x =>
  let Retry := Strconv.uint32 x in
  atoiField fields 5 conn (fun x =>
  let Expire := Strconv.uint32 x in
  atoiField fields 6 conn (fun x =>
  let Minttl := Strconv.uint32 x in
  let r := dns.mkRR header
             (dns.SOA Ns Mbox Serial Refresh Retry Expire Minttl) in
  index fields 0 (fun f0 =>
  match getAdditionalRecords f0 conn with
  | Return (additional, Some err) conn' => Return ([], [], Some err) conn'
  | Return (additional, None) conn' => Return ([r], additional, None) conn'
  | Panic msg => Panic msg
  | OutOfFuel => OutOfFuel
  end)))))))).

Definition parseRecordValuesFromString (recordType recordName rData : string)
    (conn : Conn) : Outcome Results :=
  let fields := Fields rData in
  if (length fields <? 4)%nat then
    Return ([], [],
            Some (Errorf "error parsing RData for %s/%s: invalid number of elements"
                    [recordType; recordName])) conn
  else
    index fields 2 (fun f2 =>
    if negb (String.eqb recordType f2) then
      Return ([], [],
              Some (Errorf "error: mismatch record type for %s: %s != %s"
                      [recordName; recordType; f2])) conn
    else
      index fields 0 (fun f0 =>
      match Strconv.Atoi f0 with
      | None =>
          Return ([], [],
                  Some (Wrapf "error parsing TTL literal '%s': %s"
                          [f0] (NumError f0))) conn
      | Some ttl =>
          let header := dns.mkHeader "" 0 dns.ClassINET (Strconv.uint32 ttl) in
          if String.eqb recordType "A" then
            Return (parseA (skipn 3 fields) recordName header, [], None) conn
          else if String.eqb recordType "NS" then
            parseNS (skipn 3 fields) recordName header conn
          else if String.eqb recordType "SOA" then
            parseSOA (skipn 3 fields) recordName header conn
          else
            Return ([], [],
                    Some (Errorf "unknown record type %s" [recordType])) conn
      end)).

Definition LoadZoneRecords_body (recordType recordName : string) (conn : Conn)
    : Outcome Results :=
  let keyName := recordType ++ "/" ++ recordName in
  let ttlKeyName := keyName ++ ":ttl" in
  match Send conn MULTI with
  | (Some err, conn) => Return ([], [], Some err) conn
  | (None, conn) =>
  match Send conn (GET (Key redis keyName)) with
  | (Some err, conn) => Return ([], [], Some err) conn
  | (None, conn) =>
  match Send conn (TTL (Key redis ttlKeyName)) with
  | (Some err, conn) => Return ([], [], Some err) conn
  | (None, conn) =>
  match Do_EXEC conn with
  | (inr err, conn) => Return ([], [], Some err) conn
  | (inl values, conn) =>
  match Scan values with
  | inr err => Return ([], [], Some err) conn
  | inl (rData, remainingTtl) =>
      if String.eqb rData "" then
        Return ([], [], Some (Errorf "no RData for %s" [keyName])) conn
      else
        match parseRecordValuesFromString recordType recordName rData conn with
        | Return (answers, extras, Some err) conn => Return (answers, extras, Some err) conn
        | Return (answers, extras, None) conn =>
            if remainingTtl =? -2 then
              match answers with
              | [] => Panic indexOutOfRange
              | first :: _ =>
                  let newTtl := dns.Ttl (dns.Hdr first) in
                  match Do_SET_EX conn (Key redis ttlKeyName) newTtl newTtl with
                  | (Some err, conn) =>
                      Return (answers, extras,
                              Some (Wrapf "error configuring TTL for %s: %s"
                                      [keyName] err)) conn
                  | (None, conn) => Return (answers, extras, None) conn
                  end
              end
            else
              Return (map (dns.setTtl (Strconv.uint32 remainingTtl)) answers,
                      extras, None) conn
        | Panic msg => Panic msg
        | OutOfFuel => OutOfFuel
        end
  end end end end end.

End Body.

(** [LoadZoneRecords] with at most [fuel] nested calls. *)
Fixpoint LoadZoneRecords_fuel (ParseIP : string -> dns.IP) (redis : Redis)
    (fuel : nat) (recordType recordName : string) (conn : Conn)
    : Outcome Results :=
  match fuel with
  | O => OutOfFuel
  | S fuel' =>
      LoadZoneRecords_body ParseIP redis (LoadZoneRecords_fuel ParseIP redis fuel')
        recordType recordName conn
  end.

(** A call for NS or SOA makes calls for A, which make none: two levels
    are all there is. *)
Definition LoadZoneRecords (ParseIP : string -> dns.IP) (redis : Redis)
    : string -> string -> Conn -> Outcome Results :=
  LoadZoneRecords_fuel ParseIP redis 2.

(** *** Listing the zone names *)

(** A key matches the pattern [prefix*suffix], for a prefix and a suffix
    without the metacharacters of the backend's patterns. *)
Definition matches (prefix suffix key : string) : bool :=
  (String.length prefix + String.length suffix <=? String.length key)%nat
  && HasPrefix key prefix && HasSuffix key suffix.

(** [redisCon.Strings(conn.Do("KEYS", prefix + "*" + suffix))]: the keys
    that match, in no particular order. *)
Definition Do_KEYS (conn : Conn) (prefix suffix : string) : list string + error :=
  match failure conn with
  | Some e => inr (BackendError e)
  | None => inl (filter (fun key => matches prefix suffix key = true)
                   (elements (dom (db conn))))
  end.

(** [LoadAllZoneNames] on the connection the pool hands out. *)
Definition LoadAllZoneNames (redis : Redis) (conn : Conn) : list string + error :=
  match Do_KEYS conn (keyPrefix redis) (keySuffix redis) with
  | inr err => inr err
  | inl zones =>
      inl (map (fun zone =>
                  let zone := TrimPrefix zone (keyPrefix redis) in
                  TrimSuffix zone (keySuffix redis))
             zones)
  end.

End Rows.

(** ** Vocabulary of the properties of the aggregated layout *)

Module HashSpec.

Import Strings Hash.

(** The test the code makes of a closest encloser. *)
Definition ceExists (ce : string) (z : Zone) : bool :=
  keyMatches ce z || keyExists ce z.

(** In the words of the specification: a closest encloser [ce] is
    considered to exist in [z] if it is present verbatim in the locations, or
    if a location has [ce] as a suffix, that is, is some characters followed
    by the characters of [ce], at a label boundary or not. *)
Definition exists_in (z : Zone) (ce : string) : Prop :=
  ce ∈ Locations z
  \/ exists location lead : string,
       location ∈ Locations z /\ location = (lead ++ ce)%string.

(** [Encloser z q ce ss]: peeling labels off [q], [ce] is the first
    remainder that exists in [z], and [ss] its source of synthesis. *)
Inductive Encloser (z : Zone) : string -> string -> string -> Prop :=
| Encloser_here q ce ss :
    splitQuery q = (ce, ss, true) -> exists_in z ce ->
    Encloser z q ce ss
| Encloser_peel q ce' ss' ce ss :
    splitQuery q = (ce', ss', true) -> ~ exists_in z ce' ->
    Encloser z ce' ce ss ->
    Encloser z q ce ss.

(** The header TTL of [rr] is what the TTL policy makes of the TTL
    [stored] in the entry the record was made from: it is never zero, and it
    is 360 when the stored TTL and the zone ceiling are both zero. *)
Definition policy_ttl (redis : Redis) (stored : Z) (rr : dns.RR) : Prop :=
  dns.Ttl (dns.Hdr rr) = minTtl redis stored
  /\ dns.Ttl (dns.Hdr rr) <> 0
  /\ (stored = 0 -> Ttl redis = 0 -> dns.Ttl (dns.Hdr rr) = 360).

(** The TTLs stored in the address and alias entries of a record. *)
Definition address_ttls (record : Rec.t) : list Z :=
  (map A_Record.Ttl (Rec.A record) ++ map AAAA_Record.Ttl (Rec.AAAA record)
   ++ map CNAME_Record.Ttl (Rec.CNAME record))%list.

Definition short (chunk : string) : Prop := (String.length chunk <= 255)%nat.

(** The key of the zone's hash. *)
Definition redisKey (redis : Redis) (zone : string) : string :=
  keyPrefix redis ++ zone ++ keySuffix redis.

(** The type of [rr] is one of [types]. *)
Definition has_type (types : list Z) (rr : dns.RR) : Prop :=
  In (dns.Rrtype (dns.Hdr rr)) types.

(** The answers of [rrs] have a type of [answerTypes], its extras the type
    of an address or of an alias. *)
Definition typed (answerTypes : list Z) (rrs : RRs) : Prop :=
  Forall (has_type answerTypes) (fst rrs)
  /\ Forall (has_type [dns.TypeA; dns.TypeAAAA; dns.TypeCNAME]) (snd rrs).

(** The types a zone transfer collects as answers. *)
Definition transferred : list Z :=
  [dns.TypeA; dns.TypeAAAA; dns.TypeCNAME; dns.TypeMX; dns.TypeSRV; dns.TypeTXT].

(** What the loop of [AXFR] has collected. *)
Definition collected (st : AXFRState) : Prop :=
  Forall (has_type [dns.TypeSOA]) (soa st)
  /\ Forall (has_type transferred) (answers st)
  /\ Forall (has_type [dns.TypeA; dns.TypeAAAA; dns.TypeCNAME]) (extras st).

(** The keys of the pages of a scan that starts at the cursor [cur], as
    far as [fuel] pages go. *)
Fixpoint scanned (fuel : nat) (conn : Conn) (cur : Z) : list string :=
  match fuel with
  | O => []
  | S fuel' =>
      match Do_SCAN conn cur with
      | inr _ => []
      | inl reply =>
          match decodeScanReply reply with
          | None => []
          | Some scanReply =>
              (keys scanReply
               ++ (if cursor scanReply =? 0 then []
                   else scanned fuel' conn (cursor scanReply)))%list
          end
      end
  end.

(** How the pages of a scan that starts at the cursor [cur] end, as far
    as [fuel] pages go: the backend hands out the cursor [0], or a SCAN or
    the decoding of its reply fails, or there are pages left. *)
Inductive PagesEnd := PagesRead | PagesFailed | PagesLeft.

Fixpoint pages_end (fuel : nat) (conn : Conn) (cur : Z) : PagesEnd :=
  match fuel with
  | O => PagesLeft
  | S fuel' =>
      match Do_SCAN conn cur with
      | inr _ => PagesFailed
      | inl reply =>
          match decodeScanReply reply with
          | None => PagesFailed
          | Some scanReply =>
              if cursor scanReply =? 0 then PagesRead
              else pages_end fuel' conn (cursor scanReply)
          end
      end
  end.

(** The elements of [l] that are not in [seen], each at its first
    occurrence. *)
Fixpoint firsts (seen : gset string) (l : list string) : list string :=
  match l with
  | [] => []
  | x :: l' =>
      if bool_decide (x ∈ seen) then firsts seen l'
      else x :: firsts ({[x]} ∪ seen) l'
  end.

(** The address is there. *)
Definition present (ip : dns.IP) : bool :=
  match ip with Some _ => true | None => false end.

(** The text is not empty. *)
Definition filled (s : string) : bool := negb (String.length s =? 0)%nat.

(** What one turn of the loop of [AXFR] adds for [key], starting from
    nothing. *)
Definition contribution (Unmarshal : string -> option Rec.t) (redis : Redis)
    (now : Z) (z : Zone) (key : string) : AXFRState :=
  AXFR_step Unmarshal redis now z (mkAXFR [] [] []) key.

(** The SOA records of the apex. *)
Definition apexSOA (Unmarshal : string -> option Rec.t) (redis : Redis)
    (now : Z) (z : Zone) : list dns.RR :=
  fst (SOA redis now (Name z) z (get Unmarshal redis (findLocation (Name z) z) z)).

End HashSpec.

(** ** Sample data for the aggregated layout *)

Module HashSamples.

Import Strings Hash.

(** The text of [n] bytes [a]. *)
Definition bytes (n : nat) (a : ascii) : string :=
  string_of_list_ascii (repeat a n).

Definition c9_record : Rec.t :=
  Rec.mk [A_Record.mk (Some [192; 0; 2; 1]) 0] [] [] [] [] [] [] []
    (SOA_Record.mk "ns1.example.com." "hostmaster.example.com." 1 2 3 4 0).

End HashSamples.

(** ** Sample data: a scan in three pages *)

Module CatalogSamples.

Import Strings Hash.

(** A backend that answers SCAN in three pages (cursors 7, 3 and 0) and
    returns each of its two keys on two pages. *)
Definition pages (cur : Z) : ScanRaw :=
  if cur =? 0 then mkScanRaw "7" [["dns:example.com.:z"]]
  else if cur =? 7 then mkScanRaw "3" [["dns:example.com.:z"; "dns:example.org.:z"]]
  else mkScanRaw "0" [["dns:example.org.:z"]].

Definition paged (prefix suffix : string) : Redis :=
  mkRedis (Some (mkConn None ∅ pages)) prefix suffix 0 [] 0 0.

End CatalogSamples.

(** ** Sample data: a zone to transfer *)

Module TransferSamples.

Import Strings Hash.

Definition apexText : string := "apex".

Definition wwwText : string := "www".

(** The apex: an address and a name server, no stored SOA data. *)
Definition apexRecord : Rec.t :=
  Rec.mk [A_Record.mk (Some [192; 0; 2; 1]) 300] [] [] []
    [NS_Record.mk "ns1.example.com." 300] [] [] []
    (SOA_Record.mk "" "" 0 0 0 0 0).

(** [www]: an address, a name server and a CAA entry. *)
Definition wwwRecord : Rec.t :=
  Rec.mk [A_Record.mk (Some [192; 0; 2; 2]) 300] [] [] []
    [NS_Record.mk "ns1.example.com." 300] [] []
    [CAA_Record.mk 0 "issue" "letsencrypt.org"]
    (SOA_Record.mk "" "" 0 0 0 0 0).

(** A decoder that knows the two stored texts. *)
Definition decode (val : string) : option Rec.t :=
  if String.eqb val apexText then Some apexRecord
  else if String.eqb val wwwText then Some wwwRecord
  else None.

Definition exampleZone : Zone := mkZone "example.com." ({["@"]} ∪ {["www"]}).

Definition exampleRedis : Redis :=
  mkRedis
    (Some (mkConn None
             {["example.com." := VHash (<["@" := apexText]> {["www" := wwwText]})]}
             (fun _ => mkScanRaw "0" [])))
    "" "" 300 [] 0 0.

End TransferSamples.

(** ** Sample data: links that fail *)

Module ErrorSamples.

Import Strings Hash.

Definition wwwText : string := "www-record".

Definition decode (val : string) : option Rec.t :=
  if String.eqb val wwwText then Some Rec.empty else None.

Definition zone : Zone := mkZone "example.com." {["www"]}.

Definition withPool (pool : option Conn) : Redis :=
  mkRedis pool "" "" 300 [] 0 0.

(** The link is dead. *)
Definition dead : Redis :=
  withPool (Some (mkConn (Some "connection refused") ∅ (fun _ => mkScanRaw "0" []))).

(** The hash has no field [www]. *)
Definition absent : Redis :=
  withPool (Some (mkConn None {["example.com." := VHash ∅]}
                    (fun _ => mkScanRaw "0" []))).

(** The field [www] holds text that does not decode. *)
Definition malformed : Redis :=
  withPool (Some (mkConn None {["example.com." := VHash {["www" := "{"]}]}
                    (fun _ => mkScanRaw "0" []))).

(** The key holds a string, so HSET is refused. *)
Definition wrongType : Redis :=
  withPool (Some (mkConn None {["example.com." := VString "x"]}
                    (fun _ => mkScanRaw "0" []))).

End ErrorSamples.

(** ** Vocabulary of the properties of the text rows *)

Module RowsSpec.

Import Strings Rows.

(** A call leaves the state of the link alone. *)
Definition keeps_link {A : Type} (f : Conn -> Outcome A) : Prop :=
  forall conn a conn', f conn = Return a conn' -> failure conn' = failure conn.

Definition ends {A : Type} (o : Outcome A) : Prop := o <> OutOfFuel.

(** A command that is no SET, or a SET of the TTL key of a row of
    type A. *)
Definition glue_command (redis : Redis) (cmd : Command) : Prop :=
  match cmd with
  | SET_EX key _ _ => exists name, key = Key redis (("A" ++ "/" ++ name) ++ ":ttl")
  | _ => True
  end.

(** [conn'] has been sent what [conn] has, then glue commands only. *)
Definition extends (redis : Redis) (conn conn' : Conn) : Prop :=
  exists added, sent conn' = (sent conn ++ added)%list /\ Forall (glue_command redis) added.

(** The connection once the transaction of [LoadZoneRecords] has been
    run. *)
Definition afterExec (conn : Conn) (dataKey ttlKey : string) : Conn :=
  mkConn None (db conn) []
    ((((sent conn ++ [MULTI]) ++ [GET dataKey]) ++ [TTL ttlKey]) ++ [EXEC])%list.

(** The fields of [fields] from [i] on that are there are numbers. *)
Definition numeric_from (i : nat) (fields : list string) : Prop :=
  forall j f, (i <= j)%nat -> nth_error fields j = Some f -> Strconv.Atoi f <> None.

(** The number the backend answers TTL with for [ttlKey]. *)
Definition remaining (db : gmap string Entry) (ttlKey : string) : Z :=
  match db !! ttlKey with
  | None => -2
  | Some (mkEntry _ None) => -1
  | Some (mkEntry _ (Some seconds)) => seconds
  end.

(** What [LoadZoneRecords] does with a row once it has been parsed. *)
Definition settle (redis : Redis) (keyName : string) (remainingTtl : Z)
    (parsed : Outcome Results) : Outcome Results :=
  match parsed with
  | Return (answers, extras, Some err) conn => Return (answers, extras, Some err) conn
  | Return (answers, extras, None) conn =>
      if remainingTtl =? -2 then
        match answers with
        | [] => Panic indexOutOfRange
        | first :: _ =>
            let newTtl := dns.Ttl (dns.Hdr first) in
            match Do_SET_EX conn (Key redis (keyName ++ ":ttl")) newTtl newTtl with
            | (Some err, conn) =>
                Return (answers, extras,
                        Some (Wrapf "error configuring TTL for %s: %s" [keyName] err))
                  conn
            | (None, conn) => Return (answers, extras, None) conn
            end
        end
      else
        Return (map (dns.setTtl (Strconv.uint32 remainingTtl)) answers, extras, None)
          conn
  | Panic msg => Panic msg
  | OutOfFuel => OutOfFuel
  end.

(** [conn'] holds what [conn] holds, but for keys that end in [:ttl],
    which may hold a number that expires after as many seconds. *)
Definition ttl_writes (conn conn' : Conn) : Prop :=
  forall key,
    db conn' !! key = db conn !! key
    \/ (HasSuffix key ":ttl" = true
        /\ exists n, 0 < n /\ db conn' !! key = Some (mkEntry (VString (decimal n)) (Some n))).

(** The type code of the rows that [parseRecordValuesFromString]
    knows. *)
Definition code (recordType : string) : Z :=
  if String.eqb recordType "A" then dns.TypeA
  else if String.eqb recordType "NS" then dns.TypeNS
  else dns.TypeSOA.

(** The field [i] of [fields] is there and is the number [x]. *)
Definition field_number (fields : list string) (i : nat) (x : Z) : Prop :=
  exists f, nth_error fields i = Some f /\ Strconv.Atoi f = Some x.

(** A set of records of one name, type and TTL in class IN. *)
Definition rrset (name : string) (rrtype : Z) (rrs : list dns.RR) : Prop :=
  rrs <> []
  /\ exists ttl, 0 <= ttl < 2 ^ 32
                 /\ Forall (fun rr => dns.Hdr rr = dns.mkHeader name rrtype dns.ClassINET ttl)
                      rrs.

End RowsSpec.

(** ** Sample data for the text rows *)

Module RowsSamples.

Import Strings Rows.

Definition exampleIP (ip : string) : dns.IP :=
  if String.eqb ip "192.0.2.1" then Some [192; 0; 2; 1] else None.

Definition exampleRedis : Redis := mkRedis "example.com." "dns:" "".

Definition exampleRow : Entry := mkEntry (VString "300 IN A 192.0.2.1") None.

(** A backend that holds the row and no TTL key. *)
Definition fresh : Conn :=
  mkConn None {["dns:A/www.example.com." := exampleRow]} [] [].

(** The same backend 180 seconds after the TTL key was written. *)
Definition decayed : Conn :=
  mkConn None
    (<["dns:A/www.example.com.:ttl" := mkEntry (VString "300") (Some 120)]>
       {["dns:A/www.example.com." := exampleRow]}) [] [].

Definition exampleAnswer : dns.RR :=
  dns.mkRR (dns.mkHeader "www.example.com." dns.TypeA dns.ClassINET 300)
    (dns.A (Some [192; 0; 2; 1])).

Definition shortRow : string :=
  "300 IN SOA ns1.example.com. hostmaster.example.com. 1 7200".

(** A backend that holds an NS row with its TTL key, 120 seconds from
    expiry, and the address row of the name server, without a TTL key. *)
Definition delegated : Conn :=
  mkConn None
    (<["dns:NS/example.com.:ttl" := mkEntry (VString "300") (Some 120)]>
       (<["dns:NS/example.com." := mkEntry (VString "300 IN NS ns1.example.com.") None]>
          {["dns:A/ns1.example.com." := exampleRow]})) [] [].

(** The backend of [fresh] with a TTL key that has 2^32 + 120 seconds
    left. *)
Definition longLived : Conn :=
  mkConn None
    (<["dns:A/www.example.com.:ttl" := mkEntry (VString "300") (Some 4294967416)]>
       {["dns:A/www.example.com." := exampleRow]}) [] [].

(** A backend whose row has the TTL 0. *)
Definition zeroRow : Conn :=
  mkConn None {["dns:A/www.example.com." := mkEntry (VString "0 IN A 192.0.2.1") None]}
    [] [].

End RowsSamples.

(** ** Facts about the string functions *)

Module StringFacts.

Import Strings.

Lemma append_cons a (s t : string) : (String a s ++ t)%string = String a (s ++ t).
Proof. reflexivity. Qed.

Lemma append_nil (t : string) : ("" ++ t)%string = t.
Proof. reflexivity. Qed.

Lemma length_drop n s :
  String.length (drop n s) = (String.length s - n)%nat.
Proof.
  revert s; induction n as [|n IH]; intros [|a s]; simpl; auto.
Qed.

Lemma take_drop n s : (take n s ++ drop n s)%string = s.
Proof.
  revert s; induction n as [|n IH]; intros [|a s]; simpl; auto.
  now rewrite append_cons, IH.
Qed.

Lemma length_take n s :
  String.length (take n s) = Nat.min n (String.length s).
Proof.
  revert s; induction n as [|n IH]; intros [|a s]; simpl; auto.
Qed.

Lemma length_append (s t : string) :
  String.length (s ++ t) = (String.length s + String.length t)%nat.
Proof.
  induction s as [|a s IH]; [reflexivity|].
  rewrite append_cons; simpl; now rewrite IH.
Qed.

Lemma drop_append s t : drop (String.length s) (s ++ t) = t.
Proof.
  induction s as [|a s IH]; [reflexivity|].
  rewrite append_cons; simpl; exact IH.
Qed.

Lemma take_append s t : take (String.length s) (s ++ t) = s.
Proof.
  induction s as [|a s IH]; [reflexivity|].
  rewrite append_cons; simpl; now rewrite IH.
Qed.

Lemma HasSuffix_append s t : HasSuffix (s ++ t) t = true.
Proof.
  unfold HasSuffix. rewrite length_append.
  replace (String.length s + String.length t - String.length t)%nat
    with (String.length s) by lia.
  rewrite drop_append, String.eqb_refl.
  apply andb_true_iff; split; auto. apply Nat.leb_le; lia.
Qed.

Lemma HasSuffix_iff s t :
  HasSuffix s t = true <-> exists lead : string, s = (lead ++ t)%string.
Proof.
  split.
  - unfold HasSuffix. intros H. apply andb_true_iff in H. destruct H as [_ H].
    apply String.eqb_eq in H.
    set (n := (String.length s - String.length t)%nat) in *.
    exists (take n s). pose proof (take_drop n s) as E. rewrite H in E.
    now symmetry.
  - intros (lead & ->). apply HasSuffix_append.
Qed.

Lemma TrimSuffix_append s t : TrimSuffix (s ++ t) t = s.
Proof.
  unfold TrimSuffix. rewrite HasSuffix_append, length_append.
  replace (String.length s + String.length t - String.length t)%nat
    with (String.length s) by lia.
  apply take_append.
Qed.

Lemma length_TrimSuffix s t :
  (String.length (TrimSuffix s t) <= String.length s)%nat.
Proof.
  unfold TrimSuffix. destruct (HasSuffix s t); [|lia].
  rewrite length_take. lia.
Qed.

(** The second piece of a split is strictly shorter than the input. *)
Lemma SplitAfterN2_shorter s sep h t :
  SplitAfterN2 s sep = [h; t] -> (String.length t < String.length s)%nat.
Proof.
  revert h t; induction s as [|a s IH]; simpl; intros h t H; [discriminate|].
  destruct (Ascii.eqb a sep).
  - injection H as _ <-. lia.
  - destruct (SplitAfterN2 s sep) as [|h' [|t' [|? ?]]] eqn:E; try discriminate.
    injection H as _ <-. specialize (IH _ _ eq_refl). simpl; lia.
Qed.

End StringFacts.


(** ** The TTL policy of the aggregated layout *)

Module TtlFacts.

Import Hash.

Lemma minTtl_cases (redis : Redis) (ttl : Z) :
  minTtl redis ttl =
    if Z.eq_dec (Ttl redis) 0
    then (if Z.eq_dec ttl 0 then defaultTtl else ttl)
    else (if Z.eq_dec ttl 0 then Ttl redis else Z.min (Ttl redis) ttl).
Proof.
  unfold minTtl.
  destruct (Z.eq_dec (Ttl redis) 0) as [Hz|Hz], (Z.eq_dec ttl 0) as [Hr|Hr].
  - rewrite Hz, Hr. reflexivity.
  - rewrite Hz. simpl. apply Z.eqb_neq in Hr. now rewrite Hr.
  - apply Z.eqb_neq in Hz. rewrite Hz, Hr. reflexivity.
  - apply Z.eqb_neq in Hz, Hr. rewrite Hz, Hr. simpl.
    destruct (Z.ltb_spec (Ttl redis) ttl); lia.
Qed.

Lemma minTtl_nonzero (redis : Redis) (ttl : Z) : minTtl redis ttl <> 0.
Proof.
  rewrite minTtl_cases. unfold defaultTtl.
  destruct (Z.eq_dec (Ttl redis) 0), (Z.eq_dec ttl 0); lia.
Qed.

(** C5. The effective TTL of a record with TTL [r] under the zone ceiling
    [Ttl redis] is the smaller of the two when both are set, the one that is
    set when only one is, and 360 when neither is; a record TTL of 50 under
    a ceiling of 30 gives 30, and 0 under 0 gives 360. *)
Theorem minTtl_effective :
  (forall (redis : Redis) (r : Z),
      (Ttl redis <> 0 -> r <> 0 -> minTtl redis r = Z.min (Ttl redis) r)
      /\ (Ttl redis <> 0 -> r = 0 -> minTtl redis r = Ttl redis)
      /\ (Ttl redis = 0 -> r <> 0 -> minTtl redis r = r)
      /\ (Ttl redis = 0 -> r = 0 -> minTtl redis r = 360))
  /\ (forall redis : Redis, Ttl redis = 30 -> minTtl redis 50 = 30)
  /\ (forall redis : Redis, Ttl redis = 0 -> minTtl redis 0 = 360).
Proof.
  split; [|split].
  - intros redis r. rewrite minTtl_cases. unfold defaultTtl.
    destruct (Z.eq_dec (Ttl redis) 0), (Z.eq_dec r 0); repeat split; intros; lia.
  - intros redis H. rewrite minTtl_cases, H. reflexivity.
  - intros redis H. rewrite minTtl_cases, H. reflexivity.
Qed.

Lemma minTtl_effective_witness :
  minTtl (mkRedis None "" "" 30 [] 0 0) 50 = 30
  /\ minTtl (mkRedis None "" "" 0 [] 0 0) 0 = 360
  /\ minTtl (mkRedis None "" "" 30 [] 0 0) 50 = Z.min 30 50.
Proof.
  split; [|split].
  - apply (proj1 (proj2 minTtl_effective)). reflexivity.
  - apply (proj2 (proj2 minTtl_effective)). reflexivity.
  - apply (proj1 (proj1 minTtl_effective (mkRedis None "" "" 30 [] 0 0) 50));
      simpl; lia.
Defined.

End TtlFacts.

(** ** TTLs of the synthesized records *)

Module SynthFacts.

Import Hash HashSpec HashSamples.

(** C9 as stated fails: with no zone ceiling, the SOA record built without
    stored SOA data and every CAA record carry a header TTL of zero. *)
Lemma zero_ttl_emitted :
  let redis := mkRedis None "" "" 0 [] 0 0 in
  let z := mkZone "example.com." {["@"]} in
  let record :=
    Some (Rec.mk [] [] [] [] [] [] []
            [CAA_Record.mk 0 "issue" "letsencrypt.org"]
            (SOA_Record.mk "" "" 0 0 0 0 0)) in
  (exists rr, In rr (fst (SOA redis 1700000000 "example.com." z record))
              /\ dns.Ttl (dns.Hdr rr) = 0)
  /\ (exists rr, In rr (fst (CAA redis "example.com." z record))
                 /\ dns.Ttl (dns.Hdr rr) = 0).
Proof.
  split; eexists; (split; [left; reflexivity | reflexivity]).
Qed.

End SynthFacts.

(** ** The location resolver *)

Module LocationFacts.

Import Strings Hash HashSpec StringFacts.

Lemma splitQuery_shorter q ce ss :
  splitQuery q = (ce, ss, true) -> (String.length ce < String.length q)%nat.
Proof.
  unfold splitQuery. destruct (String.eqb_spec q "") as [->|Hq]; [discriminate|].
  destruct (SplitAfterN2 q ".") as [|h [|t [|? ?]]] eqn:E; intros H;
    injection H as <- _; try (destruct q; [congruence | simpl; lia]).
  eapply SplitAfterN2_shorter; eauto.
Qed.

Lemma splitQuery_not_ok q ce ss : splitQuery q = (ce, ss, false) -> q = "".
Proof.
  unfold splitQuery. destruct (String.eqb_spec q "") as [->|Hq]; [reflexivity|].
  destruct (SplitAfterN2 q ".") as [|h [|t [|? ?]]]; discriminate.
Qed.



(** The test of the code is the existence the specification words. *)
Lemma ceExists_spec ce z : ceExists ce z = true <-> exists_in z ce.
Proof.
  unfold ceExists, exists_in, keyMatches, keyExists.
  rewrite orb_true_iff, existsb_exists, bool_decide_eq_true. split.
  - intros [(location & Hin & Hs) | Hin]; [right | now left].
    apply list_elem_of_In, elem_of_elements in Hin.
    apply HasSuffix_iff in Hs. destruct Hs as (lead & ->). eauto.
  - intros [Hin | (location & lead & Hin & ->)]; [now right | left].
    exists (lead ++ ce)%string. split; [|apply HasSuffix_append].
    now apply list_elem_of_In, elem_of_elements.
Qed.

Lemma ceExists_not ce z : ceExists ce z = false <-> ~ exists_in z ce.
Proof.
  rewrite <- ceExists_spec. destruct (ceExists ce z); split; congruence.
Qed.

Lemma Encloser_exists z q ce ss : Encloser z q ce ss -> exists_in z ce.
Proof. induction 1; auto. Qed.


(** What the loop returns when it starts at the split of [q]. *)
Lemma findLocation_loop_spec z fuel q ce ss :
  splitQuery q = (ce, ss, true) -> (String.length ce < fuel)%nat ->
  (exists ce' ss', Encloser z q ce' ss'
     /\ findLocation_loop fuel z ce ss true
        = Some (if keyExists ss' z then ss' else ""))
  \/ ((forall ce' ss', ~ Encloser z q ce' ss')
      /\ findLocation_loop fuel z ce ss true = Some "").
Proof.
  revert q ce ss. induction fuel as [|fuel IH]; intros q ce ss Hs Hlen; [lia|].
  simpl. fold (ceExists ce z).
  destruct (ceExists ce z) eqn:He.
  - apply ceExists_spec in He.
    left. exists ce, ss. split; [now apply Encloser_here|].
    destruct (keyExists ss z); reflexivity.
  - apply ceExists_not in He.
    destruct (splitQuery ce) as [[ce1 ss1] ok1] eqn:Hs1. destruct ok1.
    + pose proof (splitQuery_shorter _ _ _ Hs1) as Hlt.
      destruct (IH ce ce1 ss1 Hs1 ltac:(lia)) as [(ce' & ss' & HE & Hr) | [HN Hr]].
      * left. exists ce', ss'. split; [eapply Encloser_peel; eauto | exact Hr].
      * right. split; [|exact Hr].
        intros ce' ss' HE. inversion HE; subst.
        -- congruence.
        -- assert (ce'0 = ce) by congruence. subst. eapply HN; eauto.
    + right. split; [|destruct fuel; reflexivity].
      intros ce' ss' HE. inversion HE; subst.
      * congruence.
      * assert (ce'0 = ce) by congruence. subst.
        apply splitQuery_not_ok in Hs1. subst.
        match goal with H : Encloser _ "" _ _ |- _ => inversion H end;
          subst; discriminate.
Qed.

(** The fuel [findLocation] gives the loop is enough: it always returns. *)
Lemma findLocation_opt_total query z :
  exists location, findLocation_opt query z = Some location.
Proof.
  unfold findLocation_opt, findLocation_fuel.
  destruct (String.eqb query (Name z)); [eauto|].
  destruct (bool_decide _); [eauto|].
  destruct (splitQuery (TrimSuffix query ("." ++ Name z))) as [[ce ss] ok] eqn:Hs.
  destruct ok; [|simpl; eauto].
  pose proof (splitQuery_shorter _ _ _ Hs) as Hlt.
  pose proof (length_TrimSuffix query ("." ++ Name z)) as Hle.
  destruct (findLocation_loop_spec z (S (String.length query)) _ ce ss Hs ltac:(lia))
    as [(ce' & ss' & _ & Hr) | [_ Hr]]; rewrite Hr; eauto.
Qed.

Lemma findLocation_Some query z location :
  findLocation_opt query z = Some location -> findLocation query z = location.
Proof. unfold findLocation. now intros ->. Qed.

(** A query made of a relative name, a dot and the zone name is resolved
    on the relative name. *)
Lemma findLocation_relative rel name locs :
  findLocation_opt (rel ++ "." ++ name) (mkZone name locs)
  = if bool_decide (rel ∈ locs) then Some rel
    else let '(ce, ss, ok) := splitQuery rel in
         findLocation_loop (S (String.length (rel ++ "." ++ name)))
           (mkZone name locs) ce ss ok.
Proof.
  unfold findLocation_opt, findLocation_fuel. simpl Name. simpl Locations.
  assert (Hne : String.eqb (rel ++ "." ++ name) name = false).
  { apply String.eqb_neq. intros E. apply (f_equal String.length) in E.
    rewrite !length_append in E. simpl in E. lia. }
  rewrite Hne, TrimSuffix_append. reflexivity.
Qed.



(** C2, as amended. For a query equal to the zone name the resolver
    returns the query itself, that is the zone name; [get] turns a key equal
    to the zone name into the hash field [@], so what it reads for the
    resolver's answer is the apex record. *)
Theorem findLocation_apex :
  forall (Unmarshal : string -> option Rec.t) (redis : Redis) (z : Zone),
    findLocation (Name z) z = Name z
    /\ label (findLocation (Name z) z) z = "@"
    /\ get Unmarshal redis (findLocation (Name z) z) z = get Unmarshal redis "@" z.
Proof.
  intros Unmarshal redis z.
  assert (H : findLocation (Name z) z = Name z).
  { apply findLocation_Some. unfold findLocation_opt, findLocation_fuel.
    now rewrite String.eqb_refl. }
  rewrite H.
  assert (Hl : label (Name z) z = "@") by (unfold label; now rewrite String.eqb_refl).
  assert (Hl' : label "@" z = "@") by (unfold label; now destruct (String.eqb _ _)).
  repeat split; auto.
  unfold get. now rewrite Hl, Hl'.
Qed.

(** C2 as stated fails: the resolver's answer for the apex of
    [example.com.] is the zone name, not [@]. *)
Lemma findLocation_apex_not_at :
  findLocation "example.com." (mkZone "example.com." {["@"]}) <> "@".
Proof. vm_compute. discriminate. Qed.

End LocationFacts.

(** ** TXT chunking *)

Module ChunkFacts.

Import Strings Hash HashSpec HashSamples StringFacts.

Lemma drop_drop n m s : drop n (drop m s) = drop (m + n) s.
Proof.
  revert s; induction m as [|m IH]; intros s; simpl; [reflexivity|].
  destruct s as [|a s]; [destruct n; reflexivity | apply IH].
Qed.

Lemma concat_app (l k : list string) :
  String.concat "" (l ++ k) = (String.concat "" l ++ String.concat "" k)%string.
Proof.
  induction l as [|x l IH]; [reflexivity|].
  destruct l as [|y l].
  - simpl. destruct k as [|z k]; simpl.
    + clear. induction x as [|a x IHx]; [reflexivity|].
      rewrite append_cons. now rewrite <- IHx.
    + reflexivity.
  - change (String.concat "" ((x :: y :: l) ++ k))
      with (x ++ "" ++ String.concat "" ((y :: l) ++ k))%string.
    rewrite IH.
    change (String.concat "" (x :: y :: l))
      with (x ++ "" ++ String.concat "" (y :: l))%string.
    rewrite !append_nil. clear.
    induction x as [|a x IHx]; [reflexivity|].
    rewrite !append_cons. now rewrite IHx.
Qed.

(** The loop of [split255] from offset [p]: it ends within the fuel, and
    what it adds to [sx] are chunks of at most 255 bytes that make up
    [s[p:]]. *)
Lemma split255_loop_spec fuel s p sx :
  (p <= String.length s)%nat -> (String.length s - p < fuel * 255)%nat ->
  exists chunks,
    split255_loop fuel s p (p + 255) sx = Some (sx ++ chunks)%list
    /\ String.concat "" chunks = drop p s
    /\ Forall short chunks.
Proof.
  revert p sx. induction fuel as [|fuel IH]; intros p sx Hp Hfuel; [lia|].
  simpl. destruct (Nat.leb_spec (p + 255) (String.length s)) as [Hle|Hgt].
  - destruct (IH (p + 255)%nat (sx ++ [take (p + 255 - p) (drop p s)])%list)
      as (chunks & Hr & Hc & Hs); [lia | lia |].
    exists (take 255 (drop p s) :: chunks). split; [|split].
    + rewrite Hr. replace (p + 255 - p)%nat with 255%nat by lia.
      now rewrite <- app_assoc.
    + change (take 255 (drop p s) :: chunks)
        with ([take 255 (drop p s)] ++ chunks)%list.
      rewrite concat_app, Hc.
      change (String.concat "" [take 255 (drop p s)]) with (take 255 (drop p s)).
      rewrite <- drop_drop. apply take_drop.
    + constructor; [|exact Hs]. unfold short. rewrite length_take. lia.
  - exists [drop p s]. split; [reflexivity | split; [reflexivity|]].
    constructor; [|constructor]. unfold short. rewrite length_drop. lia.
Qed.

(** What holds of [split255] for every text: it returns, the chunks make
    up the text, and none is longer than 255 bytes. *)
Lemma split255_chunks (s : string) :
  split255_opt s = Some (split255 s)
  /\ String.concat "" (split255 s) = s
  /\ Forall short (split255 s).
Proof.
  unfold split255, split255_opt.
  destruct (Nat.ltb_spec (String.length s) 255) as [Hlt|Hge].
  - split; [reflexivity | split; [reflexivity|]].
    constructor; [unfold short; lia | constructor].
  - destruct (split255_loop_spec (S (String.length s)) s 0 []) as (chunks & Hr & Hc & Hs);
      [lia | lia |].
    change (split255_loop (S (String.length s)) s 0 255 [] = Some chunks) in Hr.
    rewrite Hr. auto.
Qed.

(** C4 at a text of 510 bytes: the code returns three chunks, two of 255
    bytes and an empty one, where the specification has exactly two. *)
Theorem split255_510_bytes :
  split255 (bytes 510 "a") = [bytes 255 "a"; bytes 255 "a"; ""]
  /\ length (split255 (bytes 510 "a")) = 3%nat.
Proof. split; vm_compute; reflexivity. Qed.

End ChunkFacts.

(** ** Zone enumeration *)

Module CatalogFacts.

Import Strings Hash CatalogSamples.

(** C6 at the prefix [dns:], the suffix [:z] and these three pages: the
    zone list keeps the suffix on every name and holds each zone twice, where
    the specification has the suffix stripped and every zone once. *)
Theorem LoadZones_prefixed_pages :
  Zones <$> LoadZones 3 1700000000 (paged "dns:" ":z")
  = Some ["example.com.:z"; "example.com.:z"; "example.org.:z"; "example.org.:z"].
Proof. vm_compute. reflexivity. Qed.

(** With no prefix and no suffix the raw key is the zone name, and the same
    pages give each zone once, in the order of the first occurrence. *)
Lemma LoadZones_plain_pages :
  Zones <$> LoadZones 3 1700000000 (paged "" "")
  = Some ["dns:example.com.:z"; "dns:example.org.:z"].
Proof. vm_compute. reflexivity. Qed.

End CatalogFacts.

(** ** Zone transfer *)

Module TransferFacts.

Import Strings Hash HashSpec TransferSamples.

Section Types.

Variable Unmarshal : string -> option Rec.t.
Variable redis : Redis.

Lemma has_type_incl types types' rr :
  incl types types' -> has_type types rr -> has_type types' rr.
Proof. unfold has_type. auto. Qed.

Lemma Forall_has_type_incl types types' rrs :
  incl types types' -> Forall (has_type types) rrs -> Forall (has_type types') rrs.
Proof.
  intros Hi H. eapply Forall_impl; [exact H|]. intros rr. now apply has_type_incl.
Qed.

Lemma typed_nil types : typed types ([], []).
Proof. split; constructor. Qed.

Lemma fold_left_typed {X : Type} types (f : RRs -> X -> RRs) (l : list X) :
  (forall acc x, typed types acc -> typed types (f acc x)) ->
  forall acc, typed types acc -> typed types (fold_left f l acc).
Proof. intros Hf. induction l as [|x l IH]; simpl; auto. Qed.

Lemma typed_snoc types answers extras header data more :
  typed types (answers, extras) ->
  In (dns.Rrtype header) types ->
  Forall (has_type [dns.TypeA; dns.TypeAAAA; dns.TypeCNAME]) more ->
  typed types ((answers ++ [dns.mkRR header data])%list, (extras ++ more)%list).
Proof.
  intros [Ha He] Hr Hm. split; simpl in *; apply Forall_app_2; auto.
Qed.

Lemma typed_answer types answers extras header data :
  typed types (answers, extras) ->
  In (dns.Rrtype header) types ->
  typed types ((answers ++ [dns.mkRR header data])%list, extras).
Proof.
  intros [Ha He] Hr. split; simpl in *; [apply Forall_app_2|]; auto.
Qed.

Ltac typed_loop :=
  intros [record|]; simpl; [|apply typed_nil];
  apply fold_left_typed; [|apply typed_nil];
  intros [answers extras] x Hacc.

Lemma A_typed name z record : typed [dns.TypeA] (A redis name z record).
Proof.
  revert record. typed_loop. destruct (A_Record.Ip x); auto.
  apply typed_answer; simpl; auto.
Qed.

Lemma AAAA_typed name z record : typed [dns.TypeAAAA] (AAAA redis name z record).
Proof.
  revert record. typed_loop. destruct (AAAA_Record.Ip x); auto.
  apply typed_answer; simpl; auto.
Qed.

Lemma CNAME_typed name z record : typed [dns.TypeCNAME] (CNAME redis name z record).
Proof.
  revert record. typed_loop. destruct (_ =? _)%nat; auto.
  apply typed_answer; simpl; auto.
Qed.

Lemma TXT_typed name z record : typed [dns.TypeTXT] (TXT redis name z record).
Proof.
  revert record. typed_loop. destruct (_ =? _)%nat; auto.
  apply typed_answer; simpl; auto.
Qed.

Lemma hosts_typed name z :
  Forall (has_type [dns.TypeA; dns.TypeAAAA; dns.TypeCNAME])
    (hosts Unmarshal redis name z).
Proof.
  unfold hosts. destruct (String.eqb _ _); [constructor|].
  repeat apply Forall_app_2; try constructor.
  - eapply Forall_has_type_incl; [|apply A_typed]. intros t [<-|[]]; simpl; auto.
  - eapply Forall_has_type_incl; [|apply AAAA_typed]. intros t [<-|[]]; simpl; auto.
  - eapply Forall_has_type_incl; [|apply CNAME_typed]. intros t [<-|[]]; simpl; auto.
Qed.

Lemma MX_typed name z record : typed [dns.TypeMX] (MX Unmarshal redis name z record).
Proof.
  revert record. typed_loop. destruct (_ =? _)%nat; auto.
  apply typed_snoc; simpl; auto using hosts_typed.
Qed.

Lemma SRV_typed name z record : typed [dns.TypeSRV] (SRV Unmarshal redis name z record).
Proof.
  revert record. typed_loop. destruct (_ =? _)%nat; auto.
  apply typed_snoc; simpl; auto using hosts_typed.
Qed.

Lemma SOA_typed now name z record :
  Forall (has_type [dns.TypeSOA]) (fst (SOA redis now name z record)).
Proof.
  destruct record as [record|]; simpl; [|constructor].
  constructor; [|constructor]. destruct (String.eqb _ _); simpl; left; reflexivity.
Qed.

Lemma collect_collected st types rrs :
  incl types transferred -> collected st -> typed types rrs ->
  collected (collect st rrs).
Proof.
  intros Hi (Hs & Ha & He) [Hf Hx]. repeat split; simpl; auto.
  - apply Forall_app_2; [exact Ha|]. eapply Forall_has_type_incl; eauto.
  - now apply Forall_app_2.
Qed.

Lemma AXFR_step_collected now z st key :
  collected st -> collected (AXFR_step Unmarshal redis now z st key).
Proof.
  intros H. unfold AXFR_step. destruct (String.eqb key "@").
  - destruct H as (Hs & Ha & He). repeat split; simpl; auto using SOA_typed.
  - repeat (eapply collect_collected;
            [| |first [apply A_typed | apply AAAA_typed | apply CNAME_typed
                      | apply MX_typed | apply SRV_typed | apply TXT_typed]];
            [intros t [<-|[]]; unfold transferred; simpl; tauto|]).
    exact H.
Qed.


End Types.

(** C7 at a zone with the locations [@] and [www], both holding NS
    entries and [www] a CAA entry, in either order of the range: the transfer
    is the SOA record, the address of [www] and the SOA record again; the
    address and the name server of the apex and the name server and the CAA
    record of [www] are not in it. *)
Theorem AXFR_example :
  let soa := dns.mkRR (hdr "example.com." dns.TypeSOA 300)
               (dns.SOA "ns1.example.com." "hostmaster.example.com."
                  1700000000 86400 7200 3600 300) in
  let www := dns.mkRR (hdr "www.example.com." dns.TypeA 300)
               (dns.A (Some [192; 0; 2; 2])) in
  AXFR decode exampleRedis 1700000000 exampleZone = [soa; www; soa]
  /\ AXFR_in decode ["@"; "www"] exampleRedis 1700000000 exampleZone = [soa; www; soa]
  /\ AXFR_in decode ["www"; "@"] exampleRedis 1700000000 exampleZone = [soa; www; soa]
  /\ fst (NS decode exampleRedis "www.example.com." exampleZone (Some wwwRecord)) <> []
  /\ fst (CAA exampleRedis "www.example.com." exampleZone (Some wwwRecord)) <> []
  /\ fst (A exampleRedis "example.com." exampleZone (Some apexRecord)) <> [].
Proof. repeat split; vm_compute; try reflexivity; discriminate. Qed.

End TransferFacts.

(** ** What [get] and [save] tell their caller *)

Module ErrorFacts.

Import Strings Hash HashSpec ErrorSamples.

(** C8, as amended. [get] returns a record exactly when a connection is
    handed out, HGET replies with a string and the string decodes; no
    connection, a command error, a nil or non-string reply and malformed JSON
    all give the nil record, the result for an absent label. [save] returns
    the error of HSET to its caller when a connection is handed out. *)
Theorem get_save_outcomes :
  forall (Unmarshal : string -> option Rec.t) (redis : Redis) (key : string) (z : Zone),
    (forall r,
        get Unmarshal redis key z = Some r
        <-> exists conn val,
              Pool redis = Some conn
              /\ Do_HGET conn (redisKey redis (Name z)) (label key z)
                 = inl (ReplyBulk val)
              /\ Unmarshal val = Some r)
    /\ (Pool redis = None -> get Unmarshal redis key z = None)
    /\ (forall conn err,
          Pool redis = Some conn ->
          Do_HGET conn (redisKey redis (Name z)) (label key z) = inr err ->
          get Unmarshal redis key z = None)
    /\ (forall conn,
          Pool redis = Some conn ->
          Do_HGET conn (redisKey redis (Name z)) (label key z) = inl ReplyNil ->
          get Unmarshal redis key z = None)
    /\ (forall conn val,
          Pool redis = Some conn ->
          Do_HGET conn (redisKey redis (Name z)) (label key z) = inl (ReplyBulk val) ->
          Unmarshal val = None ->
          get Unmarshal redis key z = None)
    /\ (forall conn zone subdomain value,
          Pool redis = Some conn ->
          fst (save redis zone subdomain value)
          = match fst (Do_HSET conn (redisKey redis zone) subdomain value) with
            | inr err => Some err
            | inl _ => None
            end).
Proof.
  intros Unmarshal redis key z. unfold get, save, redisKey.
  repeat split.
  - intros H. destruct (Pool redis) as [conn|]; [|discriminate].
    destruct (Do_HGET _ _ _) as [reply|err] eqn:Hg; [|discriminate].
    destruct reply as [|val|n]; simpl in H; try discriminate.
    destruct (Unmarshal val) as [r'|] eqn:Hu; [|discriminate].
    exists conn, val. repeat split; congruence.
  - intros (conn & val & -> & -> & Hu). simpl. now rewrite Hu.
  - now intros ->.
  - now intros conn err -> ->.
  - now intros conn -> ->.
  - intros conn val -> -> Hu. simpl. now rewrite Hu.
  - intros conn zone subdomain value ->.
    destruct (Do_HSET _ _ _ _) as [r conn']. reflexivity.
Qed.

Lemma get_save_outcomes_witness :
  fst (save wrongType "example.com." "www" wwwText) = Some WRONGTYPE.
Proof.
  exact (proj2 (proj2 (proj2 (proj2 (proj2
           (get_save_outcomes decode wrongType "www" zone)))))
           _ "example.com." "www" wwwText eq_refl).
Defined.

(** C8 as stated fails: a dead link, a command error and malformed JSON
    give [get] the result of an absent label, and [save] without a connection
    returns no error. *)
Lemma failures_look_absent :
  get decode dead "www" zone = get decode absent "www" zone
  /\ get decode wrongType "www" zone = get decode absent "www" zone
  /\ get decode malformed "www" zone = get decode absent "www" zone
  /\ get decode (withPool None) "www" zone = get decode absent "www" zone
  /\ fst (save (withPool None) "example.com." "www" wwwText) = None.
Proof. repeat split. Qed.

End ErrorFacts.

(** ** Text rows: nesting of the calls *)

Module RowsFacts.

Import Strings Rows RowsSpec RowsSamples.

Section Nesting.

Variable ParseIP : string -> dns.IP.
Variable redis : Redis.

(** Two stand-ins for the nested call that agree on type A. *)
Variables rec1 rec2 : string -> string -> Conn -> Outcome Results.
Hypothesis rec_A : forall recordName conn,
  rec1 "A" recordName conn = rec2 "A" recordName conn.

Lemma getAdditionalRecords_ext recordName conn :
  getAdditionalRecords rec1 recordName conn
  = getAdditionalRecords rec2 recordName conn.
Proof. unfold getAdditionalRecords. now rewrite rec_A. Qed.

Lemma parseNS_range_ext hosts zoneName header answers extras conn :
  parseNS_range rec1 hosts zoneName header answers extras conn
  = parseNS_range rec2 hosts zoneName header answers extras conn.
Proof.
  revert header answers extras conn.
  induction hosts as [|host hosts IH]; intros header answers extras conn;
    simpl; [reflexivity|].
  destruct (negb (dns.IsFqdn host)); [reflexivity|].
  rewrite getAdditionalRecords_ext.
  destruct (getAdditionalRecords rec2 host conn) as [[additional [err|]] conn'| |];
    auto.
Qed.

Ltac step_fields :=
  repeat first
    [ reflexivity
    | match goal with
      | |- context [nth_error ?l ?i] => destruct (nth_error l i); cbv beta iota
      | |- context [Strconv.Atoi ?f] => destruct (Strconv.Atoi f); cbv beta iota
      end ].

Lemma parseSOA_ext fields zoneName header conn :
  parseSOA rec1 fields zoneName header conn
  = parseSOA rec2 fields zoneName header conn.
Proof.
  unfold parseSOA, atoiField, index. step_fields.
  now rewrite getAdditionalRecords_ext.
Qed.

Lemma parseRecordValuesFromString_ext recordType recordName rData conn :
  parseRecordValuesFromString ParseIP rec1 recordType recordName rData conn
  = parseRecordValuesFromString ParseIP rec2 recordType recordName rData conn.
Proof.
  unfold parseRecordValuesFromString, parseNS.
  destruct (_ <? _)%nat; [reflexivity|].
  unfold index. destruct (nth_error _ 2); [|reflexivity].
  destruct (negb _); [reflexivity|].
  destruct (nth_error _ 0); [|reflexivity].
  destruct (Strconv.Atoi _); [|reflexivity].
  now rewrite parseNS_range_ext, parseSOA_ext.
Qed.

Lemma LoadZoneRecords_body_ext recordType recordName conn :
  LoadZoneRecords_body ParseIP redis rec1 recordType recordName conn
  = LoadZoneRecords_body ParseIP redis rec2 recordType recordName conn.
Proof.
  unfold LoadZoneRecords_body.
  destruct (Send conn MULTI) as [[e|] c1]; [reflexivity|].
  destruct (Send c1 _) as [[e|] c2]; [reflexivity|].
  destruct (Send c2 _) as [[e|] c3]; [reflexivity|].
  destruct (Do_EXEC c3) as [[values|e] c4]; [|reflexivity].
  destruct (Scan values) as [[rData remainingTtl]|e]; [|reflexivity].
  destruct (String.eqb rData ""); [reflexivity|].
  now rewrite parseRecordValuesFromString_ext.
Qed.

End Nesting.

(** *** The link stays as it is *)

Section Link.

Variable ParseIP : string -> dns.IP.
Variable redis : Redis.

Variable rec : string -> string -> Conn -> Outcome Results.
Hypothesis rec_keeps : forall recordType recordName,
  keeps_link (rec recordType recordName).

Lemma getAdditionalRecords_keeps recordName :
  keeps_link (getAdditionalRecords rec recordName).
Proof.
  intros conn a conn'. unfold getAdditionalRecords.
  destruct (rec "A" recordName conn) as [[[answers extras] err] c| |] eqn:E;
    try discriminate.
  apply rec_keeps in E.
  destruct err; [|destruct (_ <? _)%nat]; intros H; injection H as _ <-; exact E.
Qed.

Lemma parseNS_range_keeps hosts zoneName header answers extras :
  keeps_link (parseNS_range rec hosts zoneName header answers extras).
Proof.
  revert header answers extras.
  induction hosts as [|host hosts IH]; intros header answers extras conn a conn';
    simpl.
  - intros H. now injection H as _ <-.
  - destruct (negb (dns.IsFqdn host)); [intros H; now injection H as _ <-|].
    destruct (getAdditionalRecords rec host conn)
      as [[additional [err|]] c| |] eqn:E; try discriminate;
      apply getAdditionalRecords_keeps in E.
    + intros H. injection H as _ <-. exact E.
    + intros H. apply IH in H. congruence.
Qed.

Lemma parseSOA_keeps fields zoneName header :
  keeps_link (parseSOA rec fields zoneName header).
Proof.
  intros conn a conn'. unfold parseSOA, atoiField, index.
  repeat match goal with
         | |- context [nth_error ?l ?i] =>
             destruct (nth_error l i); cbv beta iota; [|discriminate]
         | |- context [Strconv.Atoi ?f] =>
             destruct (Strconv.Atoi f); cbv beta iota;
             [|intros H; now injection H as _ <-]
         end.
  destruct (getAdditionalRecords rec _ conn)
    as [[additional [err|]] c| |] eqn:E; try discriminate;
    apply getAdditionalRecords_keeps in E;
    intros H; injection H as _ <-; exact E.
Qed.

Lemma parseRecordValuesFromString_keeps recordType recordName rData :
  keeps_link (parseRecordValuesFromString ParseIP rec recordType recordName rData).
Proof.
  intros conn a conn'. unfold parseRecordValuesFromString, parseNS, index.
  destruct (_ <? _)%nat; [intros H; now injection H as _ <-|].
  destruct (nth_error _ 2); [|discriminate].
  destruct (negb _); [intros H; now injection H as _ <-|].
  destruct (nth_error _ 0); [|discriminate].
  destruct (Strconv.Atoi _); [|intros H; now injection H as _ <-].
  destruct (String.eqb recordType "A"); [intros H; now injection H as _ <-|].
  destruct (String.eqb recordType "NS"); [apply parseNS_range_keeps|].
  destruct (String.eqb recordType "SOA"); [apply parseSOA_keeps|].
  intros H; now injection H as _ <-.
Qed.

Lemma Send_keeps conn cmd : failure (snd (Send conn cmd)) = failure conn.
Proof. unfold Send. destruct (failure conn) eqn:E; simpl; auto. Qed.

Lemma Do_EXEC_keeps conn : failure (snd (Do_EXEC conn)) = failure conn.
Proof. unfold Do_EXEC. destruct (failure conn) eqn:E; simpl; auto. Qed.

Lemma Do_SET_EX_keeps conn key val seconds :
  failure (snd (Do_SET_EX conn key val seconds)) = failure conn.
Proof.
  unfold Do_SET_EX. destruct (failure conn) eqn:E; simpl; auto.
  destruct (_ <=? _); simpl; auto.
Qed.

Lemma LoadZoneRecords_body_keeps recordType recordName :
  keeps_link (LoadZoneRecords_body ParseIP redis rec recordType recordName).
Proof.
  intros conn a conn'. unfold LoadZoneRecords_body.
  pose proof (Send_keeps conn MULTI) as K1.
  destruct (Send conn MULTI) as [[e|] c1]; simpl in K1;
    [intros H; injection H as _ <-; exact K1|].
  match goal with |- context [Send c1 ?cmd] =>
    pose proof (Send_keeps c1 cmd) as K2;
    destruct (Send c1 cmd) as [[e|] c2]; simpl in K2;
    [intros H; injection H as _ <-; congruence|] end.
  match goal with |- context [Send c2 ?cmd] =>
    pose proof (Send_keeps c2 cmd) as K3;
    destruct (Send c2 cmd) as [[e|] c3]; simpl in K3;
    [intros H; injection H as _ <-; congruence|] end.
  pose proof (Do_EXEC_keeps c3) as K4.
  destruct (Do_EXEC c3) as [[values|e] c4]; simpl in K4;
    [|intros H; injection H as _ <-; congruence].
  destruct (Scan values) as [[rData remainingTtl]|e];
    [|intros H; injection H as _ <-; congruence].
  destruct (String.eqb rData ""); [intros H; injection H as _ <-; congruence|].
  destruct (parseRecordValuesFromString _ _ _ _ _ c4)
    as [[[answers extras] [err|]] c5| |] eqn:E; try discriminate;
    apply parseRecordValuesFromString_keeps in E.
  - intros H; injection H as _ <-; congruence.
  - destruct (remainingTtl =? -2).
    + destruct answers as [|first answers]; [discriminate|].
      match goal with |- context [Do_SET_EX c5 ?k ?v ?x] =>
        pose proof (Do_SET_EX_keeps c5 k v x) as K6;
        destruct (Do_SET_EX c5 k v x) as [[e|] c6]; simpl in K6 end;
        intros H; injection H as _ <-; congruence.
    + intros H; injection H as _ <-; congruence.
Qed.

End Link.

Lemma LoadZoneRecords_fuel_keeps ParseIP redis fuel recordType recordName :
  keeps_link (LoadZoneRecords_fuel ParseIP redis fuel recordType recordName).
Proof.
  revert recordType recordName. induction fuel as [|fuel IH];
    intros recordType recordName; simpl.
  - intros conn a conn'. discriminate.
  - apply LoadZoneRecords_body_keeps. exact IH.
Qed.

(** *** Two levels of calls are enough *)

Section Depth.

Variable ParseIP : string -> dns.IP.
Variable redis : Redis.

Lemma parse_A_ends rec recordName rData conn :
  ends (parseRecordValuesFromString ParseIP rec "A" recordName rData conn).
Proof.
  unfold ends, parseRecordValuesFromString, index.
  destruct (_ <? _)%nat; [discriminate|].
  destruct (nth_error _ 2); [|discriminate].
  destruct (negb _); [discriminate|].
  destruct (nth_error _ 0); [|discriminate].
  destruct (Strconv.Atoi _); discriminate.
Qed.

Ltac transaction conn :=
  unfold LoadZoneRecords_body;
  destruct (Send conn MULTI) as [[?e|] ?c];
  [|match goal with |- context [Send ?c1 (GET ?k)] =>
      destruct (Send c1 (GET k)) as [[?e|] ?c];
      [|match goal with |- context [Send ?c2 (TTL ?k')] =>
          destruct (Send c2 (TTL k')) as [[?e|] ?c];
          [|match goal with |- context [Do_EXEC ?c3] =>
              destruct (Do_EXEC c3) as [[values|?e] ?c];
              [destruct (Scan values) as [[rData remainingTtl]|?e];
               [destruct (String.eqb rData "")|]|]
            end]
        end]
    end].

Lemma body_A_any rec1 rec2 recordName conn :
  LoadZoneRecords_body ParseIP redis rec1 "A" recordName conn
  = LoadZoneRecords_body ParseIP redis rec2 "A" recordName conn.
Proof.
  transaction conn; reflexivity.
Qed.

Lemma body_ends rec recordType recordName conn :
  (forall rData c,
      ends (parseRecordValuesFromString ParseIP rec recordType recordName rData c)) ->
  ends (LoadZoneRecords_body ParseIP redis rec recordType recordName conn).
Proof.
  intros Hp. unfold ends. transaction conn; try discriminate.
  match goal with |- context [parseRecordValuesFromString ?P ?r ?t ?n ?d ?c] =>
    specialize (Hp d c);
    destruct (parseRecordValuesFromString P r t n d c)
      as [[[answers extras] [err|]] c'| |] end;
    try discriminate; [|now elim Hp].
  destruct (remainingTtl =? -2); [|discriminate].
  destruct answers; [discriminate|].
  destruct (Do_SET_EX _ _ _ _) as [[e'|] c'']; discriminate.
Qed.

Variable rec : string -> string -> Conn -> Outcome Results.
Hypothesis rec_A_ends : forall recordName conn, ends (rec "A" recordName conn).

Lemma getAdditionalRecords_ends recordName conn :
  ends (getAdditionalRecords rec recordName conn).
Proof.
  unfold ends, getAdditionalRecords. specialize (rec_A_ends recordName conn).
  destruct (rec "A" recordName conn) as [[[answers extras] [err|]] c| |];
    try discriminate; [|now elim rec_A_ends].
  destruct (_ <? _)%nat; discriminate.
Qed.

Lemma parseNS_range_ends hosts zoneName header answers extras conn :
  ends (parseNS_range rec hosts zoneName header answers extras conn).
Proof.
  revert header answers extras conn.
  induction hosts as [|host hosts IH]; intros header answers extras conn; simpl.
  - discriminate.
  - destruct (negb (dns.IsFqdn host)); [discriminate|].
    pose proof (getAdditionalRecords_ends host conn) as Hg.
    destruct (getAdditionalRecords rec host conn) as [[additional [err|]] c| |];
      try discriminate; [apply IH | now elim Hg].
Qed.

Lemma parseSOA_ends fields zoneName header conn :
  ends (parseSOA rec fields zoneName header conn).
Proof.
  unfold parseSOA, atoiField, index.
  repeat match goal with
         | |- context [nth_error ?l ?i] =>
             destruct (nth_error l i); cbv beta iota; [|discriminate]
         | |- context [Strconv.Atoi ?f] =>
             destruct (Strconv.Atoi f); cbv beta iota; [|discriminate]
         end.
  match goal with |- context [getAdditionalRecords rec ?f conn] =>
    pose proof (getAdditionalRecords_ends f conn) as Hg;
    destruct (getAdditionalRecords rec f conn) as [[additional [err|]] c| |] end;
    try discriminate; now elim Hg.
Qed.

Lemma parse_ends recordType recordName rData conn :
  ends (parseRecordValuesFromString ParseIP rec recordType recordName rData conn).
Proof.
  unfold parseRecordValuesFromString, parseNS, index.
  destruct (_ <? _)%nat; [discriminate|].
  destruct (nth_error _ 2); [|discriminate].
  destruct (negb _); [discriminate|].
  destruct (nth_error _ 0); [|discriminate].
  destruct (Strconv.Atoi _); [|discriminate].
  destruct (String.eqb recordType "A"); [discriminate|].
  destruct (String.eqb recordType "NS"); [apply parseNS_range_ends|].
  destruct (String.eqb recordType "SOA"); [apply parseSOA_ends|].
  discriminate.
Qed.

End Depth.

(** [LoadZoneRecords] returns or panics: the model's fuel does not run
    out. *)
Lemma LoadZoneRecords_ends ParseIP redis recordType recordName conn :
  ends (LoadZoneRecords ParseIP redis recordType recordName conn).
Proof.
  unfold LoadZoneRecords. simpl.
  apply body_ends. intros rData c. apply parse_ends.
  intros name c'. apply body_ends. intros rData' c''. apply parse_A_ends.
Qed.

(** More fuel changes nothing. *)
Lemma LoadZoneRecords_fuel_enough ParseIP redis fuel recordType recordName conn :
  LoadZoneRecords_fuel ParseIP redis (S (S fuel)) recordType recordName conn
  = LoadZoneRecords ParseIP redis recordType recordName conn.
Proof.
  unfold LoadZoneRecords. simpl.
  apply LoadZoneRecords_body_ext. intros name c. apply body_A_any.
Qed.

(** *** A parsed row has answers *)

Section Parsed.

Variable ParseIP : string -> dns.IP.
Variable rec : string -> string -> Conn -> Outcome Results.

Lemma parseA_length ips recordName header :
  length (parseA ParseIP ips recordName header) = length ips.
Proof.
  unfold parseA.
  enough (H : forall acc,
             length (fold_left
                       (fun answers ip =>
                          (answers ++
                           [dns.mkRR (dns.mkHeader recordName dns.TypeA
                                        (dns.Class header) (dns.Ttl header))
                              (dns.A (ParseIP ip))])%list) ips acc)
             = (length acc + length ips)%nat) by apply (H []).
  induction ips as [|ip ips IH]; intros acc; simpl; [lia|].
  rewrite IH, length_app. simpl. lia.
Qed.

Lemma parseNS_range_length hosts zoneName header answers extras conn
      answers' extras' conn' :
  parseNS_range rec hosts zoneName header answers extras conn
  = Return (answers', extras', None) conn' ->
  length answers' = (length answers + length hosts)%nat.
Proof.
  revert header answers extras conn.
  induction hosts as [|host hosts IH]; intros header answers extras conn; simpl.
  - intros H. injection H as <- _ _. lia.
  - destruct (negb (dns.IsFqdn host)); [discriminate|].
    destruct (getAdditionalRecords rec host conn) as [[additional [err|]] c| |];
      try discriminate.
    intros H. apply IH in H. rewrite H, length_app. simpl. lia.
Qed.

Lemma parseSOA_single fields zoneName header conn answers extras conn' :
  parseSOA rec fields zoneName header conn = Return (answers, extras, None) conn' ->
  length answers = 1%nat.
Proof.
  unfold parseSOA, atoiField, index.
  repeat match goal with
         | |- context [nth_error ?l ?i] =>
             destruct (nth_error l i); cbv beta iota; [|discriminate]
         | |- context [Strconv.Atoi ?f] =>
             destruct (Strconv.Atoi f); cbv beta iota; [|discriminate]
         end.
  destruct (getAdditionalRecords rec _ conn) as [[additional [err|]] c| |];
    try discriminate.
  intros H. now injection H as <- _ _.
Qed.

Lemma parse_answers recordType recordName rData conn answers extras conn' :
  parseRecordValuesFromString ParseIP rec recordType recordName rData conn
  = Return (answers, extras, None) conn' ->
  answers <> [].
Proof.
  unfold parseRecordValuesFromString, parseNS, index.
  destruct (Nat.ltb_spec (length (Fields rData)) 4) as [|Hlen]; [discriminate|].
  destruct (nth_error _ 2); [|discriminate].
  destruct (negb _); [discriminate|].
  destruct (nth_error _ 0); [|discriminate].
  destruct (Strconv.Atoi _); [|discriminate].
  assert (Hrest : (0 < length (skipn 3 (Fields rData)))%nat)
    by (rewrite length_skipn; lia).
  intros H Hnil.
  assert (Hl : length answers = 0%nat) by now rewrite Hnil.
  destruct (String.eqb recordType "A").
  { injection H as <- _ _. rewrite parseA_length in Hl. lia. }
  destruct (String.eqb recordType "NS").
  { apply parseNS_range_length in H. simpl in H. lia. }
  destruct (String.eqb recordType "SOA"); [|discriminate].
  apply parseSOA_single in H. lia.
Qed.

End Parsed.

(** *** What the nested calls send *)

Section Sent.

Variable ParseIP : string -> dns.IP.
Variable redis : Redis.

Local Abbreviation glue_command := (RowsSpec.glue_command redis).
Local Abbreviation extends := (RowsSpec.extends redis).

Lemma extends_refl conn : extends conn conn.
Proof. exists []. split; [now rewrite app_nil_r | constructor]. Qed.

Lemma extends_trans c1 c2 c3 : extends c1 c2 -> extends c2 c3 -> extends c1 c3.
Proof.
  intros (a & Ha & Fa) (b & Hb & Fb). exists (a ++ b)%list. split.
  - now rewrite Hb, Ha, app_assoc.
  - now apply Forall_app_2.
Qed.

Lemma extends_one conn conn' cmd :
  sent conn' = (sent conn ++ [cmd])%list -> glue_command cmd -> extends conn conn'.
Proof. intros H G. exists [cmd]. split; [exact H | now repeat constructor]. Qed.

Lemma Send_extends conn cmd err conn' :
  Send conn cmd = (err, conn') ->
  match cmd with SET_EX _ _ _ => False | _ => True end ->
  extends conn conn'.
Proof.
  unfold Send. destruct (failure conn); intros H G; injection H as _ <-.
  - apply extends_refl.
  - eapply extends_one; [reflexivity|]. destruct cmd; simpl; auto. contradiction.
Qed.

Lemma Do_EXEC_extends conn r conn' :
  Do_EXEC conn = (r, conn') -> extends conn conn'.
Proof.
  unfold Do_EXEC. destruct (failure conn); intros H; injection H as _ <-.
  - apply extends_refl.
  - eapply extends_one; [reflexivity | exact I].
Qed.

Lemma Do_SET_EX_extends conn name val seconds err conn' :
  Do_SET_EX conn (Key redis (("A" ++ "/" ++ name) ++ ":ttl")) val seconds
  = (err, conn') ->
  extends conn conn'.
Proof.
  unfold Do_SET_EX. destruct (failure conn).
  - intros H; injection H as _ <-. apply extends_refl.
  - destruct (_ <=? _); intros H; injection H as _ <-;
      (eapply extends_one; [reflexivity | simpl; eauto]).
Qed.

(** A row of type A is parsed without a command. *)
Lemma parse_A_silent rec recordName rData conn r conn' :
  parseRecordValuesFromString ParseIP rec "A" recordName rData conn = Return r conn' ->
  conn' = conn.
Proof.
  unfold parseRecordValuesFromString, index.
  destruct (_ <? _)%nat; [intros H; now injection H|].
  destruct (nth_error _ 2); [|discriminate].
  destruct (negb _); [intros H; now injection H|].
  destruct (nth_error _ 0); [|discriminate].
  destruct (Strconv.Atoi _); intros H; now injection H.
Qed.

Lemma body_A_extends rec recordName conn r conn' :
  LoadZoneRecords_body ParseIP redis rec "A" recordName conn = Return r conn' ->
  extends conn conn'.
Proof.
  unfold LoadZoneRecords_body.
  destruct (Send conn MULTI) as [[e|] c1] eqn:E1;
    pose proof (Send_extends _ _ _ _ E1 I) as X1;
    [intros H; now injection H as _ <-|].
  match goal with |- context [Send c1 ?cmd] =>
    destruct (Send c1 cmd) as [[e|] c2] eqn:E2;
    pose proof (Send_extends _ _ _ _ E2 I) as X2 end;
    [intros H; injection H as _ <-; eauto using extends_trans|].
  match goal with |- context [Send c2 ?cmd] =>
    destruct (Send c2 cmd) as [[e|] c3] eqn:E3;
    pose proof (Send_extends _ _ _ _ E3 I) as X3 end;
    [intros H; injection H as _ <-; eauto using extends_trans|].
  destruct (Do_EXEC c3) as [[values|e] c4] eqn:E4;
    pose proof (Do_EXEC_extends _ _ _ E4) as X4;
    [|intros H; injection H as _ <-; eauto 6 using extends_trans].
  assert (X : extends conn c4) by eauto 6 using extends_trans.
  destruct (Scan values) as [[rData remainingTtl]|e];
    [|intros H; now injection H as _ <-].
  destruct (String.eqb rData ""); [intros H; now injection H as _ <-|].
  destruct (parseRecordValuesFromString _ _ _ _ _ c4)
    as [[[answers extras] [err|]] c5| |] eqn:E5; try discriminate;
    apply parse_A_silent in E5; subst c5.
  - intros H; now injection H as _ <-.
  - destruct (remainingTtl =? -2); [|intros H; now injection H as _ <-].
    destruct answers as [|first answers]; [discriminate|].
    destruct (Do_SET_EX c4 _ _ _) as [[e|] c6] eqn:E6;
      apply Do_SET_EX_extends in E6;
      intros H; injection H as _ <-; eauto using extends_trans.
Qed.

Variable rec : string -> string -> Conn -> Outcome Results.
Hypothesis rec_A_extends : forall recordName conn r conn',
  rec "A" recordName conn = Return r conn' -> extends conn conn'.

Lemma getAdditionalRecords_extends recordName conn r conn' :
  getAdditionalRecords rec recordName conn = Return r conn' -> extends conn conn'.
Proof.
  unfold getAdditionalRecords.
  destruct (rec "A" recordName conn) as [[[answers extras] err] c| |] eqn:E;
    try discriminate.
  apply rec_A_extends in E.
  destruct err; [|destruct (_ <? _)%nat]; intros H; injection H as _ <-; exact E.
Qed.

Lemma parseNS_range_extends hosts zoneName header answers extras conn r conn' :
  parseNS_range rec hosts zoneName header answers extras conn = Return r conn' ->
  extends conn conn'.
Proof.
  revert header answers extras conn.
  induction hosts as [|host hosts IH]; intros header answers extras conn; simpl.
  - intros H. injection H as _ <-. apply extends_refl.
  - destruct (negb (dns.IsFqdn host));
      [intros H; injection H as _ <-; apply extends_refl|].
    destruct (getAdditionalRecords rec host conn)
      as [[additional [err|]] c| |] eqn:E; try discriminate;
      apply getAdditionalRecords_extends in E.
    + intros H. injection H as _ <-. exact E.
    + intros H. apply IH in H. eauto using extends_trans.
Qed.

Lemma parseSOA_extends fields zoneName header conn r conn' :
  parseSOA rec fields zoneName header conn = Return r conn' -> extends conn conn'.
Proof.
  unfold parseSOA, atoiField, index.
  repeat match goal with
         | |- context [nth_error ?l ?i] =>
             destruct (nth_error l i); cbv beta iota; [|discriminate]
         | |- context [Strconv.Atoi ?f] =>
             destruct (Strconv.Atoi f); cbv beta iota;
             [|intros H; injection H as _ <-; apply extends_refl]
         end.
  destruct (getAdditionalRecords rec _ conn)
    as [[additional [err|]] c| |] eqn:E; try discriminate;
    apply getAdditionalRecords_extends in E;
    intros H; injection H as _ <-; exact E.
Qed.

Lemma parse_extends recordType recordName rData conn r conn' :
  parseRecordValuesFromString ParseIP rec recordType recordName rData conn
  = Return r conn' ->
  extends conn conn'.
Proof.
  unfold parseRecordValuesFromString, parseNS, index.
  destruct (_ <? _)%nat; [intros H; injection H as _ <-; apply extends_refl|].
  destruct (nth_error _ 2); [|discriminate].
  destruct (negb _); [intros H; injection H as _ <-; apply extends_refl|].
  destruct (nth_error _ 0); [|discriminate].
  destruct (Strconv.Atoi _); [|intros H; injection H as _ <-; apply extends_refl].
  destruct (String.eqb recordType "A");
    [intros H; injection H as _ <-; apply extends_refl|].
  destruct (String.eqb recordType "NS"); [apply parseNS_range_extends|].
  destruct (String.eqb recordType "SOA"); [apply parseSOA_extends|].
  intros H; injection H as _ <-; apply extends_refl.
Qed.

(** A row that parses has one of the three types. *)
Lemma parse_types recordType recordName rData conn answers extras conn' :
  parseRecordValuesFromString ParseIP rec recordType recordName rData conn
  = Return (answers, extras, None) conn' ->
  recordType = "A" \/ recordType = "NS" \/ recordType = "SOA".
Proof.
  unfold parseRecordValuesFromString, index.
  destruct (_ <? _)%nat; [discriminate|].
  destruct (nth_error _ 2); [|discriminate].
  destruct (negb _); [discriminate|].
  destruct (nth_error _ 0); [|discriminate].
  destruct (Strconv.Atoi _); [|discriminate].
  destruct (String.eqb_spec recordType "A"); [auto|].
  destruct (String.eqb_spec recordType "NS"); [auto|].
  destruct (String.eqb_spec recordType "SOA"); [auto|discriminate].
Qed.

End Sent.

Lemma append_inj_l (p a b : string) : (p ++ a)%string = (p ++ b)%string -> a = b.
Proof.
  induction p as [|c p IH]; [auto|].
  rewrite !StringFacts.append_cons. intros H. injection H as H. auto.
Qed.

(** Parsing the row of [recordType] sends nothing for a row of type A,
    and for the other rows no SET but of the TTL keys of rows of type A, that
    row's own TTL key never among them. *)
Lemma parse_spares_ttl_key ParseIP redis recordType recordName rData conn
      answers extras conn' :
  parseRecordValuesFromString ParseIP (LoadZoneRecords_fuel ParseIP redis 1)
    recordType recordName rData conn
  = Return (answers, extras, None) conn' ->
  exists added,
    sent conn' = (sent conn ++ added)%list
    /\ Forall (glue_command redis) added
    /\ (recordType = "A" -> added = [])
    /\ forall val seconds,
         ~ In (SET_EX (Key redis ((recordType ++ "/" ++ recordName) ++ ":ttl"))
                 val seconds) added.
Proof.
  intros H.
  destruct (parse_types _ _ _ _ _ _ _ _ _ H) as [-> | Htype].
  - apply parse_A_silent in H. subst conn'. exists []. split; [|split; [|split]].
    + now rewrite app_nil_r.
    + constructor.
    + reflexivity.
    + intros val seconds [].
  - pose proof H as H'. apply (parse_extends ParseIP redis) in H'.
    + destruct H' as (added & Hsent & Hglue). exists added.
      split; [exact Hsent|]. split; [exact Hglue|]. split.
      * intros ->. destruct Htype as [E | E]; discriminate E.
      * intros val seconds Hin. rewrite Forall_forall in Hglue.
        apply list_elem_of_In, Hglue in Hin. destruct Hin as (name & Hkey).
        unfold Key in Hkey. apply append_inj_l in Hkey.
        destruct Htype as [-> | ->]; discriminate Hkey.
    + intros name c r c'. simpl. apply body_A_extends.
Qed.

(** *** The decaying TTL *)

(** [LoadZoneRecords] on a live link, once the row has been read and
    parsed. *)
Lemma LoadZoneRecords_parsed ParseIP redis recordType recordName conn
      rData expiry answers extras conn2 :
  let keyName := recordType ++ "/" ++ recordName in
  let dataKey := Key redis keyName in
  let ttlKey := Key redis (keyName ++ ":ttl") in
  failure conn = None ->
  db conn !! dataKey = Some (mkEntry (VString rData) expiry) ->
  rData <> "" ->
  parseRecordValuesFromString ParseIP (LoadZoneRecords_fuel ParseIP redis 1)
    recordType recordName rData (afterExec conn dataKey ttlKey)
  = Return (answers, extras, None) conn2 ->
  forall remainingTtl,
    reply (db conn) (TTL ttlKey) = ReplyInt remainingTtl ->
    LoadZoneRecords ParseIP redis recordType recordName conn
    = if remainingTtl =? -2 then
        match answers with
        | [] => Panic indexOutOfRange
        | first :: _ =>
            let '(o, conn3) :=
              Do_SET_EX conn2 ttlKey (dns.Ttl (dns.Hdr first))
                (dns.Ttl (dns.Hdr first)) in
            match o with
            | Some err =>
                Return (answers, extras,
                        Some (Wrapf "error configuring TTL for %s: %s" [keyName] err))
                  conn3
            | None => Return (answers, extras, None) conn3
            end
        end
      else
        Return (map (dns.setTtl (Strconv.uint32 remainingTtl)) answers, extras, None)
          conn2.
Proof.
  intros keyName dataKey ttlKey Hf Hdata Hne Hparse remainingTtl Httl.
  unfold LoadZoneRecords.
  change (LoadZoneRecords_fuel ParseIP redis 2)
    with (LoadZoneRecords_body ParseIP redis (LoadZoneRecords_fuel ParseIP redis 1)).
  unfold LoadZoneRecords_body. fold keyName. fold dataKey. fold ttlKey.
  unfold Send, Do_EXEC. rewrite Hf. cbn [failure db queue sent app map].
  fold (afterExec conn dataKey ttlKey).
  rewrite Httl. cbn [reply]. rewrite Hdata. cbn [Scan].
  apply String.eqb_neq in Hne. rewrite Hne, Hparse. reflexivity.
Qed.

(** C3, as amended. On a live link whose row parses: when the backend
    answers TTL with -2 for the sibling key (the key is not there), the answers
    come back with the TTLs the parser gave them and one more command is sent,
    a SET of the TTL key to the first answer's TTL with that same TTL as its
    expiry; when that TTL is positive the backend stores the key and the
    lookup succeeds, and when it is not the backend refuses the expiry, the
    lookup returns the answers with the error of the SET, and no key is
    written. When the key is there with [t >= 0] seconds left, every answer
    comes back with the TTL [t] as a 32-bit value, which is [t] below 2^32; no
    command is sent after the row is parsed; parsing a row of type A sends
    nothing, and parsing another row sends no SET but of the TTL keys of the
    rows of type A that its glue lookups read, this row's own TTL key never
    among them. *)
Theorem LoadZoneRecords_decay :
  forall (ParseIP : string -> dns.IP) (redis : Redis)
         (recordType recordName : string) (conn : Conn)
         (rData : string) (expiry : option Z)
         (answers extras : list dns.RR) (conn2 : Conn),
    let keyName := recordType ++ "/" ++ recordName in
    let dataKey := Key redis keyName in
    let ttlKey := Key redis (keyName ++ ":ttl") in
    failure conn = None ->
    db conn !! dataKey = Some (mkEntry (VString rData) expiry) ->
    rData <> "" ->
    parseRecordValuesFromString ParseIP (LoadZoneRecords_fuel ParseIP redis 1)
      recordType recordName rData (afterExec conn dataKey ttlKey)
    = Return (answers, extras, None) conn2 ->
    (db conn !! ttlKey = None ->
     reply (db conn) (TTL ttlKey) = ReplyInt (-2)
     /\ exists first rest err conn3,
          answers = first :: rest
          /\ LoadZoneRecords ParseIP redis recordType recordName conn
             = Return (answers, extras, err) conn3
          /\ sent conn3
             = (sent conn2
                ++ [SET_EX ttlKey (dns.Ttl (dns.Hdr first)) (dns.Ttl (dns.Hdr first))])%list
          /\ (0 < dns.Ttl (dns.Hdr first) ->
              err = None
              /\ db conn3
                 = <[ttlKey := mkEntry (VString (decimal (dns.Ttl (dns.Hdr first))))
                                 (Some (dns.Ttl (dns.Hdr first)))]> (db conn2))
          /\ (dns.Ttl (dns.Hdr first) <= 0 ->
              (exists cause,
                  err = Some (Wrapf "error configuring TTL for %s: %s" [keyName] cause))
              /\ db conn3 = db conn2))
    /\ (forall (v : Value) (t : Z),
          db conn !! ttlKey = Some (mkEntry v (Some t)) -> 0 <= t ->
          reply (db conn) (TTL ttlKey) = ReplyInt t
          /\ LoadZoneRecords ParseIP redis recordType recordName conn
             = Return (map (dns.setTtl (Strconv.uint32 t)) answers, extras, None) conn2
          /\ Forall (fun rr => dns.Ttl (dns.Hdr rr) = Strconv.uint32 t)
               (map (dns.setTtl (Strconv.uint32 t)) answers)
          /\ (t < 2 ^ 32 -> Strconv.uint32 t = t)
          /\ exists added,
               sent conn2 = (sent (afterExec conn dataKey ttlKey) ++ added)%list
               /\ Forall (glue_command redis) added
               /\ (recordType = "A" -> added = [])
               /\ forall val seconds, ~ In (SET_EX ttlKey val seconds) added).
Proof.
  intros ParseIP redis recordType recordName conn rData expiry answers extras conn2
         keyName dataKey ttlKey Hf Hdata Hne Hparse.
  pose proof (LoadZoneRecords_parsed ParseIP redis recordType recordName conn
                rData expiry answers extras conn2 Hf Hdata Hne Hparse) as Hload.
  assert (Hf2 : failure conn2 = None).
  { apply parseRecordValuesFromString_keeps in Hparse; [exact Hparse|].
    intros t n. apply LoadZoneRecords_fuel_keeps. }
  split.
  - intros Hnone.
    assert (Hr : reply (db conn) (TTL ttlKey) = ReplyInt (-2))
      by (cbn [reply]; now rewrite Hnone).
    split; [exact Hr|].
    specialize (Hload _ Hr). rewrite Z.eqb_refl in Hload.
    pose proof (parse_answers _ _ _ _ _ _ _ _ _ Hparse) as Hans.
    destruct answers as [|first rest]; [congruence|].
    unfold Do_SET_EX in Hload. rewrite Hf2 in Hload.
    destruct (Z.leb_spec (dns.Ttl (dns.Hdr first)) 0) as [Hle|Hgt].
    + eexists first, rest, _, _.
      split; [reflexivity | split; [exact Hload | split; [reflexivity | split]]].
      * lia.
      * intros _. split; [eauto | reflexivity].
    + eexists first, rest, _, _.
      split; [reflexivity | split; [exact Hload | split; [reflexivity | split]]].
      * auto.
      * lia.
  - intros v t Hsome Ht.
    assert (Hr : reply (db conn) (TTL ttlKey) = ReplyInt t)
      by (cbn [reply]; now rewrite Hsome).
    split; [exact Hr|].
    specialize (Hload _ Hr).
    destruct (Z.eqb_spec t (-2)) as [E|_]; [lia|].
    split; [exact Hload|]. split.
    + apply Forall_forall. intros rr Hin. apply list_elem_of_In, in_map_iff in Hin.
      destruct Hin as (rr' & <- & _). reflexivity.
    + split; [intros Hlt; unfold Strconv.uint32; apply Z.mod_small; lia|].
      exact (parse_spares_ttl_key _ _ _ _ _ _ _ _ _ Hparse).
Qed.

Lemma LoadZoneRecords_decay_witness :
  (exists err conn3,
      LoadZoneRecords exampleIP exampleRedis "A" "www.example.com." fresh
      = Return ([exampleAnswer], [], err) conn3
      /\ last (sent conn3) = Some (SET_EX "dns:A/www.example.com.:ttl" 300 300)
      /\ err = None
      /\ db conn3 !! "dns:A/www.example.com.:ttl"
         = Some (mkEntry (VString "300") (Some 300)))
  /\ LoadZoneRecords exampleIP exampleRedis "A" "www.example.com." decayed
     = Return ([dns.setTtl 120 exampleAnswer], [], None)
         (afterExec decayed "dns:A/www.example.com." "dns:A/www.example.com.:ttl").
Proof.
  split.
  - destruct (proj1 (LoadZoneRecords_decay exampleIP exampleRedis "A" "www.example.com."
                       fresh "300 IN A 192.0.2.1" None [exampleAnswer] []
                       (afterExec fresh "dns:A/www.example.com."
                          "dns:A/www.example.com.:ttl")
                       eq_refl eq_refl ltac:(discriminate) eq_refl) eq_refl)
      as (_ & first & rest & err & conn3 & Hans & Hload & Hsent & Hdb & _).
    injection Hans as <- <-.
    destruct (Hdb ltac:(reflexivity)) as [-> Hdb'].
    exists None, conn3. repeat split; try assumption.
    + rewrite Hsent. reflexivity.
    + rewrite Hdb'. reflexivity.
  - exact (proj1 (proj2 (proj2 (LoadZoneRecords_decay exampleIP exampleRedis "A"
                       "www.example.com." decayed "300 IN A 192.0.2.1" None
                       [exampleAnswer] []
                       (afterExec decayed "dns:A/www.example.com."
                          "dns:A/www.example.com.:ttl")
                       eq_refl eq_refl ltac:(discriminate) eq_refl)
                    (VString "300") 120 eq_refl ltac:(lia)))).
Defined.

(** C3 as stated fails. A row whose TTL is 0 and that has no TTL key:
    the lookup returns an error and no TTL key is written. An NS row whose
    TTL key is there with 120 seconds left: the lookup sets the TTL key of the
    address row of its name server. A TTL key with 2^32 + 120 seconds left:
    the answer comes back with the TTL 120. *)
Lemma decay_not_as_stated :
  (reply (db zeroRow) (TTL "dns:A/www.example.com.:ttl") = ReplyInt (-2)
   /\ exists answers err conn',
        LoadZoneRecords exampleIP exampleRedis "A" "www.example.com." zeroRow
        = Return (answers, [], Some err) conn'
        /\ db conn' !! "dns:A/www.example.com.:ttl" = None)
  /\ (reply (db delegated) (TTL "dns:NS/example.com.:ttl") = ReplyInt 120
      /\ exists answers extras conn',
           LoadZoneRecords exampleIP exampleRedis "NS" "example.com." delegated
           = Return (answers, extras, None) conn'
           /\ last (sent conn') = Some (SET_EX "dns:A/ns1.example.com.:ttl" 300 300)
           /\ db conn' !! "dns:A/ns1.example.com.:ttl"
              = Some (mkEntry (VString "300") (Some 300)))
  /\ (reply (db longLived) (TTL "dns:A/www.example.com.:ttl") = ReplyInt 4294967416
      /\ exists conn',
           LoadZoneRecords exampleIP exampleRedis "A" "www.example.com." longLived
           = Return ([dns.setTtl 120 exampleAnswer], [], None) conn').
Proof.
  split; [|split].
  - split; [reflexivity|]. eexists _, _, _. split; reflexivity.
  - split; [reflexivity|]. eexists _, _, _.
    split; [reflexivity|]. split; reflexivity.
  - split; [reflexivity|]. eexists. reflexivity.
Qed.

(** *** SOA rows that are too short *)

Ltac number H j :=
  match goal with
  | |- context [Strconv.Atoi ?f] =>
      let E := fresh "E" in
      destruct (Strconv.Atoi f) eqn:E;
      [|exfalso; exact (H j f ltac:(lia) eq_refl E)]
  end.

(** C10, as amended. A row of fewer than 4 fields is refused with an
    error. A row of type SOA with at least 4 and fewer than 10 fields, whose
    TTL and whose numeric fields, as far as they are there, are numbers, makes
    the parser panic with an index out of range. *)
Theorem parseSOA_short_row :
  forall (ParseIP : string -> dns.IP)
         (rec : string -> string -> Conn -> Outcome Results)
         (recordName rData : string) (conn : Conn),
    ((length (Fields rData) < 4)%nat ->
     parseRecordValuesFromString ParseIP rec "SOA" recordName rData conn
     = Return ([], [],
               Some (Errorf "error parsing RData for %s/%s: invalid number of elements"
                       ["SOA"; recordName])) conn)
    /\ ((4 <= length (Fields rData) < 10)%nat ->
        nth_error (Fields rData) 2 = Some "SOA" ->
        (exists f0, nth_error (Fields rData) 0 = Some f0 /\ Strconv.Atoi f0 <> None) ->
        numeric_from 5 (Fields rData) ->
        parseRecordValuesFromString ParseIP rec "SOA" recordName rData conn
        = Panic indexOutOfRange).
Proof.
  intros ParseIP rec recordName rData conn.
  unfold parseRecordValuesFromString. generalize (Fields rData) as fields.
  intros fields. split.
  - intros Hlen. apply Nat.ltb_lt in Hlen. now rewrite Hlen.
  - intros [Hlo Hhi] Htype (f0' & Hf0 & Httl) Hnum.
    destruct (Nat.ltb_spec (length fields) 4) as [|_]; [lia|].
    destruct fields as [|f0 [|f1 [|f2 [|f3 rest]]]]; simpl in Hlo; try lia.
    simpl in Htype, Hf0. injection Htype as ->. injection Hf0 as <-.
    unfold index. cbn [nth_error negb String.eqb Ascii.eqb Bool.eqb].
    destruct (Strconv.Atoi f0) as [ttl|]; [clear Httl | congruence].
    cbn [skipn]. unfold parseSOA, atoiField, index.
    unfold numeric_from in Hnum.
    destruct rest as [|f4 rest]; [reflexivity|].
    destruct rest as [|f5 rest]; [reflexivity|].
    cbn [nth_error]. number Hnum 5%nat.
    destruct rest as [|f6 rest]; [reflexivity|].
    cbn [nth_error]. number Hnum 6%nat.
    destruct rest as [|f7 rest]; [reflexivity|].
    cbn [nth_error]. number Hnum 7%nat.
    destruct rest as [|f8 rest]; [reflexivity|].
    cbn [nth_error]. number Hnum 8%nat.
    destruct rest as [|f9 rest]; [reflexivity|].
    simpl in Hhi. lia.
Qed.

Lemma parseSOA_short_row_witness :
  parseRecordValuesFromString exampleIP (LoadZoneRecords_fuel exampleIP exampleRedis 1)
    "SOA" "example.com." shortRow fresh
  = Panic indexOutOfRange.
Proof.
  apply (proj2 (parseSOA_short_row exampleIP
                  (LoadZoneRecords_fuel exampleIP exampleRedis 1)
                  "example.com." shortRow fresh)).
  - change (length (Fields shortRow)) with 7%nat. lia.
  - reflexivity.
  - exists "300". split; [reflexivity | discriminate].
  - intros j f Hj.
    change (Fields shortRow)
      with ["300"; "IN"; "SOA"; "ns1.example.com."; "hostmaster.example.com.";
            "1"; "7200"].
    do 5 (destruct j as [|j]; [lia|]).
    destruct j as [|j]; [intros H; injection H as <-; discriminate|].
    destruct j as [|j]; [intros H; injection H as <-; discriminate|].
    destruct j; discriminate.
Defined.

(** C10 as stated fails: a SOA row of 6 fields whose serial is not a
    number, and one of 4 fields whose TTL is not a number, are refused with an
    error and do not panic. *)
Lemma short_row_errors :
  let rec := LoadZoneRecords_fuel exampleIP exampleRedis 1 in
  let badSerial := "300 IN SOA ns1.example.com. hostmaster.example.com. abc" in
  let badTtl := "x IN SOA ns1.example.com." in
  (length (Fields badSerial) = 6%nat
   /\ parseRecordValuesFromString exampleIP rec "SOA" "example.com." badSerial fresh
      = Return ([], [], Some (NumError "abc")) fresh)
  /\ (length (Fields badTtl) = 4%nat
      /\ parseRecordValuesFromString exampleIP rec "SOA" "example.com." badTtl fresh
         = Return ([], [],
                   Some (Wrapf "error parsing TTL literal '%s': %s" ["x"]
                           (NumError "x"))) fresh).
Proof. repeat split. Qed.

End RowsFacts.

(** ** More on the location resolver *)

Module LocationMore.

Import Strings Hash HashSpec StringFacts LocationFacts.

Lemma findLocation_loop_member fuel z ce ss ok location :
  findLocation_loop fuel z ce ss ok = Some location ->
  location = "" \/ location ∈ Locations z.
Proof.
  revert ce ss ok. induction fuel as [|fuel IH]; intros ce ss ok; simpl.
  - destruct ok; [discriminate|]. intros H. injection H as <-. now left.
  - destruct ok; [|intros H; injection H as <-; now left].
    destruct (keyMatches ce z || keyExists ce z).
    + unfold keyExists. case_bool_decide as Hin; intros H; injection H as <-; auto.
    + destruct (splitQuery ce) as [[ce' ss'] ok']. apply IH.
Qed.

(** What the resolver returns is no match, or the zone name for the query
    that is the zone name, or a location of the zone; and a relative name
    that is a location is returned as it is, without a search. *)
Theorem findLocation_sound :
  forall (query : string) (z : Zone),
    (findLocation query z = ""
     \/ (query = Name z /\ findLocation query z = Name z)
     \/ findLocation query z ∈ Locations z)
    /\ (forall rel : string,
          rel ∈ Locations z -> findLocation (rel ++ "." ++ Name z) z = rel).
Proof.
  intros query z. split.
  - destruct (findLocation_opt_total query z) as [location Hopt].
    rewrite (findLocation_Some _ _ _ Hopt).
    unfold findLocation_opt, findLocation_fuel in Hopt.
    destruct (String.eqb_spec query (Name z)) as [Heq|_].
    + injection Hopt as <-. auto.
    + case_bool_decide as Hin.
      * injection Hopt as <-. auto.
      * destruct (splitQuery _) as [[ce ss] ok].
        apply findLocation_loop_member in Hopt. tauto.
  - intros rel Hin. destruct z as [name locs]. simpl in *.
    apply findLocation_Some. rewrite findLocation_relative.
    now rewrite bool_decide_eq_true_2.
Qed.

Lemma findLocation_sound_witness :
  findLocation ("www" ++ "." ++ "example.com.")
    (mkZone "example.com." ({["www"]} ∪ {["*"]})) = "www".
Proof.
  apply (proj2 (findLocation_sound "" (mkZone "example.com." ({["www"]} ∪ {["*"]})))).
  apply elem_of_union_l, elem_of_singleton. reflexivity.
Defined.

End LocationMore.

(** ** Writing a label and reading it back *)

Module StoreMore.

Import Strings Hash HashSpec.

(** The locations [load] collects are the fields it was given. *)
Lemma load_locations (vals : list string) (acc : gset string) (l : string) :
  l ∈ fold_left (fun locations val => {[val]} ∪ locations) vals acc
  <-> l ∈ vals \/ l ∈ acc.
Proof.
  revert acc. induction vals as [|v vals IH]; intros acc; simpl.
  - split; [auto | intros [H|H]; [inversion H | exact H]].
  - rewrite IH, elem_of_union, elem_of_singleton, elem_of_cons. tauto.
Qed.

Lemma load_Some redis conn zone :
  Pool redis = Some conn -> failure conn = None ->
  (forall s, db conn !! redisKey redis zone <> Some (VString s)) ->
  exists z, load redis zone = Some z /\ Name z = zone
            /\ forall l, l ∈ Locations z
                         <-> exists h, db conn !! redisKey redis zone = Some (VHash h)
                                       /\ is_Some (h !! l).
Proof.
  intros Hp Hf Hs. unfold load, Do_HKEYS. rewrite Hp, Hf. fold (redisKey redis zone).
  destruct (db conn !! redisKey redis zone) as [[s|h]|] eqn:E.
  - now elim (Hs s).
  - eexists. split; [reflexivity|]. split; [reflexivity|]. intros l. simpl.
    rewrite load_locations, elem_of_elements, elem_of_dom. split.
    + intros [H|H]; [eauto | set_solver].
    + intros (h' & Hh & Hl). injection Hh as <-. auto.
  - eexists. split; [reflexivity|]. split; [reflexivity|]. intros l. simpl.
    split; [set_solver | intros (h & Hh & _); discriminate].
Qed.

Lemma located z zone subdomain :
  Name z = zone -> subdomain ∈ Locations z ->
  findLocation (subdomain ++ "." ++ zone) z = subdomain.
Proof.
  destruct z as [name locs]. simpl. intros -> Hin.
  apply LocationFacts.findLocation_Some. rewrite LocationFacts.findLocation_relative.
  now rewrite bool_decide_eq_true_2.
Qed.

(** On a live link, for a key that holds a hash or nothing: [save]
    succeeds; afterwards [get] of the label decodes the text that was saved,
    [get] of every other label is as before, [load] of the zone has the label
    among its locations beside the ones it had, so that the resolver finds
    the label for the name made of it and the zone name, and every other zone
    loads as before. *)
Theorem save_then_read :
  forall (Unmarshal : string -> option Rec.t) (redis : Redis) (conn : Conn)
         (zone subdomain value : string),
    Pool redis = Some conn ->
    failure conn = None ->
    (forall s, db conn !! redisKey redis zone <> Some (VString s)) ->
    fst (save redis zone subdomain value) = None
    /\ (forall locations key,
          label key (mkZone zone locations) = subdomain ->
          get Unmarshal (snd (save redis zone subdomain value)) key
            (mkZone zone locations) = Unmarshal value)
    /\ (forall locations key,
          label key (mkZone zone locations) <> subdomain ->
          get Unmarshal (snd (save redis zone subdomain value)) key
            (mkZone zone locations)
          = get Unmarshal redis key (mkZone zone locations))
    /\ (exists z z',
          load redis zone = Some z
          /\ load (snd (save redis zone subdomain value)) zone = Some z'
          /\ Name z' = zone
          /\ (forall l, l ∈ Locations z' <-> l = subdomain \/ l ∈ Locations z)
          /\ findLocation (subdomain ++ "." ++ zone) z' = subdomain)
    /\ (forall zone',
          redisKey redis zone' <> redisKey redis zone ->
          load (snd (save redis zone subdomain value)) zone' = load redis zone').
Proof.
  intros Unmarshal redis conn zone subdomain value Hp Hf Hs.
  destruct (load_Some redis conn zone Hp Hf Hs) as (z & Hz & Hname & Hlocs).
  unfold save, Do_HSET. rewrite Hp, Hf. unfold redisKey in *.
  set (key := (keyPrefix redis ++ zone ++ keySuffix redis)%string) in *.
  destruct (db conn !! key) as [[s|h]|] eqn:E; [now elim (Hs s)| |]; simpl.
  - (* the hash is there *)
    split; [reflexivity|]. split; [|split; [|split]].
    + intros locations k Hl. unfold get, Do_HGET. simpl. fold key.
      rewrite lookup_insert_eq, Hl, lookup_insert_eq. simpl.
      now destruct (Unmarshal value).
    + intros locations k Hl. unfold get, Do_HGET. simpl. rewrite Hp, Hf. fold key.
      rewrite lookup_insert_eq, E, lookup_insert_ne by congruence. reflexivity.
    + exists z. eexists. split; [exact Hz|].
      unfold load, Do_HKEYS at 1. simpl. fold key. rewrite lookup_insert_eq.
      split; [reflexivity|]. split; [reflexivity|].
      match goal with |- ?P /\ _ => assert (Hiff : P) end.
      { intros l. simpl.
        rewrite load_locations, elem_of_elements, dom_insert_L, Hlocs.
        rewrite elem_of_union, elem_of_singleton, elem_of_dom. split.
        * intros [[H|H]|H]; [auto | right; eauto | set_solver].
        * intros [H | (h' & Hh & Hl)]; [auto|]. injection Hh as <-. auto. }
      split; [exact Hiff|]. apply located; [reflexivity | apply Hiff; now left].
    + intros zone' Hne. unfold load, Do_HKEYS. simpl. rewrite Hp, Hf.
      now rewrite lookup_insert_ne by congruence.
  - (* the key is new *)
    split; [reflexivity|]. split; [|split; [|split]].
    + intros locations k Hl. unfold get, Do_HGET. simpl. fold key.
      rewrite lookup_insert_eq, Hl, lookup_singleton_eq. simpl.
      now destruct (Unmarshal value).
    + intros locations k Hl. unfold get, Do_HGET. simpl. rewrite Hp, Hf. fold key.
      rewrite lookup_insert_eq, E, lookup_singleton_ne by congruence. reflexivity.
    + exists z. eexists. split; [exact Hz|].
      unfold load, Do_HKEYS at 1. simpl. fold key. rewrite lookup_insert_eq.
      split; [reflexivity|]. split; [reflexivity|].
      match goal with |- ?P /\ _ => assert (Hiff : P) end.
      { intros l. simpl.
        rewrite load_locations, elem_of_elements, dom_singleton_L, Hlocs.
        rewrite elem_of_singleton. split.
        * intros [H|H]; [auto | set_solver].
        * intros [H | (h' & Hh & _)]; [auto | discriminate]. }
      split; [exact Hiff|]. apply located; [reflexivity | apply Hiff; now left].
    + intros zone' Hne. unfold load, Do_HKEYS. simpl. rewrite Hp, Hf.
      now rewrite lookup_insert_ne by congruence.
Qed.

(** The hypotheses of [save_then_read] hold of the sample link whose hash
    has no field yet. *)
Lemma save_then_read_witness :
  fst (save ErrorSamples.absent "example.com." "www" ErrorSamples.wwwText) = None.
Proof.
  exact (proj1 (save_then_read ErrorSamples.decode ErrorSamples.absent
                  (mkConn None {["example.com." := VHash ∅]}
                     (fun _ => mkScanRaw "0" []))
                  "example.com." "www" ErrorSamples.wwwText eq_refl eq_refl
                  ltac:(intros s; vm_compute; discriminate))).
Defined.

End StoreMore.

(** ** Zone enumeration without a prefix and a suffix *)

Module CatalogMore.

Import Strings Hash HashSpec CatalogSamples.

Ltac same_set :=
  apply set_eq; intros ?;
  rewrite ?elem_of_union, ?elem_of_singleton, ?elem_of_union, ?elem_of_singleton;
  intuition (subst; auto).

Lemma firsts_app seen (a b : list string) :
  firsts seen (a ++ b) = (firsts seen a ++ firsts (list_to_set a ∪ seen) b)%list.
Proof.
  revert seen. induction a as [|x a IH]; intros seen; simpl.
  - f_equal. symmetry. apply (left_id_L ∅ (∪)).
  - case_bool_decide as Hin.
    + rewrite IH. do 2 f_equal. same_set.
    + simpl. rewrite IH. do 3 f_equal. same_set.
Qed.

Lemma firsts_elem seen l k : k ∈ firsts seen l <-> k ∈ l /\ k ∉ seen.
Proof.
  revert seen. induction l as [|x l IH]; intros seen; simpl.
  - split; [intros H; inversion H | intros [H _]; inversion H].
  - case_bool_decide as Hin.
    + rewrite IH, elem_of_cons. split; [tauto|].
      intros [[->|H] Hk]; [contradiction | auto].
    + rewrite !elem_of_cons, IH, not_elem_of_union, elem_of_singleton.
      destruct (decide (k = x)) as [->|Hne]; tauto.
Qed.

Lemma firsts_NoDup seen l : NoDup (firsts seen l).
Proof.
  revert seen. induction l as [|x l IH]; intros seen; simpl.
  - constructor.
  - case_bool_decide as Hin; [apply IH|].
    constructor; [|apply IH]. rewrite firsts_elem, not_elem_of_union, elem_of_singleton.
    tauto.
Qed.

Lemma TrimPrefix_empty s : TrimPrefix s "" = s.
Proof. unfold TrimPrefix. now destruct s. Qed.

Section Plain.

Variable redis : Redis.
Hypothesis no_prefix : keyPrefix redis = "".
Hypothesis no_suffix : keySuffix redis = "".

Lemma LoadZones_range_plain ks zones seen :
  LoadZones_range redis ks zones seen
  = ((zones ++ firsts seen ks)%list, list_to_set ks ∪ seen).
Proof.
  revert zones seen. induction ks as [|k ks IH]; intros zones seen; simpl.
  - rewrite app_nil_r. f_equal. symmetry. apply (left_id_L ∅ (∪)).
  - rewrite no_prefix, no_suffix.
    rewrite !TrimPrefix_empty.
    case_bool_decide as Hin.
    + rewrite IH. f_equal. same_set.
    + rewrite IH, <- app_assoc. simpl. f_equal. same_set.
Qed.

Lemma LoadZones_loop_plain fuel conn cur zones seen :
  LoadZones_loop fuel redis conn cur zones seen
  = match pages_end fuel conn cur with
    | PagesRead => ScanDone (zones ++ firsts seen (scanned fuel conn cur))%list
    | PagesFailed => ScanAborted
    | PagesLeft => ScanOutOfFuel
    end.
Proof.
  revert cur zones seen. induction fuel as [|fuel IH]; intros cur zones seen;
    simpl; [reflexivity|].
  destruct (Do_SCAN conn cur) as [reply|err]; [|reflexivity].
  destruct (decodeScanReply reply) as [scanReply|]; [|reflexivity].
  rewrite LoadZones_range_plain, firsts_app.
  destruct (cursor scanReply =? 0).
  - simpl. now rewrite app_nil_r.
  - rewrite IH. destruct (pages_end fuel conn (cursor scanReply)); try reflexivity.
    now rewrite <- app_assoc.
Qed.

End Plain.

(** Pages that have ended are the same with more fuel. *)
Lemma pages_end_more fuel more conn cur :
  pages_end fuel conn cur <> PagesLeft ->
  pages_end (fuel + more) conn cur = pages_end fuel conn cur
  /\ scanned (fuel + more) conn cur = scanned fuel conn cur.
Proof.
  revert cur. induction fuel as [|fuel IH]; intros cur; simpl; [congruence|].
  destruct (Do_SCAN conn cur) as [reply|err]; [|auto].
  destruct (decodeScanReply reply) as [scanReply|]; [|auto].
  destruct (cursor scanReply =? 0); [auto|].
  intros H. destruct (IH _ H) as [-> ->]. auto.
Qed.

(** [LoadZones] with no key prefix and no key suffix, on the connection
    the pool hands out. When the pages of the scan end with the cursor [0],
    the zone list becomes the scanned keys, each once, in the order of their
    first occurrence, whatever the pages they came on, and the time and the
    key count are recorded. When a SCAN or the decoding of its reply fails,
    the [Redis] value is left as it was. The refresh does not end as long as
    pages are left; once the pages have ended, its result is the same however
    many more pages the loop is allowed. *)
Theorem LoadZones_plain :
  forall (fuel : nat) (now : Z) (redis : Redis) (conn : Conn),
    keyPrefix redis = "" ->
    keySuffix redis = "" ->
    Pool redis = Some conn ->
    LoadZones fuel now redis
    = match pages_end fuel conn 0 with
      | PagesRead =>
          Some (mkRedis (Pool redis) (keyPrefix redis) (keySuffix redis) (Ttl redis)
                  (firsts ∅ (scanned fuel conn 0)) now (KeyCount redis))
      | PagesFailed => Some redis
      | PagesLeft => None
      end
    /\ NoDup (firsts ∅ (scanned fuel conn 0))
    /\ (forall k, k ∈ firsts ∅ (scanned fuel conn 0) <-> k ∈ scanned fuel conn 0)
    /\ (pages_end fuel conn 0 <> PagesLeft ->
        forall more, LoadZones (fuel + more) now redis = LoadZones fuel now redis).
Proof.
  intros fuel now redis conn Hp Hs Hpool.
  assert (Hload : forall n,
             LoadZones n now redis
             = match pages_end n conn 0 with
               | PagesRead =>
                   Some (mkRedis (Pool redis) (keyPrefix redis) (keySuffix redis)
                           (Ttl redis) (firsts ∅ (scanned n conn 0)) now
                           (KeyCount redis))
               | PagesFailed => Some redis
               | PagesLeft => None
               end).
  { intros n. unfold LoadZones. rewrite Hpool.
    rewrite (LoadZones_loop_plain redis Hp Hs).
    now destruct (pages_end n conn 0). }
  split; [apply Hload|]. split; [apply firsts_NoDup|]. split.
  - intros k. rewrite firsts_elem. split; [tauto|]. intros H. split; [exact H|].
    apply not_elem_of_empty.
  - intros Hend more. rewrite !Hload.
    destruct (pages_end_more fuel more conn 0 Hend) as [-> ->]. reflexivity.
Qed.

Lemma LoadZones_plain_witness :
  LoadZones 3 1700000000 (paged "" "")
  = Some (mkRedis (Pool (paged "" "")) "" "" 0
            ["dns:example.com.:z"; "dns:example.org.:z"] 1700000000 0).
Proof.
  exact (proj1 (LoadZones_plain 3 1700000000 (paged "" "") (mkConn None ∅ pages)
                  eq_refl eq_refl eq_refl)).
Defined.

End CatalogMore.

(** ** The synthesizers as maps over the stored entries *)

Module SynthMore.

Import Strings Hash HashSpec.

(** A [range] loop that skips some entries and appends an answer and glue
    for each of the others. *)
Lemma range_map {X : Type} (f : RRs -> X -> RRs) (keep : X -> bool)
      (mk : X -> dns.RR) (glue : X -> list dns.RR) :
  (forall answers extras x,
      f (answers, extras) x
      = if keep x then ((answers ++ [mk x])%list, (extras ++ glue x)%list)
        else (answers, extras)) ->
  forall l answers extras,
    fold_left f l (answers, extras)
    = ((answers ++ map mk (List.filter keep l))%list,
       (extras ++ flat_map glue (List.filter keep l))%list).
Proof.
  intros Hf. induction l as [|x l IH]; intros answers extras; simpl.
  - now rewrite !app_nil_r.
  - rewrite Hf. destruct (keep x); [|apply IH].
    rewrite IH. simpl. now rewrite <- !app_assoc.
Qed.

Lemma range_map_nil {X : Type} (f : RRs -> X -> RRs) (keep : X -> bool)
      (mk : X -> dns.RR) (glue : X -> list dns.RR) (l : list X) :
  (forall answers extras x,
      f (answers, extras) x
      = if keep x then ((answers ++ [mk x])%list, (extras ++ glue x)%list)
        else (answers, extras)) ->
  fold_left f l ([], [])
  = (map mk (List.filter keep l), flat_map glue (List.filter keep l)).
Proof. intros Hf. now rewrite (range_map f keep mk glue Hf). Qed.

Lemma flat_map_nil {X : Type} (l : list X) :
  flat_map (fun _ : X => @nil dns.RR) l = [].
Proof. induction l; simpl; auto. Qed.

Section Maps.

Variable redis : Redis.
Variable name : string.
Variable z : Zone.
Variable record : Rec.t.

Lemma A_map :
  A redis name z (Some record)
  = (map (fun a => dns.mkRR (hdr name dns.TypeA (minTtl redis (A_Record.Ttl a)))
                     (dns.A (A_Record.Ip a)))
       (List.filter (fun a => present (A_Record.Ip a)) (Rec.A record)), []).
Proof.
  unfold A.
  rewrite (range_map _ (fun a => present (A_Record.Ip a))
             (fun a => dns.mkRR (hdr name dns.TypeA (minTtl redis (A_Record.Ttl a)))
                        (dns.A (A_Record.Ip a)))
             (fun _ => [])).
  - simpl. now rewrite flat_map_nil.
  - intros answers extras x. destruct (A_Record.Ip x); simpl;
      [now rewrite app_nil_r | reflexivity].
Qed.

Lemma AAAA_map :
  AAAA redis name z (Some record)
  = (map (fun a => dns.mkRR (hdr name dns.TypeAAAA (minTtl redis (AAAA_Record.Ttl a)))
                     (dns.AAAA (AAAA_Record.Ip a)))
       (List.filter (fun a => present (AAAA_Record.Ip a)) (Rec.AAAA record)), []).
Proof.
  unfold AAAA.
  rewrite (range_map _ (fun a => present (AAAA_Record.Ip a))
             (fun a => dns.mkRR (hdr name dns.TypeAAAA (minTtl redis (AAAA_Record.Ttl a)))
                        (dns.AAAA (AAAA_Record.Ip a)))
             (fun _ => [])).
  - simpl. now rewrite flat_map_nil.
  - intros answers extras x. destruct (AAAA_Record.Ip x); simpl;
      [now rewrite app_nil_r | reflexivity].
Qed.

Lemma CNAME_map :
  CNAME redis name z (Some record)
  = (map (fun c => dns.mkRR (hdr name dns.TypeCNAME (minTtl redis (CNAME_Record.Ttl c)))
                     (dns.CNAME (dns.Fqdn (CNAME_Record.Host c))))
       (List.filter (fun c => filled (CNAME_Record.Host c)) (Rec.CNAME record)), []).
Proof.
  unfold CNAME.
  rewrite (range_map _ (fun c => filled (CNAME_Record.Host c))
             (fun c => dns.mkRR (hdr name dns.TypeCNAME (minTtl redis (CNAME_Record.Ttl c)))
                        (dns.CNAME (dns.Fqdn (CNAME_Record.Host c))))
             (fun _ => [])).
  - simpl. now rewrite flat_map_nil.
  - intros answers extras x. unfold filled. destruct (_ =? _)%nat; simpl;
      [reflexivity | now rewrite app_nil_r].
Qed.

Lemma TXT_map :
  TXT redis name z (Some record)
  = (map (fun t => dns.mkRR (hdr name dns.TypeTXT (minTtl redis (TXT_Record.Ttl t)))
                     (dns.TXT (split255 (TXT_Record.Text t))))
       (List.filter (fun t => filled (TXT_Record.Text t)) (Rec.TXT record)), []).
Proof.
  unfold TXT.
  rewrite (range_map _ (fun t => filled (TXT_Record.Text t))
             (fun t => dns.mkRR (hdr name dns.TypeTXT (minTtl redis (TXT_Record.Ttl t)))
                        (dns.TXT (split255 (TXT_Record.Text t))))
             (fun _ => [])).
  - simpl. now rewrite flat_map_nil.
  - intros answers extras x. unfold filled. destruct (_ =? _)%nat; simpl;
      [reflexivity | now rewrite app_nil_r].
Qed.

Lemma CAA_map :
  CAA redis name z (Some record)
  = (map (fun c => dns.mkRR (hdr name dns.TypeCAA 0)
                     (dns.CAA (CAA_Record.Flag c) (CAA_Record.Tag c)
                        (CAA_Record.Value c)))
       (List.filter (fun c => negb (String.eqb (CAA_Record.Value c) "")
                              && negb (String.eqb (CAA_Record.Tag c) ""))
          (Rec.CAA record)), []).
Proof.
  unfold CAA.
  rewrite (range_map _ (fun c => negb (String.eqb (CAA_Record.Value c) "")
                         && negb (String.eqb (CAA_Record.Tag c) ""))
             (fun c => dns.mkRR (hdr name dns.TypeCAA 0)
                        (dns.CAA (CAA_Record.Flag c) (CAA_Record.Tag c)
                           (CAA_Record.Value c)))
             (fun _ => [])).
  - simpl. now rewrite flat_map_nil.
  - intros answers extras x.
    destruct (String.eqb (CAA_Record.Value x) ""), (String.eqb (CAA_Record.Tag x) "");
      simpl; try reflexivity; now rewrite app_nil_r.
Qed.

End Maps.

(** The synthesizers without glue. For a record that is there, [A] and
    [AAAA] give one answer for each entry with an address, [CNAME] and [TXT]
    one for each entry with a non-empty host or text, [CAA] one for each entry
    with a non-empty tag and value, in the stored order and with no extras;
    the strings of a TXT answer, joined, are the stored text. *)
Theorem plain_synthesis :
  forall (redis : Redis) (name : string) (z : Zone) (record : Rec.t),
    A redis name z (Some record)
    = (map (fun a => dns.mkRR (hdr name dns.TypeA (minTtl redis (A_Record.Ttl a)))
                       (dns.A (A_Record.Ip a)))
         (List.filter (fun a => present (A_Record.Ip a)) (Rec.A record)), [])
    /\ AAAA redis name z (Some record)
       = (map (fun a => dns.mkRR (hdr name dns.TypeAAAA (minTtl redis (AAAA_Record.Ttl a)))
                          (dns.AAAA (AAAA_Record.Ip a)))
            (List.filter (fun a => present (AAAA_Record.Ip a)) (Rec.AAAA record)), [])
    /\ CNAME redis name z (Some record)
       = (map (fun c => dns.mkRR (hdr name dns.TypeCNAME (minTtl redis (CNAME_Record.Ttl c)))
                          (dns.CNAME (dns.Fqdn (CNAME_Record.Host c))))
            (List.filter (fun c => filled (CNAME_Record.Host c)) (Rec.CNAME record)), [])
    /\ TXT redis name z (Some record)
       = (map (fun t => dns.mkRR (hdr name dns.TypeTXT (minTtl redis (TXT_Record.Ttl t)))
                          (dns.TXT (split255 (TXT_Record.Text t))))
            (List.filter (fun t => filled (TXT_Record.Text t)) (Rec.TXT record)), [])
    /\ CAA redis name z (Some record)
       = (map (fun c => dns.mkRR (hdr name dns.TypeCAA 0)
                          (dns.CAA (CAA_Record.Flag c) (CAA_Record.Tag c)
                             (CAA_Record.Value c)))
            (List.filter (fun c => negb (String.eqb (CAA_Record.Value c) "")
                                   && negb (String.eqb (CAA_Record.Tag c) ""))
               (Rec.CAA record)), [])
    /\ (forall rr txt,
          In rr (fst (TXT redis name z (Some record))) ->
          dns.Data rr = dns.TXT txt ->
          exists t, In t (Rec.TXT record) /\ TXT_Record.Text t <> ""
                    /\ String.concat "" txt = TXT_Record.Text t
                    /\ Forall short txt).
Proof.
  intros redis name z record.
  repeat (split; [first [apply A_map | apply AAAA_map | apply CNAME_map
                        | apply TXT_map | apply CAA_map]|]).
  rewrite TXT_map. simpl.
  intros rr txt Hin Hdata. apply in_map_iff in Hin. destruct Hin as (t & <- & Ht).
  apply filter_In in Ht. destruct Ht as [Ht Hfilled].
  simpl in Hdata. injection Hdata as <-.
  exists t. split; [exact Ht|]. split.
  - unfold filled in Hfilled. intros E. rewrite E in Hfilled. discriminate.
  - pose proof (ChunkFacts.split255_chunks (TXT_Record.Text t)) as (_ & Hc & Hs). auto.
Qed.

(** The synthesizers with glue. For a record that is there, [NS], [MX]
    and [SRV] give one answer for each entry with a non-empty target, in the
    stored order, and as extras what [hosts] finds for each of these targets,
    in the same order; [hosts] finds nothing for a name the resolver has no
    match for, and only address and alias records otherwise. *)
Theorem glue_synthesis :
  forall (Unmarshal : string -> option Rec.t) (redis : Redis) (name : string)
         (z : Zone) (record : Rec.t),
    NS Unmarshal redis name z (Some record)
    = (map (fun ns => dns.mkRR (hdr name dns.TypeNS (minTtl redis (NS_Record.Ttl ns)))
                        (dns.NS (NS_Record.Host ns)))
         (List.filter (fun ns => filled (NS_Record.Host ns)) (Rec.NS record)),
       flat_map (fun ns => hosts Unmarshal redis (NS_Record.Host ns) z)
         (List.filter (fun ns => filled (NS_Record.Host ns)) (Rec.NS record)))
    /\ MX Unmarshal redis name z (Some record)
       = (map (fun mx => dns.mkRR (hdr name dns.TypeMX (minTtl redis (MX_Record.Ttl mx)))
                           (dns.MX (MX_Record.Preference mx) (MX_Record.Host mx)))
            (List.filter (fun mx => filled (MX_Record.Host mx)) (Rec.MX record)),
          flat_map (fun mx => hosts Unmarshal redis (MX_Record.Host mx) z)
            (List.filter (fun mx => filled (MX_Record.Host mx)) (Rec.MX record)))
    /\ SRV Unmarshal redis name z (Some record)
       = (map (fun srv => dns.mkRR (hdr name dns.TypeSRV (minTtl redis (SRV_Record.Ttl srv)))
                            (dns.SRV (SRV_Record.Priority srv) (SRV_Record.Weight srv)
                               (SRV_Record.Port srv) (SRV_Record.Target srv)))
            (List.filter (fun srv => filled (SRV_Record.Target srv)) (Rec.SRV record)),
          flat_map (fun srv => hosts Unmarshal redis (SRV_Record.Target srv) z)
            (List.filter (fun srv => filled (SRV_Record.Target srv)) (Rec.SRV record)))
    /\ (forall host, findLocation host z = "" -> hosts Unmarshal redis host z = [])
    /\ (forall host,
          Forall (has_type [dns.TypeA; dns.TypeAAAA; dns.TypeCNAME])
            (hosts Unmarshal redis host z)).
Proof.
  intros Unmarshal redis name z record. split; [|split; [|split; [|split]]].
  - unfold NS. apply range_map_nil.
    intros answers extras x. unfold filled. now destruct (_ =? _)%nat.
  - unfold MX. apply range_map_nil.
    intros answers extras x. unfold filled. now destruct (_ =? _)%nat.
  - unfold SRV. apply range_map_nil.
    intros answers extras x. unfold filled. now destruct (_ =? _)%nat.
  - intros host H. unfold hosts. now rewrite H.
  - intros host. apply TransferFacts.hosts_typed.
Qed.

End SynthMore.

(** ** The TTL of a synthesized record *)

Module SynthTtl.

Import Strings Hash HashSpec HashSamples.

Lemma policy_hdr redis name rrtype stored data :
  policy_ttl redis stored (dns.mkRR (hdr name rrtype (minTtl redis stored)) data).
Proof.
  split; [reflexivity|]. split.
  - apply TtlFacts.minTtl_nonzero.
  - intros -> Hz. simpl. rewrite TtlFacts.minTtl_cases, Hz. reflexivity.
Qed.

(** The records made of the entries that are kept carry, entry by entry,
    what the policy makes of the entry's TTL. *)
Lemma policy_map {X : Type} redis (stored : X -> Z) (mk : X -> dns.RR) (l : list X) :
  (forall x, policy_ttl redis (stored x) (mk x)) ->
  Forall2 (fun x rr => policy_ttl redis (stored x) rr) l (map mk l).
Proof. intros H. induction l; simpl; constructor; auto. Qed.

Section Glue.

Variable Unmarshal : string -> option Rec.t.
Variable redis : Redis.
Variable z : Zone.

Lemma NS_map name record :
  NS Unmarshal redis name z (Some record)
  = (map (fun ns => dns.mkRR (hdr name dns.TypeNS (minTtl redis (NS_Record.Ttl ns)))
                      (dns.NS (NS_Record.Host ns)))
       (List.filter (fun ns => filled (NS_Record.Host ns)) (Rec.NS record)),
     flat_map (fun ns => hosts Unmarshal redis (NS_Record.Host ns) z)
       (List.filter (fun ns => filled (NS_Record.Host ns)) (Rec.NS record))).
Proof.
  unfold NS. apply SynthMore.range_map_nil.
  intros answers extras x. unfold filled. now destruct (_ =? _)%nat.
Qed.

Lemma MX_map name record :
  MX Unmarshal redis name z (Some record)
  = (map (fun mx => dns.mkRR (hdr name dns.TypeMX (minTtl redis (MX_Record.Ttl mx)))
                      (dns.MX (MX_Record.Preference mx) (MX_Record.Host mx)))
       (List.filter (fun mx => filled (MX_Record.Host mx)) (Rec.MX record)),
     flat_map (fun mx => hosts Unmarshal redis (MX_Record.Host mx) z)
       (List.filter (fun mx => filled (MX_Record.Host mx)) (Rec.MX record))).
Proof.
  unfold MX. apply SynthMore.range_map_nil.
  intros answers extras x. unfold filled. now destruct (_ =? _)%nat.
Qed.

Lemma SRV_map name record :
  SRV Unmarshal redis name z (Some record)
  = (map (fun srv => dns.mkRR (hdr name dns.TypeSRV (minTtl redis (SRV_Record.Ttl srv)))
                       (dns.SRV (SRV_Record.Priority srv) (SRV_Record.Weight srv)
                          (SRV_Record.Port srv) (SRV_Record.Target srv)))
       (List.filter (fun srv => filled (SRV_Record.Target srv)) (Rec.SRV record)),
     flat_map (fun srv => hosts Unmarshal redis (SRV_Record.Target srv) z)
       (List.filter (fun srv => filled (SRV_Record.Target srv)) (Rec.SRV record))).
Proof.
  unfold SRV. apply SynthMore.range_map_nil.
  intros answers extras x. unfold filled. now destruct (_ =? _)%nat.
Qed.

Lemma in_glue {X : Type} (target : X -> string) (l : list X) rr :
  In rr (flat_map (fun x => hosts Unmarshal redis (target x) z) l) ->
  exists host, In rr (hosts Unmarshal redis host z).
Proof. intros H. apply in_flat_map in H. destruct H as (x & _ & H). eauto. Qed.

(** A glue record is made of an address or alias entry of the record of
    its host. *)
Lemma hosts_policy host rr :
  In rr (hosts Unmarshal redis host z) ->
  exists glue stored,
    get Unmarshal redis (findLocation host z) z = Some glue
    /\ In stored (address_ttls glue)
    /\ policy_ttl redis stored rr.
Proof.
  unfold hosts. destruct (String.eqb _ _); [intros []|].
  destruct (get Unmarshal redis (findLocation host z) z) as [glue|]; [|intros []].
  rewrite SynthMore.A_map, SynthMore.AAAA_map, SynthMore.CNAME_map. simpl.
  rewrite !in_app_iff, !in_map_iff. unfold address_ttls.
  intros [[(a & <- & Ha) | (a & <- & Ha)] | (c & <- & Hc)];
    apply filter_In in Ha || apply filter_In in Hc.
  - exists glue, (A_Record.Ttl a). split; [reflexivity|]. split; [|apply policy_hdr].
    apply in_or_app. left. apply in_map. tauto.
  - exists glue, (AAAA_Record.Ttl a). split; [reflexivity|]. split; [|apply policy_hdr].
    apply in_or_app. right. apply in_or_app. left. apply in_map. tauto.
  - exists glue, (CNAME_Record.Ttl c). split; [reflexivity|]. split; [|apply policy_hdr].
    apply in_or_app. right. apply in_or_app. right. apply in_map. tauto.
Qed.

End Glue.

(** C9, as amended. The answers that A, AAAA, CNAME, TXT, NS, MX and SRV
    synthesize are, entry by entry of the stored entries that are not
    skipped, records whose TTL is what the policy makes of the TTL stored in
    that entry; the extras of NS, MX and SRV are glue records, and a glue
    record carries what the policy makes of the TTL stored in an address or
    alias entry of the record of its host; the one SOA record built from
    stored SOA data carries what the policy makes of the stored SOA TTL. Such
    a TTL is never zero, and it is 360 when the stored TTL and the zone
    ceiling are both zero. The one SOA record built without stored SOA data
    carries the zone ceiling as it is. *)
Theorem synthesized_ttl_nonzero :
  forall (Unmarshal : string -> option Rec.t) (redis : Redis) (now : Z)
         (name : string) (z : Zone) (record : Rec.t),
    Forall2 (fun a rr => policy_ttl redis (A_Record.Ttl a) rr)
      (List.filter (fun a => present (A_Record.Ip a)) (Rec.A record))
      (fst (A redis name z (Some record)))
    /\ Forall2 (fun a rr => policy_ttl redis (AAAA_Record.Ttl a) rr)
         (List.filter (fun a => present (AAAA_Record.Ip a)) (Rec.AAAA record))
         (fst (AAAA redis name z (Some record)))
    /\ Forall2 (fun c rr => policy_ttl redis (CNAME_Record.Ttl c) rr)
         (List.filter (fun c => filled (CNAME_Record.Host c)) (Rec.CNAME record))
         (fst (CNAME redis name z (Some record)))
    /\ Forall2 (fun t rr => policy_ttl redis (TXT_Record.Ttl t) rr)
         (List.filter (fun t => filled (TXT_Record.Text t)) (Rec.TXT record))
         (fst (TXT redis name z (Some record)))
    /\ Forall2 (fun ns rr => policy_ttl redis (NS_Record.Ttl ns) rr)
         (List.filter (fun ns => filled (NS_Record.Host ns)) (Rec.NS record))
         (fst (NS Unmarshal redis name z (Some record)))
    /\ Forall2 (fun mx rr => policy_ttl redis (MX_Record.Ttl mx) rr)
         (List.filter (fun mx => filled (MX_Record.Host mx)) (Rec.MX record))
         (fst (MX Unmarshal redis name z (Some record)))
    /\ Forall2 (fun srv rr => policy_ttl redis (SRV_Record.Ttl srv) rr)
         (List.filter (fun srv => filled (SRV_Record.Target srv)) (Rec.SRV record))
         (fst (SRV Unmarshal redis name z (Some record)))
    /\ (forall rr,
          In rr (snd (A redis name z (Some record))
                 ++ snd (AAAA redis name z (Some record))
                 ++ snd (CNAME redis name z (Some record))
                 ++ snd (TXT redis name z (Some record))) -> False)
    /\ (forall rr,
          In rr (snd (NS Unmarshal redis name z (Some record))
                 ++ snd (MX Unmarshal redis name z (Some record))
                 ++ snd (SRV Unmarshal redis name z (Some record))) ->
          exists host glue stored,
            In rr (hosts Unmarshal redis host z)
            /\ get Unmarshal redis (findLocation host z) z = Some glue
            /\ In stored (address_ttls glue)
            /\ policy_ttl redis stored rr)
    /\ (SOA_Record.Ns (Rec.SOA record) <> "" ->
        exists rr,
          fst (SOA redis now name z (Some record)) = [rr]
          /\ policy_ttl redis (SOA_Record.Ttl (Rec.SOA record)) rr)
    /\ (SOA_Record.Ns (Rec.SOA record) = "" ->
        exists rr,
          fst (SOA redis now name z (Some record)) = [rr]
          /\ dns.Ttl (dns.Hdr rr) = Ttl redis).
Proof.
  intros Unmarshal redis now name z record.
  rewrite SynthMore.A_map, SynthMore.AAAA_map, SynthMore.CNAME_map, SynthMore.TXT_map,
    NS_map, MX_map, SRV_map.
  cbn [fst snd].
  repeat (split; [apply policy_map; intros x; apply policy_hdr|]).
  split; [intros rr []|]. split; [|split].
  - intros rr Hin. rewrite !in_app_iff in Hin.
    assert (Hh : exists host, In rr (hosts Unmarshal redis host z))
      by (destruct Hin as [H | [H | H]]; eapply in_glue; exact H).
    destruct Hh as (host & Hh).
    destruct (hosts_policy _ _ _ _ _ Hh) as (glue & stored & Hg & Hs & Hp).
    exists host, glue, stored. auto.
  - intros Hns. apply String.eqb_neq in Hns. simpl. rewrite Hns.
    eexists. split; [reflexivity | apply policy_hdr].
  - intros Hns. apply String.eqb_eq in Hns. simpl. rewrite Hns.
    eexists. split; reflexivity.
Qed.

Lemma synthesized_ttl_nonzero_witness :
  Forall2 (fun a rr => policy_ttl (mkRedis None "" "" 0 [] 0 0) (A_Record.Ttl a) rr)
    (List.filter (fun a => present (A_Record.Ip a)) (Rec.A c9_record))
    [dns.mkRR (hdr "www.example.com." dns.TypeA 360) (dns.A (Some [192; 0; 2; 1]))].
Proof.
  exact (proj1 (synthesized_ttl_nonzero (fun _ => None)
                  (mkRedis None "" "" 0 [] 0 0) 0 "www.example.com."
                  (mkZone "example.com." {["www"]}) c9_record)).
Defined.

End SynthTtl.

(** ** The number and the size of the chunks *)

Module ChunkMore.

Import Strings Hash HashSpec StringFacts ChunkFacts.

Lemma div_mod_step n :
  (255 <= n)%nat ->
  (n / 255 = S ((n - 255) / 255) /\ n mod 255 = (n - 255) mod 255)%nat.
Proof.
  intros Hn.
  pose proof (Nat.div_mod_eq (n - 255) 255) as E.
  pose proof (Nat.mod_upper_bound (n - 255) 255 ltac:(lia)) as B.
  revert E B. generalize ((n - 255) / 255)%nat ((n - 255) mod 255)%nat.
  intros q r E B. split.
  - symmetry. apply (Nat.div_unique n 255 _ r); [exact B | lia].
  - symmetry. apply (Nat.mod_unique n 255 (S q)); [exact B | lia].
Qed.

(** The loop of [split255] from offset [p]: full chunks, then what is
    left. *)
Lemma split255_loop_shape fuel s p sx :
  (p <= String.length s)%nat -> (String.length s - p < fuel * 255)%nat ->
  exists chunks rest,
    split255_loop fuel s p (p + 255) sx = Some (sx ++ chunks ++ [rest])%list
    /\ length chunks = ((String.length s - p) / 255)%nat
    /\ Forall (fun chunk => String.length chunk = 255%nat) chunks
    /\ String.length rest = ((String.length s - p) mod 255)%nat.
Proof.
  revert p sx. induction fuel as [|fuel IH]; intros p sx Hp Hfuel; [lia|].
  cbn [split255_loop]. destruct (Nat.leb_spec (p + 255) (String.length s)) as [Hle|Hgt].
  - destruct (IH (p + 255)%nat (sx ++ [take (p + 255 - p) (drop p s)])%list)
      as (chunks & rest & Hr & Hn & Hfull & Hrest); [lia | lia |].
    destruct (div_mod_step (String.length s - p) ltac:(lia)) as [Hd Hm].
    replace (String.length s - p - 255)%nat with (String.length s - (p + 255))%nat
      in Hd, Hm by lia.
    exists (take 255 (drop p s) :: chunks), rest. split; [|split; [|split]].
    + rewrite Hr. replace (p + 255 - p)%nat with 255%nat by lia.
      now rewrite <- app_assoc.
    + cbn [length]. rewrite Hn. symmetry. exact Hd.
    + constructor; [|exact Hfull]. rewrite length_take, length_drop. lia.
    + rewrite Hrest. symmetry. exact Hm.
  - exists [], (drop p s). split; [reflexivity|]. split; [|split].
    + rewrite Nat.div_small; [reflexivity | lia].
    + constructor.
    + rewrite length_drop, Nat.mod_small; lia.
Qed.

(** A text shorter than 255 bytes is one chunk. A text of [n >= 255]
    bytes is split into [n / 255] chunks of exactly 255 bytes and one more
    chunk of [n mod 255] bytes, which is empty when 255 divides [n]. *)
Theorem split255_count :
  forall s : string,
    ((String.length s < 255)%nat -> split255 s = [s])
    /\ ((255 <= String.length s)%nat ->
        exists chunks rest,
          split255 s = (chunks ++ [rest])%list
          /\ length chunks = (String.length s / 255)%nat
          /\ Forall (fun chunk => String.length chunk = 255%nat) chunks
          /\ String.length rest = (String.length s mod 255)%nat
          /\ length (split255 s) = (String.length s / 255 + 1)%nat).
Proof.
  intros s. unfold split255, split255_opt. split.
  - intros H. apply Nat.ltb_lt in H. now rewrite H.
  - intros H. destruct (Nat.ltb_spec (String.length s) 255) as [|_]; [lia|].
    destruct (split255_loop_shape (S (String.length s)) s 0 [])
      as (chunks & rest & Hr & Hn & Hfull & Hrest); [lia | lia |].
    change (split255_loop (S (String.length s)) s 0 255 []
            = Some (chunks ++ [rest])%list) in Hr.
    rewrite Nat.sub_0_r in Hn, Hrest.
    rewrite Hr. exists chunks, rest.
    split; [reflexivity|]. split; [exact Hn|]. split; [exact Hfull|].
    split; [exact Hrest|]. rewrite length_app, Hn. reflexivity.
Qed.

Lemma split255_count_witness :
  exists chunks rest,
    split255 (HashSamples.bytes 510 "a") = (chunks ++ [rest])%list
    /\ length chunks = (String.length (HashSamples.bytes 510 "a") / 255)%nat
    /\ Forall (fun chunk => String.length chunk = 255%nat) chunks
    /\ String.length rest = (String.length (HashSamples.bytes 510 "a") mod 255)%nat
    /\ length (split255 (HashSamples.bytes 510 "a"))
       = (String.length (HashSamples.bytes 510 "a") / 255 + 1)%nat.
Proof.
  apply (proj2 (split255_count (HashSamples.bytes 510 "a"))).
  apply Nat.leb_le. vm_compute. reflexivity.
Defined.

End ChunkMore.

(** ** The framing of a zone transfer *)

Module TransferMore.

Import Strings Hash HashSpec TransferFacts.

Section Framing.

Variable Unmarshal : string -> option Rec.t.
Variable redis : Redis.
Variable now : Z.
Variable z : Zone.

Local Abbreviation added := (contribution Unmarshal redis now z).
Local Abbreviation apex := (apexSOA Unmarshal redis now z).

Lemma AXFR_step_adds st key :
  AXFR_step Unmarshal redis now z st key
  = mkAXFR (if String.eqb key "@" then apex else soa st)
      (answers st ++ answers (added key))%list
      (extras st ++ extras (added key))%list.
Proof.
  unfold contribution, AXFR_step, apexSOA, collect.
  destruct (String.eqb key "@"); simpl.
  - rewrite ?app_nil_r. reflexivity.
  - rewrite <- ?app_assoc. reflexivity.
Qed.

Lemma AXFR_fold order st :
  fold_left (AXFR_step Unmarshal redis now z) order st
  = mkAXFR (if existsb (fun key => String.eqb key "@") order then apex else soa st)
      (answers st ++ flat_map (fun key => answers (added key)) order)%list
      (extras st ++ flat_map (fun key => extras (added key)) order)%list.
Proof.
  revert st. induction order as [|key order IH]; intros st; simpl.
  - rewrite !app_nil_r. now destruct st.
  - rewrite IH, AXFR_step_adds. simpl. rewrite <- !app_assoc.
    destruct (String.eqb key "@"); simpl; [|reflexivity].
    now destruct (existsb _ order).
Qed.

Lemma AXFR_in_sum order :
  AXFR_in Unmarshal order redis now z
  = ((if existsb (fun key => String.eqb key "@") order then apex else [])
     ++ flat_map (fun key => answers (added key)) order
     ++ flat_map (fun key => extras (added key)) order
     ++ (if existsb (fun key => String.eqb key "@") order then apex else []))%list.
Proof.
  unfold AXFR_in. rewrite AXFR_fold. simpl. now rewrite <- !app_assoc.
Qed.

Lemma existsb_apex order : existsb (fun key => String.eqb key "@") order = true <-> In "@" order.
Proof.
  rewrite existsb_exists. split.
  - intros (key & Hin & E). apply String.eqb_eq in E. now subst.
  - intros H. exists "@". split; [exact H | apply String.eqb_refl].
Qed.

End Framing.

(** The transfer does not depend on the order of the range but for the
    order of its records; when [@] is not among the locations ranged over it
    holds no SOA record at all; when it is and the apex record can be read,
    the transfer starts and ends with the same single SOA record. *)
Theorem AXFR_framing :
  forall (Unmarshal : string -> option Rec.t) (redis : Redis) (now : Z) (z : Zone)
         (order : list string),
    (forall order', order ≡ₚ order' ->
       AXFR_in Unmarshal order redis now z ≡ₚ AXFR_in Unmarshal order' redis now z)
    /\ (~ In "@" order ->
        Forall (fun rr => dns.Rrtype (dns.Hdr rr) <> dns.TypeSOA)
          (AXFR_in Unmarshal order redis now z))
    /\ (In "@" order ->
        forall record,
          get Unmarshal redis (findLocation (Name z) z) z = Some record ->
          exists soa middle,
            AXFR_in Unmarshal order redis now z = (soa :: middle ++ [soa])%list
            /\ dns.Rrtype (dns.Hdr soa) = dns.TypeSOA
            /\ Forall (fun rr => dns.Rrtype (dns.Hdr rr) <> dns.TypeSOA) middle).
Proof.
  intros Unmarshal redis now z order.
  assert (Hmiddle : forall o,
             Forall (fun rr => dns.Rrtype (dns.Hdr rr) <> dns.TypeSOA)
               (flat_map (fun key => answers (contribution Unmarshal redis now z key)) o
                ++ flat_map (fun key => extras (contribution Unmarshal redis now z key)) o)).
  { intros o. apply Forall_app_2; apply Forall_forall; intros rr Hin;
      apply list_elem_of_In, in_flat_map in Hin; destruct Hin as (key & _ & Hin);
      pose proof (AXFR_step_collected Unmarshal redis now z (mkAXFR [] [] []) key
                    ltac:(repeat split; constructor)) as (_ & Ha & He);
      fold (contribution Unmarshal redis now z key) in Ha, He;
      rewrite Forall_forall in Ha, He.
    - apply list_elem_of_In, Ha in Hin. unfold has_type, transferred in Hin.
      intros E. rewrite E in Hin. simpl in Hin.
      repeat (destruct Hin as [Hin|Hin]; [discriminate Hin|]). exact Hin.
    - apply list_elem_of_In, He in Hin. unfold has_type in Hin.
      intros E. rewrite E in Hin. simpl in Hin.
      repeat (destruct Hin as [Hin|Hin]; [discriminate Hin|]). exact Hin. }
  split; [|split].
  - intros order' Hp. rewrite !AXFR_in_sum.
    assert (He : existsb (fun key => String.eqb key "@") order
                 = existsb (fun key => String.eqb key "@") order').
    { apply eq_true_iff_eq. rewrite !existsb_apex.
      split; intros H; apply list_elem_of_In; apply list_elem_of_In in H;
        [now rewrite <- Hp | now rewrite Hp]. }
    rewrite He. repeat apply Permutation_app; try reflexivity;
      now apply Permutation_flat_map.
  - intros Hno. rewrite AXFR_in_sum.
    destruct (existsb _ order) eqn:E; [apply existsb_apex in E; contradiction|].
    simpl. rewrite app_nil_r. apply Hmiddle.
  - intros Hin record Hget. rewrite AXFR_in_sum.
    apply existsb_apex in Hin. rewrite Hin. unfold apexSOA. rewrite Hget.
    simpl. eexists _, _. split; [|split].
    + rewrite <- app_assoc. reflexivity.
    + now destruct (String.eqb _ _).
    + apply Hmiddle.
Qed.

End TransferMore.

(** ** More on the text rows *)

Module RowsMore.

Import Strings Rows RowsSpec RowsSamples StringFacts RowsFacts.

(** *** The transaction *)

Section Transaction.

Variable ParseIP : string -> dns.IP.
Variable redis : Redis.
Variable rec : string -> string -> Conn -> Outcome Results.

(** [LoadZoneRecords] on a dead link, without a row, and with one. *)
Lemma body_cases recordType recordName conn :
  let keyName := recordType ++ "/" ++ recordName in
  let dataKey := Key redis keyName in
  let ttlKey := Key redis (keyName ++ ":ttl") in
  (exists err conn',
      LoadZoneRecords_body ParseIP redis rec recordType recordName conn
      = Return ([], [], Some err) conn'
      /\ ((exists e, failure conn = Some e /\ err = BackendError e /\ conn' = conn)
          \/ (failure conn = None
              /\ conn' = afterExec conn dataKey ttlKey
              /\ forall rData expiry,
                   db conn !! dataKey = Some (mkEntry (VString rData) expiry) ->
                   rData = "")))
  \/ (failure conn = None
      /\ exists rData expiry,
           db conn !! dataKey = Some (mkEntry (VString rData) expiry)
           /\ rData <> ""
           /\ LoadZoneRecords_body ParseIP redis rec recordType recordName conn
              = settle redis keyName (remaining (db conn) ttlKey)
                  (parseRecordValuesFromString ParseIP rec recordType recordName rData
                     (afterExec conn dataKey ttlKey))).
Proof.
  intros keyName dataKey ttlKey.
  unfold LoadZoneRecords_body. fold keyName. fold dataKey. fold ttlKey.
  unfold Send, Do_EXEC. destruct (failure conn) as [e|] eqn:Hf.
  { left. eexists _, conn. split; [reflexivity|]. left. eauto. }
  cbn [failure db queue sent app map]. fold (afterExec conn dataKey ttlKey).
  assert (Hr : exists n, reply (db conn) (TTL ttlKey) = ReplyInt n
                         /\ n = remaining (db conn) ttlKey).
  { unfold remaining. cbn [reply].
    destruct (db conn !! ttlKey) as [[v [t|]]|]; eauto. }
  destruct Hr as (n & -> & ->). cbn [reply].
  destruct (db conn !! dataKey) as [[[rData|] expiry]|] eqn:Hd; cbn [Scan].
  - destruct (String.eqb_spec rData "") as [->|Hne].
    + left. eexists _, _. split; [reflexivity|]. right.
      split; [reflexivity|]. split; [reflexivity|].
      intros rData expiry' H. now injection H as <- _.
    + right. split; [reflexivity|]. exists rData, expiry.
      split; [reflexivity|]. split; [exact Hne|]. unfold settle.
      destruct (parseRecordValuesFromString _ _ _ _ _ _)
        as [[[answers extras] [err|]] c| |]; reflexivity.
  - left. eexists _, _. split; [reflexivity|]. right.
    split; [reflexivity|]. split; [reflexivity|].
    intros rData expiry' H. discriminate H.
  - left. eexists _, _. split; [reflexivity|]. right.
    split; [reflexivity|]. split; [reflexivity|].
    intros rData expiry' H. discriminate H.
Qed.

(** A row of type A parses to answers alone, and without a look at the
    connection. *)
Lemma parse_A_cases recordName rData conn :
  exists answers err,
    parseRecordValuesFromString ParseIP rec "A" recordName rData conn
    = Return (answers, [], err) conn
    /\ (err = None -> answers <> []).
Proof.
  unfold parseRecordValuesFromString, index.
  destruct (Nat.ltb_spec (length (Fields rData)) 4) as [|Hlen].
  { eexists _, _. split; [reflexivity | discriminate]. }
  destruct (nth_error (Fields rData) 2) as [f2|] eqn:E2;
    [|apply nth_error_None in E2; lia].
  destruct (negb _). { eexists _, _. split; [reflexivity | discriminate]. }
  destruct (nth_error (Fields rData) 0) as [f0|] eqn:E0;
    [|apply nth_error_None in E0; lia].
  destruct (Strconv.Atoi f0) as [ttl|].
  - cbn [String.eqb Ascii.eqb Bool.eqb]. eexists _, _. split; [reflexivity|].
    intros _ Hnil. apply (f_equal (@length _)) in Hnil.
    rewrite parseA_length, length_skipn in Hnil. simpl in Hnil. lia.
  - eexists _, _. split; [reflexivity | discriminate].
Qed.

Lemma body_A_cases recordName conn :
  exists answers err conn',
    LoadZoneRecords_body ParseIP redis rec "A" recordName conn
    = Return (answers, [], err) conn'.
Proof.
  destruct (body_cases "A" recordName conn)
    as [(err & conn' & -> & _) | (_ & rData & expiry & _ & _ & ->)]; [eauto|].
  match goal with |- context [parseRecordValuesFromString _ _ _ _ _ ?c] =>
    destruct (parse_A_cases recordName rData c) as (answers & err & -> & Hne) end.
  unfold settle. destruct err as [err|]; [eauto|].
  destruct (_ =? _); [|eauto].
  destruct answers as [|first answers]; [now elim Hne|].
  destruct (Do_SET_EX _ _ _ _) as [[e|] c]; eauto.
Qed.

End Transaction.

(** *** Lookups of type A *)

(** A lookup of type A returns: it does not panic, it has no extras, and
    so the glue lookup of [getAdditionalRecords] hands its answers and error
    on as they are; the error for unexpected additional records is never
    raised. *)
Theorem A_lookup_plain :
  forall (ParseIP : string -> dns.IP) (redis : Redis) (recordName : string)
         (conn : Conn),
    exists answers err conn',
      LoadZoneRecords ParseIP redis "A" recordName conn
      = Return (answers, [], err) conn'
      /\ getAdditionalRecords (LoadZoneRecords ParseIP redis) recordName conn
         = Return (answers, err) conn'.
Proof.
  intros ParseIP redis recordName conn.
  destruct (body_A_cases ParseIP redis (LoadZoneRecords_fuel ParseIP redis 1)
              recordName conn) as (answers & err & conn' & H).
  change (LoadZoneRecords ParseIP redis "A" recordName conn
          = Return (answers, [], err) conn') in H.
  exists answers, err, conn'. unfold getAdditionalRecords. rewrite H.
  split; [reflexivity|]. now destruct err.
Qed.

(** *** Where a lookup panics *)

Section Panics.

Variable ParseIP : string -> dns.IP.
Variable redis : Redis.
Variable rec : string -> string -> Conn -> Outcome Results.
Hypothesis rec_A_returns : forall recordName conn msg,
  rec "A" recordName conn <> Panic msg.

Lemma getAdditionalRecords_returns recordName conn msg :
  getAdditionalRecords rec recordName conn <> Panic msg.
Proof.
  unfold getAdditionalRecords.
  pose proof (rec_A_returns recordName conn) as Hr.
  destruct (rec "A" recordName conn) as [[[answers extras] [err|]] c|m|];
    try discriminate.
  - destruct (_ <? _)%nat; discriminate.
  - intros H. injection H as ->. now elim (Hr msg).
Qed.

Lemma parseNS_range_returns hosts zoneName header answers extras conn msg :
  parseNS_range rec hosts zoneName header answers extras conn <> Panic msg.
Proof.
  revert header answers extras conn.
  induction hosts as [|host hosts IH]; intros header answers extras conn; simpl.
  - discriminate.
  - destruct (negb (dns.IsFqdn host)); [discriminate|].
    pose proof (getAdditionalRecords_returns host conn) as Hg.
    destruct (getAdditionalRecords rec host conn) as [[additional [err|]] c|m|];
      try discriminate; [apply IH|].
    intros H. injection H as ->. now elim (Hg msg).
Qed.

Lemma parseSOA_panics fields zoneName header conn msg :
  parseSOA rec fields zoneName header conn = Panic msg ->
  msg = indexOutOfRange /\ (length fields < 7)%nat.
Proof.
  unfold parseSOA, atoiField, index.
  repeat match goal with
         | |- context [nth_error ?l ?i] =>
             let E := fresh "E" in
             destruct (nth_error l i) eqn:E; cbv beta iota;
             [|apply nth_error_None in E; intros H; injection H as <-;
               split; [reflexivity | lia]]
         | |- context [Strconv.Atoi ?f] =>
             destruct (Strconv.Atoi f); cbv beta iota; [|discriminate]
         end.
  match goal with |- context [getAdditionalRecords rec ?f conn] =>
    pose proof (getAdditionalRecords_returns f conn) as Hg;
    destruct (getAdditionalRecords rec f conn) as [[additional [err|]] c|m|] end;
    try discriminate.
  intros H. injection H as ->. now elim (Hg msg).
Qed.

Lemma parse_panics recordType recordName rData conn msg :
  parseRecordValuesFromString ParseIP rec recordType recordName rData conn = Panic msg ->
  msg = indexOutOfRange /\ recordType = "SOA"
  /\ (4 <= length (Fields rData) < 10)%nat.
Proof.
  unfold parseRecordValuesFromString, parseNS, index.
  destruct (Nat.ltb_spec (length (Fields rData)) 4) as [|Hlen]; [discriminate|].
  destruct (nth_error (Fields rData) 2) as [f2|] eqn:E2;
    [|apply nth_error_None in E2; lia].
  destruct (negb _); [discriminate|].
  destruct (nth_error (Fields rData) 0) as [f0|] eqn:E0;
    [|apply nth_error_None in E0; lia].
  destruct (Strconv.Atoi f0) as [ttl|]; [|discriminate].
  destruct (String.eqb recordType "A"); [discriminate|].
  destruct (String.eqb recordType "NS").
  { intros H. now apply parseNS_range_returns in H. }
  destruct (String.eqb_spec recordType "SOA") as [->|]; [|discriminate].
  intros H. apply parseSOA_panics in H. destruct H as [-> H].
  rewrite length_skipn in H. repeat split; auto; lia.
Qed.

Lemma body_panics recordType recordName conn msg :
  LoadZoneRecords_body ParseIP redis rec recordType recordName conn = Panic msg ->
  msg = indexOutOfRange /\ recordType = "SOA" /\ failure conn = None
  /\ exists rData expiry,
       db conn !! Key redis (recordType ++ "/" ++ recordName)
       = Some (mkEntry (VString rData) expiry)
       /\ (4 <= length (Fields rData) < 10)%nat.
Proof.
  destruct (body_cases ParseIP redis rec recordType recordName conn)
    as [(err & conn' & -> & _) | (Hf & rData & expiry & Hd & _ & ->)];
    [discriminate|].
  unfold settle.
  destruct (parseRecordValuesFromString _ _ _ _ _ _)
    as [[[answers extras] [err|]] c|m|] eqn:Hp; try discriminate.
  - destruct (_ =? _); [|discriminate].
    apply parse_answers in Hp.
    destruct answers as [|first answers]; [now elim Hp|].
    destruct (Do_SET_EX _ _ _ _) as [[e|] c']; discriminate.
  - intros H. injection H as ->. apply parse_panics in Hp.
    destruct Hp as (-> & -> & Hlen). eauto 8.
Qed.

End Panics.

(** A lookup returns, or it panics with an index out of range; and it
    panics for no row but one of type SOA that holds at least 4 and fewer than
    10 fields, on a live link. Rows of the other types, rows that are not
    there and dead links make it return. *)
Theorem LoadZoneRecords_panics :
  forall (ParseIP : string -> dns.IP) (redis : Redis)
         (recordType recordName : string) (conn : Conn),
    (exists r conn',
        LoadZoneRecords ParseIP redis recordType recordName conn = Return r conn')
    \/ (LoadZoneRecords ParseIP redis recordType recordName conn
         = Panic indexOutOfRange
        /\ recordType = "SOA" /\ failure conn = None
        /\ exists rData expiry,
             db conn !! Key redis (recordType ++ "/" ++ recordName)
             = Some (mkEntry (VString rData) expiry)
             /\ (4 <= length (Fields rData) < 10)%nat).
Proof.
  intros ParseIP redis recordType recordName conn.
  assert (Hends : ends (LoadZoneRecords ParseIP redis recordType recordName conn)).
  { unfold LoadZoneRecords. simpl.
    apply body_ends. intros rData c. apply parse_ends.
    intros name c'. apply body_ends. intros rData' c''. apply parse_A_ends. }
  destruct (LoadZoneRecords ParseIP redis recordType recordName conn)
    as [r conn'|msg|] eqn:E; [eauto | | now elim Hends].
  right. revert E.
  change (LoadZoneRecords ParseIP redis)
    with (LoadZoneRecords_body ParseIP redis (LoadZoneRecords_fuel ParseIP redis 1)).
  intros E. apply body_panics in E.
  - destruct E as (-> & E). auto.
  - intros name c m H.
    change (LoadZoneRecords_fuel ParseIP redis 1)
      with (LoadZoneRecords_body ParseIP redis (fun _ _ _ => OutOfFuel)) in H.
    destruct (body_A_cases ParseIP redis (fun _ _ _ => OutOfFuel) name c)
      as (answers & err & c' & E').
    rewrite E' in H. discriminate H.
Qed.

(** *** What a lookup writes *)

Section Preserved.

Variable ParseIP : string -> dns.IP.
Variable redis : Redis.

(** A relation between the connection before and after that the commands
    of a lookup respect. *)
Variable R : Conn -> Conn -> Prop.
Hypothesis R_refl : forall conn, R conn conn.
Hypothesis R_trans : forall c1 c2 c3, R c1 c2 -> R c2 c3 -> R c1 c3.
Hypothesis R_afterExec : forall conn dataKey ttlKey,
  failure conn = None -> R conn (afterExec conn dataKey ttlKey).
Hypothesis R_SET : forall conn keyName val,
  R conn (snd (Do_SET_EX conn (Key redis (keyName ++ ":ttl")) val val)).

Variable rec : string -> string -> Conn -> Outcome Results.
Hypothesis rec_R : forall recordName conn r conn',
  rec "A" recordName conn = Return r conn' -> R conn conn'.

Lemma getAdditionalRecords_R recordName conn r conn' :
  getAdditionalRecords rec recordName conn = Return r conn' -> R conn conn'.
Proof.
  unfold getAdditionalRecords.
  destruct (rec "A" recordName conn) as [[[answers extras] err] c| |] eqn:E;
    try discriminate.
  apply rec_R in E.
  destruct err; [|destruct (_ <? _)%nat]; intros H; injection H as _ <-; exact E.
Qed.

Lemma parseNS_range_R hosts zoneName header answers extras conn r conn' :
  parseNS_range rec hosts zoneName header answers extras conn = Return r conn' ->
  R conn conn'.
Proof.
  revert header answers extras conn.
  induction hosts as [|host hosts IH]; intros header answers extras conn; simpl.
  - intros H. injection H as _ <-. apply R_refl.
  - destruct (negb (dns.IsFqdn host));
      [intros H; injection H as _ <-; apply R_refl|].
    destruct (getAdditionalRecords rec host conn)
      as [[additional [err|]] c| |] eqn:E; try discriminate;
      apply getAdditionalRecords_R in E.
    + intros H. injection H as _ <-. exact E.
    + intros H. apply IH in H. eauto.
Qed.

Lemma parseSOA_R fields zoneName header conn r conn' :
  parseSOA rec fields zoneName header conn = Return r conn' -> R conn conn'.
Proof.
  unfold parseSOA, atoiField, index.
  repeat match goal with
         | |- context [nth_error ?l ?i] =>
             destruct (nth_error l i); cbv beta iota; [|discriminate]
         | |- context [Strconv.Atoi ?f] =>
             destruct (Strconv.Atoi f); cbv beta iota;
             [|intros H; injection H as _ <-; apply R_refl]
         end.
  destruct (getAdditionalRecords rec _ conn)
    as [[additional [err|]] c| |] eqn:E; try discriminate;
    apply getAdditionalRecords_R in E;
    intros H; injection H as _ <-; exact E.
Qed.

Lemma parse_R recordType recordName rData conn r conn' :
  parseRecordValuesFromString ParseIP rec recordType recordName rData conn
  = Return r conn' ->
  R conn conn'.
Proof.
  unfold parseRecordValuesFromString, parseNS, index.
  destruct (_ <? _)%nat; [intros H; injection H as _ <-; apply R_refl|].
  destruct (nth_error _ 2); [|discriminate].
  destruct (negb _); [intros H; injection H as _ <-; apply R_refl|].
  destruct (nth_error _ 0); [|discriminate].
  destruct (Strconv.Atoi _); [|intros H; injection H as _ <-; apply R_refl].
  destruct (String.eqb recordType "A");
    [intros H; injection H as _ <-; apply R_refl|].
  destruct (String.eqb recordType "NS"); [apply parseNS_range_R|].
  destruct (String.eqb recordType "SOA"); [apply parseSOA_R|].
  intros H; injection H as _ <-; apply R_refl.
Qed.

Lemma body_R recordType recordName conn r conn' :
  LoadZoneRecords_body ParseIP redis rec recordType recordName conn = Return r conn' ->
  R conn conn'.
Proof.
  destruct (body_cases ParseIP redis rec recordType recordName conn)
    as [(err & c & -> & Hc) | (Hf & rData & expiry & _ & _ & ->)].
  - intros H. injection H as _ <-.
    destruct Hc as [(e & _ & _ & ->) | (Hf & -> & _)];
      [apply R_refl | now apply R_afterExec].
  - pose proof (R_afterExec conn (Key redis (recordType ++ "/" ++ recordName))
                  (Key redis ((recordType ++ "/" ++ recordName) ++ ":ttl")) Hf) as X.
    unfold settle.
    destruct (parseRecordValuesFromString _ _ _ _ _ _)
      as [[[answers extras] [err|]] c| |] eqn:Hp; try discriminate;
      apply parse_R in Hp.
    + intros H. injection H as _ <-. eauto.
    + destruct (_ =? _); [|intros H; injection H as _ <-; eauto].
      destruct answers as [|first answers]; [discriminate|].
      pose proof (R_SET c (recordType ++ "/" ++ recordName)
                    (dns.Ttl (dns.Hdr first))) as Y.
      destruct (Do_SET_EX _ _ _ _) as [[e|] c']; simpl in Y;
        intros H; injection H as _ <-; eauto.
Qed.

End Preserved.

Lemma string_append_assoc (s t u : string) : ((s ++ t) ++ u)%string = (s ++ t ++ u)%string.
Proof.
  induction s as [|a s IH]; [reflexivity|]. now rewrite !append_cons, IH.
Qed.

Lemma ttl_key_suffix redis keyName :
  HasSuffix (Key redis (keyName ++ ":ttl")) ":ttl" = true.
Proof.
  unfold Key. rewrite <- string_append_assoc. apply HasSuffix_append.
Qed.

Lemma ttl_writes_refl conn : ttl_writes conn conn.
Proof. intros key. now left. Qed.

Lemma ttl_writes_trans c1 c2 c3 :
  ttl_writes c1 c2 -> ttl_writes c2 c3 -> ttl_writes c1 c3.
Proof.
  intros H12 H23 key. destruct (H23 key) as [E|W]; [|now right].
  rewrite E. apply H12.
Qed.

Lemma ttl_writes_SET redis conn keyName val :
  ttl_writes conn (snd (Do_SET_EX conn (Key redis (keyName ++ ":ttl")) val val)).
Proof.
  unfold Do_SET_EX. destruct (failure conn); [apply ttl_writes_refl|].
  destruct (Z.leb_spec val 0) as [|Hpos]; [intros key; now left|].
  intros key. cbn [snd db].
  destruct (decide (key = Key redis (keyName ++ ":ttl"))) as [->|Hne].
  - right. split; [apply ttl_key_suffix|]. exists val.
    split; [exact Hpos | apply lookup_insert_eq].
  - left. now apply lookup_insert_ne.
Qed.

(** A lookup that returns has left every key of the backend as it was,
    but for keys that end in [:ttl], which it may have set to a positive
    number that expires after as many seconds: it changes no row, deletes no
    key, and leaves the state of the link alone. *)
Theorem LoadZoneRecords_writes :
  forall (ParseIP : string -> dns.IP) (redis : Redis)
         (recordType recordName : string) (conn : Conn) (r : Results) (conn' : Conn),
    LoadZoneRecords ParseIP redis recordType recordName conn = Return r conn' ->
    (forall key,
        db conn' !! key = db conn !! key
        \/ (HasSuffix key ":ttl" = true
            /\ exists n, 0 < n
                         /\ db conn' !! key
                            = Some (mkEntry (VString (decimal n)) (Some n))))
    /\ (forall key, is_Some (db conn !! key) -> is_Some (db conn' !! key))
    /\ failure conn' = failure conn.
Proof.
  intros ParseIP redis recordType recordName conn r conn' H.
  assert (W : ttl_writes conn conn').
  { revert H.
    change (LoadZoneRecords ParseIP redis)
      with (LoadZoneRecords_body ParseIP redis
              (LoadZoneRecords_body ParseIP redis (fun _ _ _ => OutOfFuel))).
    apply body_R.
    - apply ttl_writes_refl.
    - apply ttl_writes_trans.
    - intros c d t _ key. now left.
    - intros c k v. apply ttl_writes_SET.
    - intros name c r' c'. apply body_R.
      + apply ttl_writes_refl.
      + apply ttl_writes_trans.
      + intros c0 d t _ key. now left.
      + intros c0 k v. apply ttl_writes_SET.
      + discriminate. }
  split; [exact W|]. split.
  - intros key Hk. destruct (W key) as [-> | (_ & n & _ & ->)]; eauto.
  - revert H. apply LoadZoneRecords_fuel_keeps.
Qed.

Lemma LoadZoneRecords_writes_witness :
  is_Some (db (afterExec decayed "dns:A/www.example.com." "dns:A/www.example.com.:ttl")
             !! "dns:A/www.example.com.").
Proof.
  exact (proj1 (proj2 (LoadZoneRecords_writes exampleIP exampleRedis "A"
                         "www.example.com." decayed _ _ eq_refl))
           "dns:A/www.example.com." (mk_is_Some _ _ eq_refl)).
Defined.

(** *** The records of an answer *)

Section Shape.

Variable ParseIP : string -> dns.IP.
Variable redis : Redis.

Local Abbreviation glue :=
  (fun rr => dns.Rrtype (dns.Hdr rr) = dns.TypeA /\ dns.Class (dns.Hdr rr) = dns.ClassINET).

Lemma parseA_headers ips recordName header :
  Forall (fun rr => dns.Hdr rr
                    = dns.mkHeader recordName dns.TypeA (dns.Class header) (dns.Ttl header))
    (parseA ParseIP ips recordName header).
Proof.
  unfold parseA.
  enough (H : forall acc,
             Forall (fun rr => dns.Hdr rr
                               = dns.mkHeader recordName dns.TypeA (dns.Class header)
                                   (dns.Ttl header)) acc ->
             Forall (fun rr => dns.Hdr rr
                               = dns.mkHeader recordName dns.TypeA (dns.Class header)
                                   (dns.Ttl header))
               (fold_left
                  (fun answers ip =>
                     (answers ++
                      [dns.mkRR (dns.mkHeader recordName dns.TypeA
                                   (dns.Class header) (dns.Ttl header))
                         (dns.A (ParseIP ip))])%list) ips acc))
    by (apply H; constructor).
  induction ips as [|ip ips IH]; intros acc Hacc; simpl; [exact Hacc|].
  apply IH. apply Forall_app_2; [exact Hacc|]. now repeat constructor.
Qed.

Lemma rrset_glue name rrs : rrset name dns.TypeA rrs -> Forall glue rrs.
Proof.
  intros (_ & ttl & _ & H). eapply Forall_impl; [exact H|].
  intros rr E. cbv beta. now rewrite E.
Qed.

Lemma settle_rrset keyName remainingTtl name rrtype parsed answers extras conn' :
  settle redis keyName remainingTtl parsed = Return (answers, extras, None) conn' ->
  (forall answers0 extras0 conn0,
      parsed = Return (answers0, extras0, None) conn0 ->
      rrset name rrtype answers0) ->
  exists answers0 conn0,
    parsed = Return (answers0, extras, None) conn0
    /\ length answers = length answers0
    /\ rrset name rrtype answers.
Proof.
  unfold settle. destruct parsed as [[[answers0 extras0] [err|]] c| |];
    try discriminate.
  intros H Hp. specialize (Hp _ _ _ eq_refl).
  destruct (_ =? _).
  - destruct answers0 as [|first answers0]; [discriminate|].
    destruct (Do_SET_EX _ _ _ _) as [[e|] c']; [discriminate|].
    injection H as <- <- <-. eauto.
  - injection H as <- <- <-. eexists _, _. split; [reflexivity|].
    split; [apply length_map|].
    destruct Hp as (Hne & ttl & _ & Hall). split.
    + destruct answers0; [now elim Hne | discriminate].
    + exists (Strconv.uint32 remainingTtl). split.
      * unfold Strconv.uint32. apply Z.mod_pos_bound. lia.
      * apply Forall_forall. intros rr Hin.
        apply list_elem_of_In, in_map_iff in Hin. destruct Hin as (rr0 & <- & Hin).
        rewrite Forall_forall in Hall. apply list_elem_of_In, Hall in Hin.
        unfold dns.setTtl. simpl. now rewrite Hin.
Qed.

Variable rec : string -> string -> Conn -> Outcome Results.
Hypothesis rec_A_glue : forall recordName conn answers extras conn',
  rec "A" recordName conn = Return (answers, extras, None) conn' ->
  Forall glue answers.

Lemma getAdditionalRecords_glue recordName conn additional conn' :
  getAdditionalRecords rec recordName conn = Return (additional, None) conn' ->
  Forall glue additional.
Proof.
  unfold getAdditionalRecords.
  destruct (rec "A" recordName conn) as [[[answers extras] [err|]] c| |] eqn:E;
    try discriminate.
  apply rec_A_glue in E. destruct (_ <? _)%nat; [discriminate|].
  intros H. now injection H as <- _.
Qed.

Lemma parseNS_range_headers hosts zoneName header answers extras conn
      answers' extras' conn' :
  parseNS_range rec hosts zoneName header answers extras conn
  = Return (answers', extras', None) conn' ->
  Forall (fun rr => dns.Hdr rr
                    = dns.mkHeader zoneName dns.TypeNS (dns.Class header) (dns.Ttl header))
    answers ->
  Forall glue extras ->
  Forall (fun rr => dns.Hdr rr
                    = dns.mkHeader zoneName dns.TypeNS (dns.Class header) (dns.Ttl header))
    answers'
  /\ Forall glue extras'.
Proof.
  revert header answers extras conn.
  induction hosts as [|host hosts IH]; intros header answers extras conn; simpl.
  - intros H. injection H as <- <- _. auto.
  - destruct (negb (dns.IsFqdn host)); [discriminate|].
    destruct (getAdditionalRecords rec host conn) as [[additional [err|]] c| |] eqn:E;
      try discriminate.
    apply getAdditionalRecords_glue in E.
    intros H Ha He. apply IH in H; [exact H | |].
    + apply Forall_app_2; [exact Ha | now repeat constructor].
    + now apply Forall_app_2.
Qed.

Lemma parseSOA_headers fields zoneName header conn answers extras conn' :
  parseSOA rec fields zoneName header conn = Return (answers, extras, None) conn' ->
  Forall (fun rr => dns.Hdr rr
                    = dns.mkHeader zoneName dns.TypeSOA (dns.Class header) (dns.Ttl header))
    answers
  /\ Forall glue extras.
Proof.
  unfold parseSOA, atoiField, index.
  repeat match goal with
         | |- context [nth_error ?l ?i] =>
             destruct (nth_error l i); cbv beta iota; [|discriminate]
         | |- context [Strconv.Atoi ?f] =>
             destruct (Strconv.Atoi f); cbv beta iota; [|discriminate]
         end.
  destruct (getAdditionalRecords rec _ conn) as [[additional [err|]] c| |] eqn:E;
    try discriminate.
  apply getAdditionalRecords_glue in E.
  intros H. injection H as <- <- _. split; [now repeat constructor | exact E].
Qed.

Lemma parse_rrset recordType recordName rData conn answers extras conn' :
  parseRecordValuesFromString ParseIP rec recordType recordName rData conn
  = Return (answers, extras, None) conn' ->
  rrset recordName (code recordType) answers
  /\ Forall glue extras
  /\ length answers
     = (if String.eqb recordType "SOA" then 1 else length (Fields rData) - 3)%nat.
Proof.
  intros H. pose proof (parse_answers _ _ _ _ _ _ _ _ _ H) as Hne.
  revert H. unfold parseRecordValuesFromString, parseNS, index, rrset, code.
  destruct (_ <? _)%nat; [discriminate|].
  destruct (nth_error _ 2); [|discriminate].
  destruct (negb _); [discriminate|].
  destruct (nth_error _ 0); [|discriminate].
  destruct (Strconv.Atoi _) as [ttl|]; [|discriminate].
  assert (Httl : 0 <= Strconv.uint32 ttl < 2 ^ 32)
    by (unfold Strconv.uint32; apply Z.mod_pos_bound; lia).
  destruct (String.eqb_spec recordType "A") as [->|_].
  { intros H. injection H as <- <- _. split; [|split].
    - split; [exact Hne|]. exists (Strconv.uint32 ttl). split; [exact Httl|].
      exact (parseA_headers _ recordName
               (dns.mkHeader "" 0 dns.ClassINET (Strconv.uint32 ttl))).
    - constructor.
    - cbn [String.eqb Ascii.eqb Bool.eqb]. now rewrite parseA_length, length_skipn. }
  destruct (String.eqb_spec recordType "NS") as [->|_].
  { intros H. pose proof (parseNS_range_length _ _ _ _ _ _ _ _ _ _ H) as Hlen.
    apply parseNS_range_headers in H; [|constructor|constructor].
    destruct H as [Ha He]. split; [|split].
    - split; [exact Hne|]. exists (Strconv.uint32 ttl). split; [exact Httl | exact Ha].
    - exact He.
    - cbn [String.eqb Ascii.eqb Bool.eqb]. rewrite Hlen, length_skipn. reflexivity. }
  destruct (String.eqb_spec recordType "SOA") as [->|_]; [|discriminate].
  intros H. pose proof (parseSOA_single _ _ _ _ _ _ _ _ H) as Hlen.
  apply parseSOA_headers in H. destruct H as [Ha He]. split; [|split].
  - split; [exact Hne|]. exists (Strconv.uint32 ttl). split; [exact Httl | exact Ha].
  - exact He.
  - exact Hlen.
Qed.

Lemma body_rrset recordType recordName conn answers extras conn' :
  LoadZoneRecords_body ParseIP redis rec recordType recordName conn
  = Return (answers, extras, None) conn' ->
  rrset recordName (code recordType) answers
  /\ Forall glue extras
  /\ exists rData expiry,
       db conn !! Key redis (recordType ++ "/" ++ recordName)
       = Some (mkEntry (VString rData) expiry)
       /\ length answers
          = (if String.eqb recordType "SOA" then 1 else length (Fields rData) - 3)%nat.
Proof.
  destruct (body_cases ParseIP redis rec recordType recordName conn)
    as [(err & c & -> & _) | (_ & rData & expiry & Hd & _ & ->)]; [discriminate|].
  intros H.
  eapply settle_rrset in H; [|intros a e c Hp; apply (parse_rrset _ _ _ _ _ _ _ Hp)].
  destruct H as (answers0 & conn0 & Hp & Hlen & Hset).
  apply parse_rrset in Hp. destruct Hp as (_ & He & Hn).
  split; [exact Hset|]. split; [exact He|]. exists rData, expiry.
  split; [exact Hd | now rewrite Hlen].
Qed.

End Shape.

(** The records of a lookup that succeeds. The type is A, NS or SOA; the
    answers are a set of records of the name and type asked for in class IN
    which all carry one TTL, one record for a SOA row and one for each field
    after the third of another row; the extras are address records in
    class IN. *)
Theorem LoadZoneRecords_rrset :
  forall (ParseIP : string -> dns.IP) (redis : Redis)
         (recordType recordName : string) (conn : Conn)
         (answers extras : list dns.RR) (conn' : Conn),
    LoadZoneRecords ParseIP redis recordType recordName conn
    = Return (answers, extras, None) conn' ->
    (recordType = "A" \/ recordType = "NS" \/ recordType = "SOA")
    /\ answers <> []
    /\ (exists ttl,
          0 <= ttl < 2 ^ 32
          /\ Forall (fun rr => dns.Hdr rr
                               = dns.mkHeader recordName (code recordType)
                                   dns.ClassINET ttl) answers)
    /\ Forall (fun rr => dns.Rrtype (dns.Hdr rr) = dns.TypeA
                         /\ dns.Class (dns.Hdr rr) = dns.ClassINET) extras
    /\ exists rData expiry,
         db conn !! Key redis (recordType ++ "/" ++ recordName)
         = Some (mkEntry (VString rData) expiry)
         /\ length answers
            = (if String.eqb recordType "SOA" then 1 else length (Fields rData) - 3)%nat.
Proof.
  intros ParseIP redis recordType recordName conn answers extras conn' H.
  assert (Htype : recordType = "A" \/ recordType = "NS" \/ recordType = "SOA").
  { revert H.
    change (LoadZoneRecords ParseIP redis)
      with (LoadZoneRecords_body ParseIP redis (LoadZoneRecords_fuel ParseIP redis 1)).
    destruct (body_cases ParseIP redis (LoadZoneRecords_fuel ParseIP redis 1)
                recordType recordName conn)
      as [(err & c & -> & _) | (_ & rData & expiry & _ & _ & ->)]; [discriminate|].
    unfold settle.
    destruct (parseRecordValuesFromString _ _ _ _ _ _)
      as [[[a e] [err|]] c| |] eqn:Hp; try discriminate.
    intros _. exact (parse_types _ _ _ _ _ _ _ _ _ Hp). }
  split; [exact Htype|].
  change (LoadZoneRecords ParseIP redis)
    with (LoadZoneRecords_body ParseIP redis
            (LoadZoneRecords_body ParseIP redis (fun _ _ _ => OutOfFuel))) in H.
  apply body_rrset in H.
  - destruct H as ((Hne & Hset) & He & Hrow). auto.
  - intros name c a e c' HA. apply body_rrset in HA; [|discriminate].
    destruct HA as (Hset & _). exact (rrset_glue _ _ Hset).
Qed.

Lemma LoadZoneRecords_rrset_witness :
  exists ttl,
    0 <= ttl < 2 ^ 32
    /\ Forall (fun rr => dns.Hdr rr
                         = dns.mkHeader "www.example.com." dns.TypeA dns.ClassINET ttl)
         [dns.setTtl 120 exampleAnswer].
Proof.
  exact (proj1 (proj2 (proj2 (LoadZoneRecords_rrset exampleIP exampleRedis "A"
                                "www.example.com." decayed _ _ _ eq_refl)))).
Defined.

(** *** A row of type A, looked up twice *)

Section Row.

Variable ParseIP : string -> dns.IP.
Variable redis : Redis.
Variable rec : string -> string -> Conn -> Outcome Results.

Lemma body_row recordType recordName conn rData expiry :
  let keyName := recordType ++ "/" ++ recordName in
  let dataKey := Key redis keyName in
  let ttlKey := Key redis (keyName ++ ":ttl") in
  failure conn = None ->
  db conn !! dataKey = Some (mkEntry (VString rData) expiry) ->
  rData <> "" ->
  LoadZoneRecords_body ParseIP redis rec recordType recordName conn
  = settle redis keyName (remaining (db conn) ttlKey)
      (parseRecordValuesFromString ParseIP rec recordType recordName rData
         (afterExec conn dataKey ttlKey)).
Proof.
  intros keyName dataKey ttlKey Hf Hd Hne.
  destruct (body_cases ParseIP redis rec recordType recordName conn)
    as [(err & c & _ & [(e & He & _) | (_ & _ & Hrow)])
       | (_ & rData' & expiry' & Hd' & _ & ->)].
  - congruence.
  - now elim Hne; apply (Hrow rData expiry).
  - fold keyName dataKey in Hd'. rewrite Hd in Hd'. now injection Hd' as <- _.
Qed.

Lemma parse_A_any rec' recordName rData conn conn' r c :
  parseRecordValuesFromString ParseIP rec "A" recordName rData conn = Return r c ->
  parseRecordValuesFromString ParseIP rec' "A" recordName rData conn' = Return r conn'.
Proof.
  unfold parseRecordValuesFromString, index.
  destruct (_ <? _)%nat; [intros H; now injection H as <- _|].
  destruct (nth_error _ 2); [|discriminate].
  destruct (negb _); [intros H; now injection H as <- _|].
  destruct (nth_error _ 0); [|discriminate].
  destruct (Strconv.Atoi _); intros H; now injection H as <- _.
Qed.

End Row.

Lemma ttl_key_other redis keyName : Key redis keyName <> Key redis (keyName ++ ":ttl").
Proof.
  intros E. apply (f_equal String.length) in E. unfold Key in E.
  rewrite !length_append in E. simpl in E. lia.
Qed.

Lemma setTtl_same name rrtype ttl rrs :
  Forall (fun rr => dns.Hdr rr = dns.mkHeader name rrtype dns.ClassINET ttl) rrs ->
  map (dns.setTtl ttl) rrs = rrs.
Proof.
  induction 1 as [|[h d] rrs Hh _ IH]; [reflexivity|].
  simpl in *. rewrite IH. unfold dns.setTtl. simpl. now subst h.
Qed.

(** The lookup of a row of type A that has succeeded succeeds again on
    the connection it left, with the same records, and this time it writes
    nothing: the TTL it stored is the TTL it reads back. *)
Theorem A_lookup_again :
  forall (ParseIP : string -> dns.IP) (redis : Redis) (recordName : string)
         (conn : Conn) (answers extras : list dns.RR) (conn' : Conn),
    LoadZoneRecords ParseIP redis "A" recordName conn
    = Return (answers, extras, None) conn' ->
    exists conn'',
      LoadZoneRecords ParseIP redis "A" recordName conn'
      = Return (answers, extras, None) conn''
      /\ db conn'' = db conn'
      /\ sent conn''
         = (sent conn'
            ++ [MULTI; GET (Key redis ("A" ++ "/" ++ recordName));
                TTL (Key redis (("A" ++ "/" ++ recordName) ++ ":ttl")); EXEC])%list.
Proof.
  intros ParseIP redis recordName conn answers extras conn'.
  change (LoadZoneRecords ParseIP redis)
    with (LoadZoneRecords_body ParseIP redis (LoadZoneRecords_fuel ParseIP redis 1)).
  set (rec := LoadZoneRecords_fuel ParseIP redis 1).
  set (keyName := ("A" ++ "/" ++ recordName)%string).
  set (dataKey := Key redis keyName). set (ttlKey := Key redis (keyName ++ ":ttl")).
  destruct (body_cases ParseIP redis rec "A" recordName conn)
    as [(err & c & -> & _) | (Hf & rData & expiry & Hd & Hne & ->)]; [discriminate|].
  fold keyName dataKey ttlKey in Hd |- *.
  destruct (parseRecordValuesFromString ParseIP rec "A" recordName rData
              (afterExec conn dataKey ttlKey)) as [[[answers0 extras0] err0] c0| |] eqn:Hp;
    try discriminate.
  pose proof (parse_A_silent _ _ _ _ _ _ _ Hp) as ->.
  destruct err0 as [err0|]; [discriminate|].
  assert (Hset : rrset recordName dns.TypeA answers0).
  { pose proof (parse_A_any ParseIP rec (fun _ _ _ => OutOfFuel) _ _ _ conn _ _ Hp) as Hp0.
    apply parse_rrset in Hp0; [apply Hp0 | discriminate]. }
  destruct Hset as (Hnil & ttl0 & Httl0 & Hall).
  assert (Hagain : forall c,
             parseRecordValuesFromString ParseIP rec "A" recordName rData c
             = Return (answers0, extras0, None) c)
    by (intros c; exact (parse_A_any _ _ _ _ _ _ _ _ _ Hp)).
  unfold settle at 1.
  destruct (Z.eqb_spec (remaining (db conn) ttlKey) (-2)) as [Hrem|Hrem].
  - destruct answers0 as [|first rest]; [discriminate|].
    assert (Hfirst : dns.Ttl (dns.Hdr first) = ttl0).
    { apply Forall_cons in Hall. destruct Hall as [-> _]. reflexivity. }
    rewrite Hfirst. unfold Do_SET_EX. cbn [failure afterExec].
    destruct (Z.leb_spec ttl0 0) as [|Hpos]; [discriminate|].
    intros H. injection H as <- <- <-.
    eexists. rewrite (body_row _ _ _ _ _ _ rData expiry);
      [|reflexivity | cbn [db]; rewrite lookup_insert_ne by apply not_eq_sym, ttl_key_other;
                      exact Hd | exact Hne].
    fold keyName dataKey ttlKey. rewrite Hagain.
    unfold remaining at 1. cbn [db]. rewrite lookup_insert_eq. unfold settle.
    destruct (Z.eqb_spec ttl0 (-2)) as [|_]; [lia|].
    unfold Strconv.uint32. rewrite Z.mod_small by lia.
    rewrite (setTtl_same _ _ _ _ Hall). split; [reflexivity|].
    split; [reflexivity|]. cbn [sent afterExec]. now rewrite <- !app_assoc.
  - intros H. injection H as <- <- <-.
    eexists. rewrite (body_row _ _ _ _ _ _ rData expiry);
      [|reflexivity | exact Hd | exact Hne].
    fold keyName dataKey ttlKey. rewrite Hagain. cbn [db afterExec]. unfold settle.
    destruct (Z.eqb_spec (remaining (db conn) ttlKey) (-2)) as [|_]; [contradiction|].
    split; [reflexivity|].
    split; [reflexivity|]. cbn [sent afterExec]. now rewrite <- !app_assoc.
Qed.

Lemma A_lookup_again_witness :
  exists conn'',
    LoadZoneRecords exampleIP exampleRedis "A" "www.example.com."
      (afterExec decayed "dns:A/www.example.com." "dns:A/www.example.com.:ttl")
    = Return ([dns.setTtl 120 exampleAnswer], [], None) conn''.
Proof.
  destruct (A_lookup_again exampleIP exampleRedis "www.example.com." decayed _ _ _ eq_refl)
    as (conn'' & H & _).
  exists conn''. exact H.
Defined.

(** A row of type A whose TTL is 0 as a 32-bit number, on a live link
    and with no TTL key yet: the lookup hands back the parsed answers together
    with the error of the SET, whose expiry of 0 the backend refuses, and the
    backend is left as it was, so that the next lookup of the row meets the
    same conditions again. *)
Theorem zero_ttl_refused :
  forall (ParseIP : string -> dns.IP) (redis : Redis) (recordName : string)
         (conn : Conn) (rData : string) (expiry : option Z) (f0 : string) (ttl : Z),
    let keyName := "A" ++ "/" ++ recordName in
    failure conn = None ->
    db conn !! Key redis keyName = Some (mkEntry (VString rData) expiry) ->
    db conn !! Key redis (keyName ++ ":ttl") = None ->
    (4 <= length (Fields rData))%nat ->
    nth_error (Fields rData) 2 = Some "A" ->
    nth_error (Fields rData) 0 = Some f0 ->
    Strconv.Atoi f0 = Some ttl ->
    Strconv.uint32 ttl = 0 ->
    exists answers cause conn',
      LoadZoneRecords ParseIP redis "A" recordName conn
      = Return (answers, [],
                Some (Wrapf "error configuring TTL for %s: %s" [keyName] cause)) conn'
      /\ length answers = (length (Fields rData) - 3)%nat
      /\ Forall (fun rr => dns.Ttl (dns.Hdr rr) = 0) answers
      /\ db conn' = db conn
      /\ failure conn' = None.
Proof.
  intros ParseIP redis recordName conn rData expiry f0 ttl keyName
         Hf Hd Hnone Hlen H2 H0 Hatoi Hzero.
  assert (Hne : rData <> "") by (intros ->; simpl in Hlen; lia).
  change (LoadZoneRecords ParseIP redis)
    with (LoadZoneRecords_body ParseIP redis (LoadZoneRecords_fuel ParseIP redis 1)).
  rewrite (body_row _ _ _ _ _ _ rData expiry Hf Hd Hne). fold keyName.
  unfold remaining. rewrite Hnone.
  unfold parseRecordValuesFromString, index.
  destruct (Nat.ltb_spec (length (Fields rData)) 4) as [|_]; [lia|].
  rewrite H2, H0, Hatoi, Hzero. cbn [String.eqb Ascii.eqb Bool.eqb negb].
  pose proof (parseA_length ParseIP (skipn 3 (Fields rData)) recordName
                (dns.mkHeader "" 0 dns.ClassINET 0)) as Hn.
  pose proof (parseA_headers ParseIP (skipn 3 (Fields rData)) recordName
                (dns.mkHeader "" 0 dns.ClassINET 0)) as Hh.
  rewrite length_skipn in Hn. cbn [dns.Class dns.Ttl] in Hh.
  destruct (parseA ParseIP _ recordName _) as [|first rest] eqn:E;
    [simpl in Hn; lia|].
  unfold settle. cbn [Z.eqb Pos.eqb].
  assert (Hfirst : dns.Ttl (dns.Hdr first) = 0).
  { apply Forall_cons in Hh. destruct Hh as [-> _]. reflexivity. }
  rewrite Hfirst. unfold Do_SET_EX. cbn [failure afterExec Z.leb Z.compare].
  eexists _, _, _. split; [reflexivity|]. split; [exact Hn|].
  split; [|split; reflexivity].
  eapply Forall_impl; [exact Hh|]. intros rr ->. reflexivity.
Qed.

Lemma zero_ttl_refused_witness :
  exists answers cause conn',
    LoadZoneRecords exampleIP exampleRedis "A" "www.example.com." zeroRow
    = Return (answers, [],
              Some (Wrapf "error configuring TTL for %s: %s" ["A/www.example.com."]
                      cause)) conn'
    /\ db conn' = db zeroRow.
Proof.
  destruct (zero_ttl_refused exampleIP exampleRedis "www.example.com." zeroRow
              "0 IN A 192.0.2.1" None "0" 0 eq_refl eq_refl eq_refl
              ltac:(vm_compute; lia) eq_refl eq_refl eq_refl eq_refl)
    as (answers & cause & conn' & H & _ & _ & Hdb & _).
  exists answers, cause, conn'. split; [exact H | exact Hdb].
Defined.

(** *** The zone names *)

Lemma HasPrefix_inv s p : HasPrefix s p = true -> s = (p ++ drop (String.length p) s)%string.
Proof.
  revert s. induction p as [|a p IH]; intros s; [reflexivity|].
  destruct s as [|b s]; simpl; [discriminate|].
  intros H. apply andb_true_iff in H. destruct H as [Hab Hp].
  apply Ascii.eqb_eq in Hab. subst b. rewrite append_cons. f_equal. now apply IH.
Qed.

Lemma HasPrefix_append p s : HasPrefix (p ++ s) p = true.
Proof.
  induction p as [|a p IH]; [now destruct s|].
  rewrite append_cons. simpl. now rewrite Ascii.eqb_refl, IH.
Qed.

Lemma TrimPrefix_append p s : TrimPrefix (p ++ s) p = s.
Proof. unfold TrimPrefix. rewrite HasPrefix_append. apply drop_append. Qed.

Lemma drop_past p n r : drop (String.length p + n) (p ++ r) = drop n r.
Proof.
  induction p as [|a p IH]; [reflexivity|]. rewrite append_cons. simpl. exact IH.
Qed.

(** The keys that match [prefix*suffix] are the keys with a text between
    the prefix and the suffix. *)
Lemma matches_iff prefix suffix key :
  matches prefix suffix key = true
  <-> exists name, key = (prefix ++ name ++ suffix)%string.
Proof.
  unfold matches. split.
  - intros H. apply andb_true_iff in H. destruct H as [H Hs].
    apply andb_true_iff in H. destruct H as [Hlen Hp].
    apply Nat.leb_le in Hlen. apply HasPrefix_inv in Hp.
    set (r := drop (String.length prefix) key) in *.
    assert (Hr : String.length key = (String.length prefix + String.length r)%nat)
      by (rewrite Hp at 1; apply length_append).
    unfold HasSuffix in Hs. apply andb_true_iff in Hs. destruct Hs as [_ Hs].
    apply String.eqb_eq in Hs.
    replace (String.length key - String.length suffix)%nat
      with (String.length prefix + (String.length r - String.length suffix))%nat
      in Hs by lia.
    rewrite Hp, drop_past in Hs.
    set (n := (String.length r - String.length suffix)%nat) in *.
    exists (take n r). rewrite Hp at 1. f_equal.
    pose proof (take_drop n r) as E. rewrite Hs in E. now symmetry.
  - intros (name & ->). rewrite HasPrefix_append.
    rewrite <- string_append_assoc, HasSuffix_append, !length_append.
    rewrite andb_true_r, andb_true_r. apply Nat.leb_le. lia.
Qed.

Lemma trim_between prefix suffix name :
  TrimSuffix (TrimPrefix (prefix ++ name ++ suffix) prefix) suffix = name.
Proof. now rewrite TrimPrefix_append, TrimSuffix_append. Qed.

Lemma string_append_nil_r (s : string) : (s ++ "")%string = s.
Proof. induction s as [|a s IH]; [reflexivity|]. now rewrite append_cons, IH. Qed.

(** [LoadAllZoneNames], for a key prefix and suffix that hold none of
    the metacharacters of the backend's patterns. On a dead link it returns
    the error of the link. On a live link it returns, each once, the names
    which, put between the prefix and the suffix, are keys of the backend,
    whatever these keys hold; with no suffix these are the names whose [Key]
    is there, the keys of the rows and of their TTLs among them. *)
Theorem LoadAllZoneNames_keys :
  forall (redis : Redis) (conn : Conn),
    (forall e, failure conn = Some e ->
               LoadAllZoneNames redis conn = inr (BackendError e))
    /\ (failure conn = None ->
        exists names,
          LoadAllZoneNames redis conn = inl names
          /\ NoDup names
          /\ (forall name,
                name ∈ names
                <-> is_Some (db conn !! (keyPrefix redis ++ name ++ keySuffix redis)%string))
          /\ (keySuffix redis = "" ->
              forall keyName, keyName ∈ names <-> is_Some (db conn !! Key redis keyName))).
Proof.
  intros redis conn. unfold LoadAllZoneNames, Do_KEYS. split.
  - intros e ->. reflexivity.
  - intros ->. eexists. split; [reflexivity|].
    set (trim := fun zone => TrimSuffix (TrimPrefix zone (keyPrefix redis)) (keySuffix redis)).
    set (keys := filter _ _).
    change (map _ keys) with (trim <$> keys).
    assert (Hkeys : forall key,
               key ∈ keys
               <-> (exists name, key = (keyPrefix redis ++ name ++ keySuffix redis)%string)
                   /\ is_Some (db conn !! key)).
    { intros key. unfold keys.
      rewrite list_elem_of_filter, elem_of_elements, elem_of_dom, matches_iff.
      reflexivity. }
    split.
    + apply NoDup_fmap_2_strong.
      * intros k1 k2 H1 H2. apply Hkeys in H1, H2.
        destruct H1 as [(n1 & ->) _], H2 as [(n2 & ->) _].
        unfold trim. rewrite !trim_between. now intros ->.
      * apply NoDup_filter, NoDup_elements.
    + assert (Hnames : forall name,
                 name ∈ trim <$> keys
                 <-> is_Some (db conn !! (keyPrefix redis ++ name ++ keySuffix redis)%string)).
      { intros name. rewrite list_elem_of_fmap. split.
        * intros (key & -> & Hk). apply Hkeys in Hk. destruct Hk as [(n & ->) Hk].
          unfold trim. now rewrite trim_between.
        * intros Hk. exists (keyPrefix redis ++ name ++ keySuffix redis)%string. split.
          -- unfold trim. now rewrite trim_between.
          -- apply Hkeys. eauto. }
      split; [exact Hnames|].
      intros Hs keyName. rewrite Hnames, Hs. unfold Key.
      now rewrite string_append_nil_r.
Qed.

(** *** The data of an answer *)

Section Data.

Variable ParseIP : string -> dns.IP.
Variable redis : Redis.
Variable rec : string -> string -> Conn -> Outcome Results.

Lemma parseA_data ips recordName header :
  map dns.Data (parseA ParseIP ips recordName header)
  = map (fun ip => dns.A (ParseIP ip)) ips.
Proof.
  unfold parseA.
  enough (H : forall acc,
             map dns.Data
               (fold_left
                  (fun answers ip =>
                     (answers ++
                      [dns.mkRR (dns.mkHeader recordName dns.TypeA
                                   (dns.Class header) (dns.Ttl header))
                         (dns.A (ParseIP ip))])%list) ips acc)
             = (map dns.Data acc ++ map (fun ip => dns.A (ParseIP ip)) ips)%list)
    by apply (H []).
  induction ips as [|ip ips IH]; intros acc; simpl; [now rewrite app_nil_r|].
  rewrite IH, map_app, <- app_assoc. reflexivity.
Qed.

Lemma parseNS_range_data hosts zoneName header answers extras conn
      answers' extras' conn' :
  parseNS_range rec hosts zoneName header answers extras conn
  = Return (answers', extras', None) conn' ->
  Forall (fun host => dns.IsFqdn host = true) hosts
  /\ map dns.Data answers' = (map dns.Data answers ++ map dns.NS hosts)%list.
Proof.
  revert header answers extras conn.
  induction hosts as [|host hosts IH]; intros header answers extras conn; simpl.
  - intros H. injection H as <- _ _. split; [constructor | now rewrite app_nil_r].
  - destruct (dns.IsFqdn host) eqn:Hfq; [|discriminate]. cbn [negb].
    destruct (getAdditionalRecords rec host conn) as [[additional [err|]] c| |];
      try discriminate.
    intros H. apply IH in H. destruct H as [Hall Hdata]. split.
    + now constructor.
    + rewrite Hdata, map_app, <- app_assoc. reflexivity.
Qed.

Lemma parseSOA_data fields zoneName header conn answers extras conn' :
  parseSOA rec fields zoneName header conn = Return (answers, extras, None) conn' ->
  exists ns mbox serial refresh retry expire minttl,
    nth_error fields 0 = Some ns /\ nth_error fields 1 = Some mbox
    /\ field_number fields 2 serial /\ field_number fields 3 refresh
    /\ field_number fields 4 retry /\ field_number fields 5 expire
    /\ field_number fields 6 minttl
    /\ map dns.Data answers
       = [dns.SOA ns (if dns.IsFqdn mbox then mbox else mbox ++ "." ++ zoneName)
            (Strconv.uint32 serial) (Strconv.uint32 refresh) (Strconv.uint32 retry)
            (Strconv.uint32 expire) (Strconv.uint32 minttl)].
Proof.
  unfold parseSOA, atoiField, index, field_number.
  destruct (nth_error fields 0) as [ns|]; [|discriminate].
  destruct (nth_error fields 1) as [mbox|]; [|discriminate].
  destruct (nth_error fields 2) as [f2|]; [|discriminate].
  destruct (Strconv.Atoi f2) as [serial|] eqn:E2; [|discriminate].
  destruct (nth_error fields 3) as [f3|]; [|discriminate].
  destruct (Strconv.Atoi f3) as [refresh|] eqn:E3; [|discriminate].
  destruct (nth_error fields 4) as [f4|]; [|discriminate].
  destruct (Strconv.Atoi f4) as [retry|] eqn:E4; [|discriminate].
  destruct (nth_error fields 5) as [f5|]; [|discriminate].
  destruct (Strconv.Atoi f5) as [expire|] eqn:E5; [|discriminate].
  destruct (nth_error fields 6) as [f6|]; [|discriminate].
  destruct (Strconv.Atoi f6) as [minttl|] eqn:E6; [|discriminate].
  destruct (getAdditionalRecords rec ns conn) as [[additional [err|]] c| |];
    try discriminate.
  intros H. injection H as <- _ _.
  exists ns, mbox, serial, refresh, retry, expire, minttl.
  repeat (split; [eauto|]). cbn [map dns.Data]. now destruct (dns.IsFqdn mbox).
Qed.

Lemma settle_data keyName remainingTtl parsed answers extras conn' :
  settle redis keyName remainingTtl parsed = Return (answers, extras, None) conn' ->
  exists answers0 conn0,
    parsed = Return (answers0, extras, None) conn0
    /\ map dns.Data answers = map dns.Data answers0.
Proof.
  unfold settle. destruct parsed as [[[answers0 extras0] [err|]] c| |];
    try discriminate.
  destruct (_ =? _).
  - destruct answers0 as [|first answers0]; [discriminate|].
    destruct (Do_SET_EX _ _ _ _) as [[e|] c']; [discriminate|].
    intros H. injection H as <- <- <-. eauto.
  - intros H. injection H as <- <- <-. eexists _, _. split; [reflexivity|].
    rewrite map_map. reflexivity.
Qed.

End Data.

(** The data of a lookup that succeeds, read off the row under the key
    of the type and name. The answers of an A row hold, in the order of the
    fields after the third, what [net.ParseIP] makes of each, the nil address
    of a field that is no address included; the answers of an NS row hold
    these fields, which all are fully qualified; the answer of a SOA row holds
    the first field as name server, the second as mailbox, with the record
    name appended when it is not fully qualified, and the next five as 32-bit
    numbers. *)
Theorem LoadZoneRecords_data :
  forall (ParseIP : string -> dns.IP) (redis : Redis)
         (recordType recordName : string) (conn : Conn)
         (answers extras : list dns.RR) (conn' : Conn),
    LoadZoneRecords ParseIP redis recordType recordName conn
    = Return (answers, extras, None) conn' ->
    exists rData expiry,
      db conn !! Key redis (recordType ++ "/" ++ recordName)
      = Some (mkEntry (VString rData) expiry)
      /\ (recordType = "A" ->
          map dns.Data answers
          = map (fun ip => dns.A (ParseIP ip)) (skipn 3 (Fields rData)))
      /\ (recordType = "NS" ->
          Forall (fun host => dns.IsFqdn host = true) (skipn 3 (Fields rData))
          /\ map dns.Data answers = map dns.NS (skipn 3 (Fields rData)))
      /\ (recordType = "SOA" ->
          exists ns mbox serial refresh retry expire minttl,
            nth_error (Fields rData) 3 = Some ns
            /\ nth_error (Fields rData) 4 = Some mbox
            /\ field_number (Fields rData) 5 serial
            /\ field_number (Fields rData) 6 refresh
            /\ field_number (Fields rData) 7 retry
            /\ field_number (Fields rData) 8 expire
            /\ field_number (Fields rData) 9 minttl
            /\ map dns.Data answers
               = [dns.SOA ns
                    (if dns.IsFqdn mbox then mbox else mbox ++ "." ++ recordName)
                    (Strconv.uint32 serial) (Strconv.uint32 refresh)
                    (Strconv.uint32 retry) (Strconv.uint32 expire)
                    (Strconv.uint32 minttl)]).
Proof.
  intros ParseIP redis recordType recordName conn answers extras conn'.
  change (LoadZoneRecords ParseIP redis)
    with (LoadZoneRecords_body ParseIP redis (LoadZoneRecords_fuel ParseIP redis 1)).
  destruct (body_cases ParseIP redis (LoadZoneRecords_fuel ParseIP redis 1)
              recordType recordName conn)
    as [(err & c & -> & _) | (_ & rData & expiry & Hd & _ & ->)]; [discriminate|].
  intros H. apply settle_data in H. destruct H as (answers0 & conn0 & Hp & ->).
  exists rData, expiry. split; [exact Hd|].
  revert Hp. unfold parseRecordValuesFromString, parseNS, index.
  destruct (_ <? _)%nat; [discriminate|].
  destruct (nth_error _ 2); [|discriminate].
  destruct (negb _); [discriminate|].
  destruct (nth_error _ 0); [|discriminate].
  destruct (Strconv.Atoi _) as [ttl|]; [|discriminate].
  destruct (String.eqb_spec recordType "A") as [->|HA].
  { intros H. injection H as <- _ _.
    split; [intros _; apply parseA_data|]. split; discriminate. }
  destruct (String.eqb_spec recordType "NS") as [->|HNS].
  { intros H. apply parseNS_range_data in H.
    split; [discriminate|]. split; [intros _; exact H | discriminate]. }
  destruct (String.eqb_spec recordType "SOA") as [->|HSOA]; [|discriminate].
  intros H. apply parseSOA_data in H.
  split; [discriminate|]. split; [discriminate|]. intros _.
  destruct H as (ns & mbox & serial & refresh & retry & expire & minttl
                 & H0 & H1 & H2 & H3 & H4 & H5 & H6 & Hdata).
  unfold field_number in *. rewrite nth_error_skipn in H0, H1, H2, H3, H4, H5, H6.
  exists ns, mbox, serial, refresh, retry, expire, minttl.
  repeat (split; [assumption|]). exact Hdata.
Qed.

Lemma LoadZoneRecords_data_witness :
  exists rData expiry,
    db decayed !! "dns:A/www.example.com." = Some (mkEntry (VString rData) expiry)
    /\ map dns.Data [dns.setTtl 120 exampleAnswer]
       = map (fun ip => dns.A (exampleIP ip)) (skipn 3 (Fields rData)).
Proof.
  destruct (LoadZoneRecords_data exampleIP exampleRedis "A" "www.example.com."
              decayed _ _ _ eq_refl) as (rData & expiry & Hd & HA & _).
  exists rData, expiry. split; [exact Hd | exact (HA eq_refl)].
Defined.

End RowsMore.
